(** * Nintendo DS SPI UART (source/uart.c): shallow embedding and properties

    The driver keeps two byte queues in static arrays, a one-bit escape
    filter, a watermark latch and the bookkeeping of one "priority" frame.
    [do_spi] is the interrupt routine that exchanges one byte with the card;
    the [uart_*] functions are the foreground API.

    Modelling conventions
    - [uint16] variables are integers in [Z]; every assignment to one is
      reduced with [u16].  Bytes are integers too: the code only copies and
      compares them, so no arithmetic on bytes has to be wrapped.
    - An array is a [list Z] of the declared length.  An access outside the
      array is undefined behaviour in C and is reported as [Undef].
    - [prio_dest] points into caller memory; that memory is the [heap],
      indexed by a block identifier.  NULL is [None].
    - The hardware is part of the state: the timer control registers, the
      interrupt enable mask, the handler table, the card SPI unit, the real
      time clock and the bytes shifted out on the wire so far.
    - The float [spi_rate], the timer reload register and the card bus
      ownership bit take no part in any property below and are left out. *)

From Stdlib Require Import ZArith List Bool Lia.
Import ListNotations.
Open Scope Z_scope.

(** ** Results of C computations *)

Inductive res (A : Type) : Type :=
| Ret (a : A)   (* normal completion *)
| Undef         (* undefined behaviour: access outside an array *)
| Pending.      (* still waiting when the environment trace ended *)

Arguments Ret {A} a.
Arguments Undef {A}.
Arguments Pending {A}.

Definition bind {A B} (c : res A) (k : A -> res B) : res B :=
  match c with
  | Ret a => k a
  | Undef => Undef
  | Pending => Pending
  end.

Notation "x <- c ;; k" := (bind c (fun x => k))
  (at level 61, c at next level, right associativity).
Notation "' p <- c ;; k" := (bind c (fun x => match x with p => k end))
  (at level 61, p pattern, c at next level, right associativity).

(** ** Constants of uart.c *)

Definition UART_FIFO_BLOCK_SIZE : Z := 8.
Definition UART_IN_EMERG : Z := 8.
Definition UART_IN_SIZE : Z := 256.
Definition UART_OUT_EMERG : Z := 4.
Definition UART_OUT_SIZE : Z := 256.
Definition UART_SPI_RATE : Z := 2000.
Definition UART_TIMER_OFF : Z := 255.

(** The declared lengths of the arrays [in] and [out]. *)
Definition IN_CAP : Z := UART_IN_SIZE + UART_IN_EMERG.
Definition OUT_CAP : Z := UART_OUT_SIZE + UART_OUT_EMERG.

(** Constants of libnds used by uart.c. *)
Definition BIT (n : Z) : Z := Z.shiftl 1 n.
Definition TIMER_ENABLE : Z := BIT 7.
Definition TIMER_IRQ_REQ : Z := BIT 6.
Definition TIMER_DIV_1 : Z := 0.
Definition TIMER_DIV_64 : Z := 1.
Definition TIMER_DIV_256 : Z := 2.
Definition TIMER_DIV_1024 : Z := 3.
Definition IRQ_CARD_LINE : Z := BIT 20.

Definition u16 (z : Z) : Z := z mod 65536.

(** ** Arrays *)

Definition len (a : list Z) : Z := Z.of_nat (length a).

Definition load (a : list Z) (i : Z) : res Z :=
  if (0 <=? i) && (i <? len a) then Ret (nth (Z.to_nat i) a 0) else Undef.

Definition store (a : list Z) (i v : Z) : res (list Z) :=
  if (0 <=? i) && (i <? len a)
  then Ret (firstn (Z.to_nat i) a ++ v :: skipn (S (Z.to_nat i)) a)
  else Undef.

(** [memmove (a+dst, a+src, n)] inside one array; a negative [n] stands for
    the huge [size_t] a negative [int] converts to. *)
Definition memmove (a : list Z) (dst src n : Z) : res (list Z) :=
  if (0 <=? n) && (0 <=? src) && (src + n <=? len a)
     && (0 <=? dst) && (dst + n <=? len a)
  then Ret (firstn (Z.to_nat dst) a
            ++ firstn (Z.to_nat n) (skipn (Z.to_nat src) a)
            ++ skipn (Z.to_nat (dst + n)) a)
  else Undef.

(** [memcpy (a+dst, src, n)] from another array. *)
Definition memcpy (a : list Z) (dst : Z) (src : list Z) (n : Z)
  : res (list Z) :=
  if (0 <=? n) && (n <=? len src) && (0 <=? dst) && (dst + n <=? len a)
  then Ret (firstn (Z.to_nat dst) a
            ++ firstn (Z.to_nat n) src
            ++ skipn (Z.to_nat (dst + n)) a)
  else Undef.

Definition upd {A} (f : Z -> A) (k : Z) (v : A) : Z -> A :=
  fun j => if j =? k then v else f j.

Definition updn {A} (f : nat -> A) (k : nat) (v : A) : nat -> A :=
  fun j => if Nat.eqb j k then v else f j.

(** ** The driver state *)

#[projections(primitive)]
Record state : Type := mkState {
  (* static variables of uart.c *)
  in_buf : list Z;          (* in[UART_IN_SIZE+UART_IN_EMERG] *)
  in_size : Z;
  out : list Z;             (* out[UART_OUT_SIZE+UART_OUT_EMERG] *)
  out_head : Z;
  out_size : Z;
  prio_dest : option nat;
  prio_head : Z;
  prio_irq_bytes : Z;
  prio_size : Z;
  timer : Z;
  water_high : Z;
  water_low : Z;
  water_send : bool;
  inittimeout : Z;
  got_esc : bool;           (* static local of do_spi *)
  (* caller memory *)
  heap : nat -> list Z;
  (* hardware *)
  TIMER_CR : Z -> Z;
  REG_IE : Z;               (* interrupt enable mask *)
  irq_table : Z;            (* mask of interrupts with a handler installed *)
  card_spi : bool;          (* card SPI unit configured *)
  rtc : Z;                  (* what time(NULL) returns *)
  wire : list Z             (* bytes shifted out, oldest first *)
}.

Definition set_in_buf v (s : state) : state :=
  mkState v (in_size s) (out s) (out_head s) (out_size s) (prio_dest s)
    (prio_head s) (prio_irq_bytes s) (prio_size s) (timer s) (water_high s)
    (water_low s) (water_send s) (inittimeout s) (got_esc s) (heap s)
    (TIMER_CR s) (REG_IE s) (irq_table s) (card_spi s) (rtc s) (wire s).

Definition set_in_size v (s : state) : state :=
  mkState (in_buf s) v (out s) (out_head s) (out_size s) (prio_dest s)
    (prio_head s) (prio_irq_bytes s) (prio_size s) (timer s) (water_high s)
    (water_low s) (water_send s) (inittimeout s) (got_esc s) (heap s)
    (TIMER_CR s) (REG_IE s) (irq_table s) (card_spi s) (rtc s) (wire s).

Definition set_out v (s : state) : state :=
  mkState (in_buf s) (in_size s) v (out_head s) (out_size s) (prio_dest s)
    (prio_head s) (prio_irq_bytes s) (prio_size s) (timer s) (water_high s)
    (water_low s) (water_send s) (inittimeout s) (got_esc s) (heap s)
    (TIMER_CR s) (REG_IE s) (irq_table s) (card_spi s) (rtc s) (wire s).

Definition set_out_head v (s : state) : state :=
  mkState (in_buf s) (in_size s) (out s) v (out_size s) (prio_dest s)
    (prio_head s) (prio_irq_bytes s) (prio_size s) (timer s) (water_high s)
    (water_low s) (water_send s) (inittimeout s) (got_esc s) (heap s)
    (TIMER_CR s) (REG_IE s) (irq_table s) (card_spi s) (rtc s) (wire s).

Definition set_out_size v (s : state) : state :=
  mkState (in_buf s) (in_size s) (out s) (out_head s) v (prio_dest s)
    (prio_head s) (prio_irq_bytes s) (prio_size s) (timer s) (water_high s)
    (water_low s) (water_send s) (inittimeout s) (got_esc s) (heap s)
    (TIMER_CR s) (REG_IE s) (irq_table s) (card_spi s) (rtc s) (wire s).

Definition set_prio_dest v (s : state) : state :=
  mkState (in_buf s) (in_size s) (out s) (out_head s) (out_size s) v
    (prio_head s) (prio_irq_bytes s) (prio_size s) (timer s) (water_high s)
    (water_low s) (water_send s) (inittimeout s) (got_esc s) (heap s)
    (TIMER_CR s) (REG_IE s) (irq_table s) (card_spi s) (rtc s) (wire s).

Definition set_prio_head v (s : state) : state :=
  mkState (in_buf s) (in_size s) (out s) (out_head s) (out_size s) (prio_dest
    s) v (prio_irq_bytes s) (prio_size s) (timer s) (water_high s) (water_low
    s) (water_send s) (inittimeout s) (got_esc s) (heap s) (TIMER_CR s)
    (REG_IE s) (irq_table s) (card_spi s) (rtc s) (wire s).

Definition set_prio_irq_bytes v (s : state) : state :=
  mkState (in_buf s) (in_size s) (out s) (out_head s) (out_size s) (prio_dest
    s) (prio_head s) v (prio_size s) (timer s) (water_high s) (water_low s)
    (water_send s) (inittimeout s) (got_esc s) (heap s) (TIMER_CR s) (REG_IE
    s) (irq_table s) (card_spi s) (rtc s) (wire s).

Definition set_prio_size v (s : state) : state :=
  mkState (in_buf s) (in_size s) (out s) (out_head s) (out_size s) (prio_dest
    s) (prio_head s) (prio_irq_bytes s) v (timer s) (water_high s) (water_low
    s) (water_send s) (inittimeout s) (got_esc s) (heap s) (TIMER_CR s)
    (REG_IE s) (irq_table s) (card_spi s) (rtc s) (wire s).

Definition set_timer v (s : state) : state :=
  mkState (in_buf s) (in_size s) (out s) (out_head s) (out_size s) (prio_dest
    s) (prio_head s) (prio_irq_bytes s) (prio_size s) v (water_high s)
    (water_low s) (water_send s) (inittimeout s) (got_esc s) (heap s)
    (TIMER_CR s) (REG_IE s) (irq_table s) (card_spi s) (rtc s) (wire s).

Definition set_water_high v (s : state) : state :=
  mkState (in_buf s) (in_size s) (out s) (out_head s) (out_size s) (prio_dest
    s) (prio_head s) (prio_irq_bytes s) (prio_size s) (timer s) v (water_low
    s) (water_send s) (inittimeout s) (got_esc s) (heap s) (TIMER_CR s)
    (REG_IE s) (irq_table s) (card_spi s) (rtc s) (wire s).

Definition set_water_low v (s : state) : state :=
  mkState (in_buf s) (in_size s) (out s) (out_head s) (out_size s) (prio_dest
    s) (prio_head s) (prio_irq_bytes s) (prio_size s) (timer s) (water_high s)
    v (water_send s) (inittimeout s) (got_esc s) (heap s) (TIMER_CR s) (REG_IE
    s) (irq_table s) (card_spi s) (rtc s) (wire s).

Definition set_water_send v (s : state) : state :=
  mkState (in_buf s) (in_size s) (out s) (out_head s) (out_size s) (prio_dest
    s) (prio_head s) (prio_irq_bytes s) (prio_size s) (timer s) (water_high s)
    (water_low s) v (inittimeout s) (got_esc s) (heap s) (TIMER_CR s) (REG_IE
    s) (irq_table s) (card_spi s) (rtc s) (wire s).

Definition set_inittimeout v (s : state) : state :=
  mkState (in_buf s) (in_size s) (out s) (out_head s) (out_size s) (prio_dest
    s) (prio_head s) (prio_irq_bytes s) (prio_size s) (timer s) (water_high s)
    (water_low s) (water_send s) v (got_esc s) (heap s) (TIMER_CR s) (REG_IE
    s) (irq_table s) (card_spi s) (rtc s) (wire s).

Definition set_got_esc v (s : state) : state :=
  mkState (in_buf s) (in_size s) (out s) (out_head s) (out_size s) (prio_dest
    s) (prio_head s) (prio_irq_bytes s) (prio_size s) (timer s) (water_high s)
    (water_low s) (water_send s) (inittimeout s) v (heap s) (TIMER_CR s)
    (REG_IE s) (irq_table s) (card_spi s) (rtc s) (wire s).

Definition set_heap v (s : state) : state :=
  mkState (in_buf s) (in_size s) (out s) (out_head s) (out_size s) (prio_dest
    s) (prio_head s) (prio_irq_bytes s) (prio_size s) (timer s) (water_high s)
    (water_low s) (water_send s) (inittimeout s) (got_esc s) v (TIMER_CR s)
    (REG_IE s) (irq_table s) (card_spi s) (rtc s) (wire s).

Definition set_TIMER_CR v (s : state) : state :=
  mkState (in_buf s) (in_size s) (out s) (out_head s) (out_size s) (prio_dest
    s) (prio_head s) (prio_irq_bytes s) (prio_size s) (timer s) (water_high s)
    (water_low s) (water_send s) (inittimeout s) (got_esc s) (heap s) v
    (REG_IE s) (irq_table s) (card_spi s) (rtc s) (wire s).

Definition set_REG_IE v (s : state) : state :=
  mkState (in_buf s) (in_size s) (out s) (out_head s) (out_size s) (prio_dest
    s) (prio_head s) (prio_irq_bytes s) (prio_size s) (timer s) (water_high s)
    (water_low s) (water_send s) (inittimeout s) (got_esc s) (heap s)
    (TIMER_CR s) v (irq_table s) (card_spi s) (rtc s) (wire s).

Definition set_irq_table v (s : state) : state :=
  mkState (in_buf s) (in_size s) (out s) (out_head s) (out_size s) (prio_dest
    s) (prio_head s) (prio_irq_bytes s) (prio_size s) (timer s) (water_high s)
    (water_low s) (water_send s) (inittimeout s) (got_esc s) (heap s)
    (TIMER_CR s) (REG_IE s) v (card_spi s) (rtc s) (wire s).

Definition set_card_spi v (s : state) : state :=
  mkState (in_buf s) (in_size s) (out s) (out_head s) (out_size s) (prio_dest
    s) (prio_head s) (prio_irq_bytes s) (prio_size s) (timer s) (water_high s)
    (water_low s) (water_send s) (inittimeout s) (got_esc s) (heap s)
    (TIMER_CR s) (REG_IE s) (irq_table s) v (rtc s) (wire s).

Definition set_rtc v (s : state) : state :=
  mkState (in_buf s) (in_size s) (out s) (out_head s) (out_size s) (prio_dest
    s) (prio_head s) (prio_irq_bytes s) (prio_size s) (timer s) (water_high s)
    (water_low s) (water_send s) (inittimeout s) (got_esc s) (heap s)
    (TIMER_CR s) (REG_IE s) (irq_table s) (card_spi s) v (wire s).

Definition set_wire v (s : state) : state :=
  mkState (in_buf s) (in_size s) (out s) (out_head s) (out_size s) (prio_dest
    s) (prio_head s) (prio_irq_bytes s) (prio_size s) (timer s) (water_high s)
    (water_low s) (water_send s) (inittimeout s) (got_esc s) (heap s)
    (TIMER_CR s) (REG_IE s) (irq_table s) (card_spi s) (rtc s) v.

(** ** Hardware primitives (libnds and spi.h) *)

(** libnds: set the bits of [mask] in the interrupt enable register. *)
Definition irqEnable (mask : Z) (s : state) : state :=
  set_REG_IE (Z.lor (REG_IE s) mask) s.

(** libnds: clear the bits of [mask] in the interrupt enable register. *)
Definition irqDisable (mask : Z) (s : state) : state :=
  set_REG_IE (Z.land (REG_IE s) (Z.lnot mask)) s.

(** libnds: install a handler for the interrupts of [mask].  The two
    handlers of uart.c, card_line_irq and timer_irq, both call do_spi. *)
Definition irqSet (mask : Z) (s : state) : state :=
  set_irq_table (Z.lor (irq_table s) mask) s.

(** libnds: remove the handler of the interrupts of [mask]. *)
Definition irqClear (mask : Z) (s : state) : state :=
  set_irq_table (Z.land (irq_table s) (Z.lnot mask)) s.

(** Modelled from the spec: init_cardSPI of spi.h, the first half of
    "configureLink(speed)"; the link is in use from here on. *)
Definition init_cardSPI (s : state) : state := set_card_spi true s.

(** Modelled from the spec: config_cardSPI of spi.h, "configureLink(speed)".
    The speed takes no part in the byte stream. *)
Definition config_cardSPI (s : state) : state := set_card_spi true s.

(** Modelled from the spec: disable_cardSPI of spi.h, "disableLink()". *)
Definition disable_cardSPI (s : state) : state := set_card_spi false s.

(** Modelled from the spec: writeBlocking_cardSPI of spi.h, the outgoing
    half of "exchangeByte(outgoing) -> incoming": the byte goes out on the
    wire.  The incoming half, readBlocking_cardSPI, yields the byte that
    the environment hands to [do_spi] as [read]. *)
Definition writeBlocking_cardSPI (b : Z) (s : state) : state :=
  set_wire (wire s ++ [b]) s.

(** ** Static helpers of uart.c *)

Definition timer_start (s : state) : state :=
  if timer s =? UART_TIMER_OFF then s
  else set_TIMER_CR
         (upd (TIMER_CR s) (timer s)
              (Z.lor (TIMER_CR s (timer s)) TIMER_ENABLE)) s.

Definition timer_stop (s : state) : state :=
  if timer s =? UART_TIMER_OFF then s
  else set_TIMER_CR
         (upd (TIMER_CR s) (timer s)
              (Z.land (TIMER_CR s (timer s)) (Z.lnot TIMER_ENABLE))) s.

Definition lock (s : state) : state :=
  if timer s =? UART_TIMER_OFF then s
  else irqDisable (Z.lor (BIT (timer s + 3)) IRQ_CARD_LINE) s.

Definition unlock (s : state) : state :=
  if timer s =? UART_TIMER_OFF then s
  else irqEnable (Z.lor (BIT (timer s + 3)) IRQ_CARD_LINE) s.

(** ** uart_write_prio *)

Definition uart_write_prio (buf : list Z) (size : Z) (dest : option nat)
           (irq_bytes : Z) (s : state) : res state :=
  let s := lock s in
  if UART_OUT_SIZE + UART_OUT_EMERG <? size then
    Ret s                                 (* returns without unlock() *)
  else
    o1 <- (if size + out_size s - out_head s
                <=? UART_OUT_SIZE + UART_OUT_EMERG
           then memmove (out s) size (out_head s) (out_size s - out_head s)
           else memmove (out s) size
                  (out_size s - UART_OUT_SIZE + UART_OUT_EMERG - size)
                  (UART_OUT_SIZE + UART_OUT_EMERG - size)) ;;
    o2 <- memcpy o1 0 buf size ;;
    Ret (unlock
           (set_prio_size size
           (set_prio_irq_bytes irq_bytes
           (set_prio_head 0
           (set_prio_dest dest
           (set_out_head 0
           (set_out_size (u16 (size + out_size s - out_head s))
           (set_out o2 s)))))))).

Definition send_watermark (highwater : bool) (s : state) : res state :=
  let msg := [92; 119; if highwater then 1 else 0] in
  uart_write_prio msg 3 None 0 s.

(** ** do_spi *)

(** [1 << n] as the mask bit tested against [prio_irq_bytes].  A count
    outside 0..31 is undefined in C; the ARM shifter yields no bit of a
    32-bit mask for the counts that occur (-1 on the last byte of every
    frame), and that is what is modelled. *)
Definition shl1 (n : Z) : Z :=
  if (0 <=? n) && (n <? 32) then Z.shiftl 1 n else 0.

(** Lines 125-135: the two watermark tests. *)
Definition do_spi_watermarks (s : state) : res state :=
  s1 <- (if (0 <? water_high s) && (water_high s <=? in_size s + 1)
            && negb (water_send s)
         then s' <- send_watermark true s ;; Ret (set_water_send true s')
         else Ret s) ;;
  if (0 <? water_low s1) && (in_size s1 + 1 <=? water_low s1)
     && water_send s1
  then s' <- send_watermark false s1 ;; Ret (set_water_send false s')
  else Ret s1.

(** Lines 137-146: making room, adding the byte. *)
Definition do_spi_add (read : Z) (s : state) : res state :=
  s1 <- (if in_size s =? UART_IN_SIZE
         then b <- memmove (in_buf s) 0 UART_FIFO_BLOCK_SIZE
                     (UART_IN_SIZE - UART_FIFO_BLOCK_SIZE) ;;
              Ret (set_in_size (u16 (in_size s - UART_FIFO_BLOCK_SIZE))
                     (set_in_buf b s))
         else Ret s) ;;
  b <- store (in_buf s1) (in_size s1) read ;;
  Ret (set_in_size (u16 (in_size s1 + 1)) (set_in_buf b s1)).

Definition do_spi_append (read : Z) (s : state) : res state :=
  s1 <- do_spi_watermarks s ;; do_spi_add read s1.

(** Lines 111-123: the escape filter, falling through to the append. *)
Definition do_spi_filter (read : Z) (s : state) : res state :=
  if negb (got_esc s) && (read =? 92) then Ret (set_got_esc true s)
  else if got_esc s then do_spi_append read (set_got_esc false s)
  else if (read =? 0) || (read =? 255) then Ret s
  else do_spi_append read s.

(** Lines 75-88: the exchange itself and re-arming the timer. *)
Definition do_spi_exchange (s : state) : res state :=
  s1 <- (if out_head s <? out_size s
         then b <- load (out s) (out_head s) ;;
              Ret (set_out_head (u16 (out_head s + 1))
                     (writeBlocking_cardSPI b s))
         else Ret (writeBlocking_cardSPI 0 s)) ;;
  Ret (timer_start s1).

Definition do_spi (read : Z) (s : state) : res state :=
  s1 <- do_spi_exchange s ;;
  if prio_head s1 <? prio_size s1 then
    let s2 := if negb (Z.land (prio_irq_bytes s1)
                         (shl1 (prio_size s1 - prio_head s1 - 2)) =? 0)
              then timer_stop s1 else s1 in
    if prio_head s2 <? 2 then
      do_spi_filter read (set_prio_head (u16 (prio_head s2 + 1)) s2)
    else
      s3 <- match prio_dest s2 with
            | Some p =>
                d <- store (heap s2 p) (prio_head s2) read ;;
                Ret (set_heap (updn (heap s2) p d) s2)
            | None => Ret s2
            end ;;
      Ret (set_prio_head (u16 (prio_head s3 + 1)) s3)
  else do_spi_filter read s1.

Definition card_line_irq := do_spi.
Definition timer_irq := do_spi.

(** ** The environment of the foreground code

    While the foreground waits, interrupts run [do_spi] and the clock
    advances.  One [slice] is what happens during one wait: the bytes
    received by the exchanges that take place, and the clock afterwards.
    A waiting call that finds the trace empty is [Pending]. *)

Record slice : Type := mkSlice { irqs : list Z; now : Z }.

Fixpoint run_irqs (rx : list Z) (s : state) : res state :=
  match rx with
  | [] => Ret s
  | b :: rx' => s' <- do_spi b s ;; run_irqs rx' s'
  end.

Definition pass (sl : slice) (s : state) : res state :=
  s' <- run_irqs (irqs sl) s ;; Ret (set_rtc (now sl) s').

(** ** Library functions *)

Definition uart_available (s : state) : Z := in_size s.

(** The [for] loop of uart_write; [n] counts the iterations left. *)
Fixpoint uart_write_loop (buf : list Z) (n : nat) (i ret : Z) (s : state)
  : res (state * Z) :=
  match n with
  | O => Ret (s, ret)
  | S n' =>
      b <- load buf i ;;
      if b =? 0 then
        if UART_OUT_SIZE <? out_size s + 2 then Ret (s, ret)
        else
          o1 <- store (out s) (out_size s) 92 ;;
          o2 <- store o1 (out_size s + 1) 0 ;;
          uart_write_loop buf n' (u16 (i + 1)) (u16 (ret + 1))
            (set_out_size (u16 (out_size s + 2)) (set_out o2 s))
      else if b =? 92 then
        if UART_OUT_SIZE <? out_size s + 2 then Ret (s, ret)
        else
          o1 <- store (out s) (out_size s) 92 ;;
          o2 <- store o1 (out_size s + 1) 92 ;;
          uart_write_loop buf n' (u16 (i + 1)) (u16 (ret + 1))
            (set_out_size (u16 (out_size s + 2)) (set_out o2 s))
      else
        if UART_OUT_SIZE <? out_size s + 1 then Ret (s, ret)
        else
          o1 <- store (out s) (out_size s) b ;;
          uart_write_loop buf n' (u16 (i + 1)) (u16 (ret + 1))
            (set_out_size (u16 (out_size s + 1)) (set_out o1 s))
  end.

Definition uart_write (buf : list Z) (size : Z) (s : state)
  : res (state * Z) :=
  let s := lock s in
  s1 <- (if 0 <? out_head s
         then o <- memmove (out s) 0 (out_head s)
                     (out_size s - out_head s) ;;
              Ret (set_out_head 0
                     (set_out_size (u16 (out_size s - out_head s))
                        (set_out o s)))
         else Ret s) ;;
  '(s2, ret) <- uart_write_loop buf (Z.to_nat size) 0 0 s1 ;;
  Ret (unlock s2, ret).

(** uart_read returns the count and the bytes copied to [dest]. *)
Definition uart_read (size : Z) (s : state) : res (state * Z * list Z) :=
  let s := lock s in
  let read := if in_size s <? size then in_size s else size in
  if len (in_buf s) <? read then Undef
  else
    let data := firstn (Z.to_nat read) (in_buf s) in
    b <- memmove (in_buf s) 0 read (in_size s - read) ;;
    Ret (unlock (set_in_size (u16 (in_size s - read)) (set_in_buf b s)),
         read, data).

Definition uart_requeue (src : list Z) (size : Z) (s : state)
  : res (state * bool) :=
  let s := lock s in
  if size + in_size s <=? UART_IN_SIZE + UART_IN_EMERG then
    i1 <- memmove (in_buf s) size 0 (in_size s) ;;
    o1 <- memcpy (out s) 0 src size ;;
    Ret (unlock (set_out_size (u16 (out_size s + size))
                   (set_out o1 (set_in_buf i1 s))), true)
  else Ret (unlock s, false).

(** swiIntrWait: one slice of the environment goes by. *)
Definition uart_wait (env : list slice) (s : state)
  : res (state * list slice) :=
  if timer s =? UART_TIMER_OFF then Ret (s, env)
  else match env with
       | [] => Pending
       | sl :: env' => s' <- pass sl s ;; Ret (s', env')
       end.

Definition uart_set_spi_rate (bps : Z) (s : state) : state :=
  if timer s =? UART_TIMER_OFF then s
  else
    let div := if bps <=? 32768 then TIMER_DIV_1024
               else if bps <=? 131072 then TIMER_DIV_256
               else if bps <=? 524288 then TIMER_DIV_64
               else TIMER_DIV_1 in
    set_TIMER_CR
      (upd (TIMER_CR s) (timer s)
           (Z.lor (Z.lor div TIMER_ENABLE) TIMER_IRQ_REQ)) s.

Definition uart_set_watermarks (high low : Z) (s : state) : state :=
  set_water_low (u16 (Z.quot (UART_IN_SIZE * low) 100))
    (set_water_high (u16 (Z.quot (UART_IN_SIZE * high) 100)) s).

(** The timeout exit of uart_wait_prio (lines 567-577). *)
Definition uart_wait_prio_timeout (s : state) : state :=
  let s := lock s in
  let s := set_out_head (prio_size s) s in
  let s := set_prio_size 0 s in
  let s := set_prio_head 0 s in
  let s := unlock s in
  timer_start s.

(** The do-while of uart_wait_prio; each swiDelay(0) is one slice. *)
Fixpoint uart_wait_prio_loop (timeout start : Z) (env : list slice)
         (s : state) : res (state * bool * list slice) :=
  if prio_head s =? prio_size s then
    Ret (set_prio_head 0 (set_prio_size 0 s), true, env)
  else
    match env with
    | [] => Pending
    | sl :: env' =>
        s1 <- pass sl s ;;
        if (timeout =? 0) || (rtc s1 - start <=? timeout)
        then uart_wait_prio_loop timeout start env' s1
        else Ret (uart_wait_prio_timeout s1, false, env')
    end.

Definition uart_wait_prio (timeout : Z) (env : list slice) (s : state)
  : res (state * bool * list slice) :=
  uart_wait_prio_loop timeout (rtc s) env s.

(** [msg] is the block that holds the local array of the same name. *)
Definition uart_firmware_ver (msg : nat) (env : list slice) (s : state)
  : res (state * Z * list slice) :=
  let s := set_heap (updn (heap s) msg [92; 118; 0]) s in
  s1 <- uart_write_prio (heap s msg) 3 (Some msg) 0 s ;;
  '(s2, _, env') <- uart_wait_prio 0 env s1 ;;
  ver <- load (heap s2 msg) 2 ;;
  Ret (s2, ver, env').

(** The probe loop of uart_init, [i] going from 3 down to 0; the result is
    the final value of [i] (-1 when every timer is in use). *)
Fixpoint probe_timers (n : nat) (i : Z) (s : state) : Z :=
  match n with
  | O => i
  | S n' =>
      if negb (Z.land (TIMER_CR s i) TIMER_ENABLE =? 0)
      then probe_timers n' (i - 1) s
      else i
  end.

(** The do-while of uart_init; [fuel] bounds the iterations. *)
Fixpoint uart_init_loop (fuel : nat) (i : Z) (msg : nat) (env : list slice)
         (s : state) : res (state * bool * list slice) :=
  match fuel with
  | O => Pending
  | S fuel' =>
      '(s1, ver, env1) <- uart_firmware_ver msg env s ;;
      '(s2, env2) <- uart_wait env1 s1 ;;
      if negb (ver =? 0) && negb (ver =? 255) then Ret (s2, true, env2)
      else if (inittimeout s2 =? 0) || (ver =? 0) then
        Ret (irqDisable (BIT (i + 3)) (disable_cardSPI s2), false, env2)
      else
        uart_init_loop fuel' i msg env2
          (set_inittimeout (inittimeout s2 - 1) s2)
  end.

Definition uart_init (fuel : nat) (msg : nat) (env : list slice) (s : state)
  : res (state * bool * list slice) :=
  if negb (timer s =? UART_TIMER_OFF) then Ret (s, false, env)
  else
    let s := config_cardSPI (init_cardSPI s) in
    let s := irqEnable IRQ_CARD_LINE (irqSet IRQ_CARD_LINE s) in
    let i := probe_timers 4 3 s in
    let s := if 0 <=? i then set_timer i s else s in
    if negb (timer s =? UART_TIMER_OFF) then
      let s := irqEnable (BIT (i + 3)) (irqSet (BIT (i + 3)) s) in
      let s := uart_set_spi_rate UART_SPI_RATE s in
      uart_init_loop fuel i msg env s
    else Ret (s, false, env).

Definition uart_close (s : state) : state :=
  let s :=
    if negb (timer s =? UART_TIMER_OFF) then
      let s := set_TIMER_CR
                 (upd (TIMER_CR s) (timer s)
                      (Z.land (TIMER_CR s (timer s)) (Z.lnot TIMER_ENABLE)))
                 s in
      let s := irqDisable (BIT (timer s + 3)) s in
      let s := irqClear (BIT (timer s + 3)) s in
      set_timer UART_TIMER_OFF s
    else s in
  disable_cardSPI (irqClear IRQ_CARD_LINE (irqDisable IRQ_CARD_LINE s)).

(** The static initialisers: the state before the first call.  The
    hardware starts with all timers stopped and interrupts masked. *)
Definition boot : state :=
  mkState (repeat 0 264) 0 (repeat 0 260) 0 0 None 0 0 0 UART_TIMER_OFF
    0 0 false 10 false (fun _ => []) (fun _ => 0) 0 0 false 0 [].

(** ** Further library functions *)

(** uart_readstr; [dest] is the block the caller passes.  The bytes
    uart_read hands over are copied to the block. *)
Definition uart_readstr (dest : nat) (size : Z) (s : state)
  : res (state * Z) :=
  '(s1, len, data) <- uart_read (u16 (size - 1)) s ;;
  d1 <- memcpy (heap s1 dest) 0 data len ;;
  d2 <- (if 0 <? size then store d1 len 0 else Ret d1) ;;
  Ret (set_heap (updn (heap s1) dest d2) s1, len).

(** The search loop of uart_readln, [n] iterations from index [i] on; the
    result is the index where it stops.  [nl] is compared as an unsigned
    byte (char is unsigned on ARM). *)
Fixpoint uart_readln_find (n : nat) (i nl : Z) (s : state) : res Z :=
  match n with
  | O => Ret i
  | S n' =>
      b <- load (in_buf s) i ;;
      if b =? nl then Ret i else uart_readln_find n' (u16 (i + 1)) nl s
  end.

Definition uart_readln (dest : nat) (size nl : Z) (s : state)
  : res (state * Z) :=
  let s := lock s in
  i <- uart_readln_find (Z.to_nat (in_size s)) 0 nl s ;;
  if i =? in_size s then Ret (unlock s, 0)
  else
    let size := u16 (size - 1) in
    let size := if i + 1 <? size then i + 1 else size in
    d1 <- memcpy (heap s dest) 0
            (skipn (Z.to_nat (i + 1 - size)) (in_buf s)) size ;;
    d2 <- store d1 size 0 ;;
    s1 <- (if i + 1 <? in_size s
           then b <- memmove (in_buf s) 0 (i + 1) (in_size s - i - 1) ;;
                Ret (set_in_size (u16 (in_size s - (i + 1)))
                       (set_in_buf b s))
           else Ret s) ;;
    Ret (unlock (set_heap (updn (heap s) dest d2) s1), size).

(** Some interrupt that runs [do_spi] can be taken: it is enabled in the
    interrupt mask and one of the two handlers of uart.c is installed for
    it. *)
Definition irq_live (s : state) : bool :=
  negb (Z.land (REG_IE s) (irq_table s) =? 0).

(** Interrupts are asynchronous.  On an open driver what happens up to the
    next test of a polling loop is the slice of its uart_wait.  On a closed
    driver uart_wait returns at once, but an interrupt that is still live -
    the card line after the exit of uart_init that found no free timer -
    runs [do_spi] between two tests of the loop all the same: a slice goes
    by then too.  When no interrupt is live nothing happens between two
    tests. *)
Definition between_polls (env : list slice) (s : state)
  : res (state * list slice) :=
  if (timer s =? UART_TIMER_OFF) && irq_live s then
    match env with
    | [] => Pending
    | sl :: env' => s' <- pass sl s ;; Ret (s', env')
    end
  else Ret (s, env).

(** uart_flush; [fuel] bounds the iterations of the loop. *)
Fixpoint uart_flush (fuel : nat) (env : list slice) (s : state)
  : res (state * list slice) :=
  match fuel with
  | O => Pending
  | S fuel' =>
      if out_head s <? out_size s then
        '(s1, env1) <- uart_wait env s ;;
        '(s2, env2) <- between_polls env1 s1 ;;
        uart_flush fuel' env2 s2
      else Ret (s, env)
  end.

(** uart_sendc; [fuel] bounds the iterations of the loop. *)
Fixpoint uart_sendc (fuel : nat) (c : Z) (env : list slice) (s : state)
  : res (state * list slice) :=
  match fuel with
  | O => Pending
  | S fuel' =>
      '(s1, n) <- uart_write [c] 1 s ;;
      if n =? 1 then Ret (s1, env)
      else
        '(s2, env2) <- uart_wait env s1 ;;
        '(s3, env3) <- between_polls env2 s2 ;;
        uart_sendc fuel' c env3 s3
  end.

(** strlen on the bytes of a char array: the index of the first 0x00;
    running off the array is undefined. *)
Fixpoint strlen (str : list Z) : res Z :=
  match str with
  | [] => Undef
  | c :: str' => if c =? 0 then Ret 0 else n <- strlen str' ;; Ret (n + 1)
  end.

(** The loop of uart_send; [fuel] bounds its iterations. *)
Fixpoint uart_send_loop (fuel : nat) (str : list Z) (len send : Z)
         (env : list slice) (s : state) : res (state * list slice) :=
  match fuel with
  | O => Pending
  | S fuel' =>
      if send <? len then
        '(s1, n) <- uart_write (skipn (Z.to_nat send) str)
                      (u16 (len - send)) s ;;
        '(s2, env2) <- uart_wait env s1 ;;
        uart_send_loop fuel' str len (u16 (send + n)) env2 s2
      else Ret (s, env)
  end.

Definition uart_send (fuel : nat) (str : list Z) (env : list slice)
           (s : state) : res (state * list slice) :=
  n <- strlen str ;; uart_send_loop fuel str (u16 n) 0 env s.

(** uart_set_bps; [msg] is the block that holds the local array. *)
Definition uart_set_bps (msg : nat) (bps : Z) (env : list slice) (s : state)
  : res (state * list slice) :=
  let m := [92; 98; Z.land (Z.shiftr bps 24) 255;
            Z.land (Z.shiftr bps 16) 255; Z.land (Z.shiftr bps 8) 255;
            Z.land bps 255] in
  let s := set_heap (updn (heap s) msg m) s in
  s1 <- uart_write_prio (heap s msg) 6 (Some msg) 0 s ;;
  '(s2, _, env') <- uart_wait_prio 0 env s1 ;;
  Ret (s2, env').

(** * Notions used in the statements *)

(** ** Views of the two queues and well-formed states *)

(** The bytes of the Inbound Buffer, oldest first. *)
Definition inbound (s : state) : list Z :=
  firstn (Z.to_nat (in_size s)) (in_buf s).

(** The bytes of the Outbound Buffer not yet transmitted, next first. *)
Definition unsent (s : state) : list Z :=
  firstn (Z.to_nat (out_size s - out_head s))
         (skipn (Z.to_nat (out_head s)) (out s)).

(** What is left of the Inbound Buffer once room has been made. *)
Definition evicted (s : state) : list Z :=
  if in_size s =? UART_IN_SIZE
  then skipn (Z.to_nat UART_FIFO_BLOCK_SIZE) (inbound s)
  else inbound s.

(** The arrays have their declared lengths and the counters respect them. *)
Definition wf (s : state) : Prop :=
  len (in_buf s) = IN_CAP /\ len (out s) = OUT_CAP /\
  0 <= in_size s <= UART_IN_SIZE /\
  0 <= out_head s <= out_size s /\ out_size s <= OUT_CAP.

(** No priority frame is being sent. *)
Definition prio_idle (s : state) : Prop := prio_size s <= prio_head s.

(** The [in] array has its length and holds at most UART_IN_SIZE bytes. *)
Definition in_ok (s : state) : Prop :=
  len (in_buf s) = IN_CAP /\ 0 <= in_size s <= UART_IN_SIZE.

(** The byte received on this tick belongs to the reply region of the
    active priority frame: the frame is at offset 2 or beyond. *)
Definition in_reply_region (s : state) : Prop :=
  2 <= prio_head s < prio_size s.

(** The byte gets through the filter: it follows an escape marker, or it
    is neither the marker nor one of the two noise values. *)
Definition passes (read : Z) (s : state) : Prop :=
  got_esc s = true \/ (read <> 92 /\ read <> 0 /\ read <> 255).

(** A well-formed state with both marks at zero, whose reply destination,
    if any, is long enough for the active frame. *)
Definition quiet (s : state) : Prop :=
  wf s /\ water_high s = 0 /\ water_low s = 0 /\
  0 <= prio_head s /\ prio_size s < 65536 /\
  (forall p, prio_dest s = Some p -> prio_size s <= len (heap s p)).

(** The priority frame is where uart_write_prio put it, at the start of
    the [out] array, and the ticks have kept the two cursors together:
    while the frame is incomplete the transmit cursor is at its next byte,
    afterwards it is at or behind its end.  uart_write_prio establishes
    this; uart_write breaks it when it moves the unsent bytes down. *)
Definition frame_in_front (s : state) : Prop :=
  len (out s) = OUT_CAP /\
  0 <= prio_head s <= prio_size s /\ prio_size s <= out_size s /\
  out_size s < 65536 /\
  (prio_head s < prio_size s -> out_head s = prio_head s) /\
  (prio_head s = prio_size s -> prio_size s <= out_head s <= out_size s).

(** ** The watermark tests *)

Definition watermark_msg (highwater : bool) : list Z :=
  [92; 119; if highwater then 1 else 0].

(** The high-water test of do_spi succeeds. *)
Definition notice_high (s : state) : Prop :=
  0 < water_high s /\ water_high s <= in_size s + 1 /\ water_send s = false.

(** The level part of the low-water test of do_spi. *)
Definition level_low (s : state) : Prop :=
  0 < water_low s /\ in_size s + 1 <= water_low s.


(** ** Intermediate states of a call *)

(** The state uart_write_prio leaves when it goes through, given the new
    content [o] of the [out] array. *)
Definition enqueued (o : list Z) (size : Z) (dest : option nat)
           (irq_bytes : Z) (s : state) : state :=
  unlock
    (set_prio_size size
    (set_prio_irq_bytes irq_bytes
    (set_prio_head 0
    (set_prio_dest dest
    (set_out_head 0
    (set_out_size (u16 (size + out_size s - out_head s))
    (set_out o (lock s)))))))).

(** The state after lines 75-88 of do_spi. *)
Definition exchanged (s : state) : state :=
  timer_start
    (if out_head s <? out_size s
     then set_out_head (u16 (out_head s + 1))
            (writeBlocking_cardSPI (nth (Z.to_nat (out_head s)) (out s) 0) s)
     else writeBlocking_cardSPI 0 s).

(** The wire form of one byte, as uart_write queues it. *)
Definition escaped (b : Z) : list Z :=
  if (b =? 0) || (b =? 92) then [92; b] else [b].

(** [n] bytes from the front of a queue, filled up with 0x00. *)
Fixpoint next_sent (n : nat) (q : list Z) : list Z :=
  match n with
  | O => []
  | S n' => hd 0 q :: next_sent n' (tl q)
  end.


(** ** What a step leaves alone *)

(** What uart_write_prio leaves alone. *)
Definition prio_frame (s s' : state) : Prop :=
  in_buf s' = in_buf s /\ in_size s' = in_size s /\
  got_esc s' = got_esc s /\ heap s' = heap s /\
  water_high s' = water_high s /\ water_low s' = water_low s /\
  timer s' = timer s /\ wire s' = wire s.

(** What the exchange and the priority bookkeeping of a tick leave alone:
    everything the filter and the Inbound Buffer depend on. *)
Definition tick_frame (s s' : state) : Prop :=
  in_buf s' = in_buf s /\ in_size s' = in_size s /\
  heap s' = heap s /\
  water_high s' = water_high s /\ water_low s' = water_low s /\
  water_send s' = water_send s /\ timer s' = timer s /\
  out s' = out s /\ out_size s' = out_size s /\
  prio_dest s' = prio_dest s /\ prio_size s' = prio_size s /\
  prio_irq_bytes s' = prio_irq_bytes s.

(** What the part of a tick after the exchange leaves alone. *)
Definition rest_frame (s s' : state) : Prop :=
  wire s' = wire s /\ water_high s' = water_high s /\
  water_low s' = water_low s.

(** The queue side of the state. *)
Definition out_frame (s s' : state) : Prop :=
  out s' = out s /\ out_size s' = out_size s /\ out_head s' = out_head s.

(** ** Sample states and peers *)

(** A state with a full Inbound Buffer holding 1, 2, ..., 256. *)
Definition full_in : state :=
  set_in_size 256
    (set_in_buf (map Z.of_nat (seq 1 256) ++ repeat 0 8) boot).

(** A firmware-version frame [\\ v 00] on its last byte: two bytes have
    gone out, the reply to the third is to be stored in block 0. *)
Definition capturing : state :=
  set_prio_size 3 (set_prio_head 2 (set_prio_dest (Some 0%nat)
    (set_out_size 3 (set_out_head 2
      (set_out ([92; 118; 0] ++ repeat 0 257)
        (set_heap (updn (heap boot) 0%nat [92; 118; 0]) boot)))))).

(** A state past its high-water mark: 10 bytes held, the notice latched,
    marks at 80% and 20% of UART_IN_SIZE. *)
Definition latched : state :=
  set_water_send true
    (set_in_size 10 (uart_set_watermarks 80 20 boot)).

(** One byte short of the high-water mark, latch clear. *)
Definition rising : state :=
  set_in_size 203 (uart_set_watermarks 80 20 boot).

(** A firmware-version frame just queued, nothing sent yet, with the
    Inbound Buffer one byte short of the high-water mark. *)
Definition in_flight : state :=
  set_in_size 203
    (set_prio_size 3 (set_prio_head 0 (set_prio_dest (Some 0%nat)
      (set_out_size 3
        (set_out ([92; 118; 0] ++ repeat 0 257)
          (set_heap (updn (heap boot) 0%nat [92; 118; 0])
            (uart_set_watermarks 80 20 boot))))))).

(** Two bytes queued and the watermarks off. *)
Definition queued2 : state :=
  set_out_size 2 (set_out ([65; 66] ++ repeat 0 258) boot).

(** A frame of 6 bytes stuck after its third byte, timer 3 in use. *)
Definition stalled : state :=
  set_timer 3
    (set_prio_size 6 (set_prio_head 3
      (set_out_head 3 (set_out_size 8
        (set_out ([92; 98; 0; 0; 37; 128; 65; 66] ++ repeat 0 252)
           boot))))).

(** The peer answers 0x00 to everything: three exchanges carry the
    version frame, one more ends the wait that follows. *)
Definition absent_peer : list slice := [mkSlice [0; 0; 0] 0; mkSlice [0] 0].

(** The peer answers 0xFF to everything, for eleven rounds. *)
Definition unready_peer : list slice :=
  concat (repeat [mkSlice [255; 255; 255] 0; mkSlice [255] 0] 11).

(** Every timer is already running. *)
Definition timers_taken : state := set_TIMER_CR (fun _ => TIMER_ENABLE) boot.

(** * Further notions *)

(** An array with the byte [v] stored at index [i]. *)
Definition stored (a : list Z) (i v : Z) : list Z :=
  firstn (Z.to_nat i) a ++ v :: skipn (S (Z.to_nat i)) a.

(** The caller memory after a tick at frame offset [k]: the received byte
    goes to position [k] of the destination when the offset is in the
    reply region and a destination is set. *)
Definition heap_after (s : state) (read : Z) : nat -> list Z :=
  if (prio_head s <? prio_size s) && negb (prio_head s <? 2) then
    match prio_dest s with
    | Some p => updn (heap s) p (stored (heap s p) (prio_head s) read)
    | None => heap s
    end
  else heap s.

(** The frame offset after a tick. *)
Definition prio_head_after (s : state) : Z :=
  if prio_head s <? prio_size s then prio_head s + 1 else prio_head s.

(** A destination array after the bytes [rx] have been received from
    frame offset [k] on: offsets 0 and 1 are not stored. *)
Fixpoint reply_written (h : list Z) (k : Z) (rx : list Z) : list Z :=
  match rx with
  | [] => h
  | b :: rx' => reply_written (if k <? 2 then h else stored h k b) (k + 1) rx'
  end.

(** What neither a tick nor a priority frame changes: the timer chosen,
    the retry budget of uart_init, the handlers installed and the state of
    the link. *)
Definition config_frame (s s' : state) : Prop :=
  timer s' = timer s /\ inittimeout s' = inittimeout s /\
  irq_table s' = irq_table s /\ card_spi s' = card_spi s.

(** A peer that is not ready yet: for each round it answers 0xFF to the
    third byte of the version frame; [a] and [b] are what the first two
    exchanges bring, [t] the clock, [sl] the slice of the wait that
    follows. *)
Fixpoint not_ready (rounds : list (Z * Z * Z * slice)) : list slice :=
  match rounds with
  | [] => []
  | (a, b, t, sl) :: r => mkSlice [a; b; 255] t :: sl :: not_ready r
  end.

(** * Properties *)

(** ** Tactics *)

(** Reduce projections of updated states, and nothing else. *)
Ltac st :=
  cbn [bind in_buf in_size out out_head out_size prio_dest prio_head
       prio_irq_bytes prio_size timer water_high water_low water_send
       inittimeout got_esc heap TIMER_CR REG_IE irq_table card_spi rtc wire
       set_in_buf set_in_size set_out set_out_head set_out_size
       set_prio_dest set_prio_head set_prio_irq_bytes set_prio_size
       set_timer set_water_high set_water_low set_water_send
       set_inittimeout set_got_esc set_heap set_TIMER_CR set_REG_IE
       set_irq_table set_card_spi set_rtc set_wire] in *.

Ltac consts :=
  unfold OUT_CAP, IN_CAP, UART_OUT_SIZE, UART_OUT_EMERG, UART_IN_SIZE,
    UART_IN_EMERG, UART_FIFO_BLOCK_SIZE in *.

(** ** Arrays *)

Lemma Ret_eq {A} (a b : A) : Ret a = Ret b -> a = b.
Proof. intros E. injection E as E. exact E. Qed.

Lemma len_nonneg (a : list Z) : 0 <= len a.
Proof. unfold len; lia. Qed.

Lemma len_app (a b : list Z) : len (a ++ b) = len a + len b.
Proof. unfold len. rewrite length_app. lia. Qed.

Lemma len_firstn (a : list Z) (n : Z) :
  0 <= n <= len a -> len (firstn (Z.to_nat n) a) = n.
Proof. unfold len. intros H. rewrite length_firstn. lia. Qed.

Lemma len_skipn (a : list Z) (n : Z) :
  0 <= n <= len a -> len (skipn (Z.to_nat n) a) = len a - n.
Proof. unfold len. intros H. rewrite length_skipn. lia. Qed.

Lemma load_Ret (a : list Z) (i : Z) :
  0 <= i < len a -> load a i = Ret (nth (Z.to_nat i) a 0).
Proof.
  intros H. unfold load.
  destruct (Z.leb_spec 0 i); destruct (Z.ltb_spec i (len a)); simpl;
    try lia; reflexivity.
Qed.

Lemma store_Ret (a : list Z) (i v : Z) :
  0 <= i < len a ->
  store a i v
  = Ret (firstn (Z.to_nat i) a ++ v :: skipn (S (Z.to_nat i)) a).
Proof.
  intros H. unfold store.
  destruct (Z.leb_spec 0 i); destruct (Z.ltb_spec i (len a)); simpl;
    try lia; reflexivity.
Qed.

Lemma len_stored (a : list Z) (i v : Z) :
  0 <= i < len a ->
  len (firstn (Z.to_nat i) a ++ v :: skipn (S (Z.to_nat i)) a) = len a.
Proof.
  unfold len. intros H.
  rewrite length_app, length_firstn. cbn [length].
  rewrite length_skipn. lia.
Qed.

Lemma memmove_Ret (a : list Z) (dst src n : Z) :
  0 <= n -> 0 <= src -> src + n <= len a -> 0 <= dst -> dst + n <= len a ->
  memmove a dst src n
  = Ret (firstn (Z.to_nat dst) a
         ++ firstn (Z.to_nat n) (skipn (Z.to_nat src) a)
         ++ skipn (Z.to_nat (dst + n)) a).
Proof.
  intros. unfold memmove.
  destruct (Z.leb_spec 0 n); destruct (Z.leb_spec 0 src);
    destruct (Z.leb_spec (src + n) (len a)); destruct (Z.leb_spec 0 dst);
    destruct (Z.leb_spec (dst + n) (len a)); simpl; try lia; reflexivity.
Qed.

Lemma len_moved (a b : list Z) (dst src n : Z) :
  0 <= n -> 0 <= src -> src + n <= len b -> 0 <= dst -> dst + n <= len a ->
  len (firstn (Z.to_nat dst) a
       ++ firstn (Z.to_nat n) (skipn (Z.to_nat src) b)
       ++ skipn (Z.to_nat (dst + n)) a) = len a.
Proof.
  unfold len. intros.
  rewrite !length_app, !length_firstn, !length_skipn. lia.
Qed.

Lemma memcpy_Ret (a : list Z) (dst : Z) (src : list Z) (n : Z) :
  0 <= n -> n <= len src -> 0 <= dst -> dst + n <= len a ->
  memcpy a dst src n
  = Ret (firstn (Z.to_nat dst) a
         ++ firstn (Z.to_nat n) src
         ++ skipn (Z.to_nat (dst + n)) a).
Proof.
  intros. unfold memcpy.
  destruct (Z.leb_spec 0 n); destruct (Z.leb_spec n (len src));
    destruct (Z.leb_spec 0 dst); destruct (Z.leb_spec (dst + n) (len a));
    simpl; try lia; reflexivity.
Qed.

Lemma memmove_inv (a : list Z) (dst src n : Z) (b : list Z) :
  memmove a dst src n = Ret b ->
  0 <= n /\ 0 <= src /\ src + n <= len a /\ 0 <= dst /\ dst + n <= len a /\
  len b = len a.
Proof.
  unfold memmove.
  destruct (Z.leb_spec 0 n); destruct (Z.leb_spec 0 src);
    destruct (Z.leb_spec (src + n) (len a)); destruct (Z.leb_spec 0 dst);
    destruct (Z.leb_spec (dst + n) (len a)); cbn [andb]; try discriminate.
  intros E. apply Ret_eq in E. subst b.
  repeat split; try assumption. apply len_moved; assumption.
Qed.

Lemma memcpy_inv (a : list Z) (dst : Z) (src : list Z) (n : Z) (b : list Z) :
  memcpy a dst src n = Ret b ->
  0 <= n /\ n <= len src /\ 0 <= dst /\ dst + n <= len a /\
  b = firstn (Z.to_nat dst) a ++ firstn (Z.to_nat n) src
      ++ skipn (Z.to_nat (dst + n)) a /\
  len b = len a.
Proof.
  unfold memcpy.
  destruct (Z.leb_spec 0 n); destruct (Z.leb_spec n (len src));
    destruct (Z.leb_spec 0 dst); destruct (Z.leb_spec (dst + n) (len a));
    cbn [andb]; try discriminate.
  intros E. apply Ret_eq in E. subst b.
  repeat split; try assumption.
  unfold len in *. rewrite !length_app, !length_firstn, length_skipn. lia.
Qed.

(** Taking a prefix that ends inside the first of two appended lists. *)
Lemma firstn_app_l (a b : list Z) (n : nat) :
  (n <= length a)%nat -> firstn n (a ++ b) = firstn n a.
Proof.
  intros H. rewrite firstn_app.
  replace (n - length a)%nat with 0%nat by lia.
  simpl. apply app_nil_r.
Qed.

Lemma firstn_app_exact (a b : list Z) (n : nat) :
  n = length a -> firstn n (a ++ b) = a.
Proof.
  intros ->. rewrite firstn_app, Nat.sub_diag, firstn_all. simpl.
  apply app_nil_r.
Qed.

Lemma skipn_app_exact (a b : list Z) (n : nat) :
  n = length a -> skipn n (a ++ b) = b.
Proof.
  intros ->. rewrite skipn_app, Nat.sub_diag, skipn_all. reflexivity.
Qed.

(** ** lock, unlock and the timer switch touch one hardware register *)

Lemma lock_eq (s : state) :
  lock s
  = set_REG_IE (if timer s =? UART_TIMER_OFF then REG_IE s
                else Z.land (REG_IE s)
                       (Z.lnot (Z.lor (BIT (timer s + 3)) IRQ_CARD_LINE))) s.
Proof.
  destruct s; unfold lock, irqDisable; simpl.
  destruct (_ =? _); reflexivity.
Qed.

Lemma unlock_eq (s : state) :
  unlock s
  = set_REG_IE (if timer s =? UART_TIMER_OFF then REG_IE s
                else Z.lor (REG_IE s)
                       (Z.lor (BIT (timer s + 3)) IRQ_CARD_LINE)) s.
Proof.
  destruct s; unfold unlock, irqEnable; simpl.
  destruct (_ =? _); reflexivity.
Qed.

Lemma timer_start_eq (s : state) :
  timer_start s
  = set_TIMER_CR (if timer s =? UART_TIMER_OFF then TIMER_CR s
                  else upd (TIMER_CR s) (timer s)
                         (Z.lor (TIMER_CR s (timer s)) TIMER_ENABLE)) s.
Proof.
  destruct s; unfold timer_start; simpl.
  destruct (_ =? _); reflexivity.
Qed.

Lemma timer_stop_eq (s : state) :
  timer_stop s
  = set_TIMER_CR (if timer s =? UART_TIMER_OFF then TIMER_CR s
                  else upd (TIMER_CR s) (timer s)
                         (Z.land (TIMER_CR s (timer s))
                                 (Z.lnot TIMER_ENABLE))) s.
Proof.
  destruct s; unfold timer_stop; simpl.
  destruct (_ =? _); reflexivity.
Qed.

(** ** uart_write_prio *)

Lemma uart_write_prio_fits buf size dest irq s :
  len (out s) = OUT_CAP -> 0 <= out_head s <= out_size s ->
  out_size s <= OUT_CAP -> 0 <= size <= len buf ->
  size + out_size s - out_head s <= OUT_CAP ->
  uart_write_prio buf size dest irq s
  = Ret (enqueued (firstn (Z.to_nat size) buf ++ unsent s
                   ++ skipn (Z.to_nat (size + (out_size s - out_head s)))
                        (out s))
                  size dest irq s).
Proof.
  intros Hl Hh Hs Hz Hf.
  unfold uart_write_prio, enqueued, unsent. consts.
  rewrite lock_eq. st.
  destruct (Z.ltb_spec (256 + 4) size); [lia|].
  destruct (Z.leb_spec (size + out_size s - out_head s) (256 + 4)); [|lia].
  rewrite memmove_Ret by lia. st.
  rewrite memcpy_Ret.
  - st. cbn [Z.to_nat firstn app]. rewrite Z.add_0_l, skipn_app_exact.
    + reflexivity.
    + rewrite length_firstn. unfold len in Hl. lia.
  - lia.
  - lia.
  - lia.
  - rewrite len_moved; lia.
Qed.

Lemma uart_write_prio_overflow buf size dest irq s :
  len (out s) = OUT_CAP -> 0 <= size <= len buf -> size <= OUT_CAP ->
  OUT_CAP < size + out_size s - out_head s ->
  0 <= out_size s - 252 - size -> out_size s + 8 - 2 * size <= OUT_CAP ->
  uart_write_prio buf size dest irq s
  = Ret (enqueued (firstn (Z.to_nat size) buf
                   ++ firstn (Z.to_nat (OUT_CAP - size))
                        (skipn (Z.to_nat (out_size s - 252 - size)) (out s)))
                  size dest irq s).
Proof.
  intros Hl Hz Hc Hf Hlo Hhi.
  unfold uart_write_prio, enqueued. consts.
  rewrite lock_eq. st.
  destruct (Z.ltb_spec (256 + 4) size); [lia|].
  destruct (Z.leb_spec (size + out_size s - out_head s) (256 + 4)); [lia|].
  rewrite memmove_Ret by lia. st.
  rewrite memcpy_Ret.
  - st. cbn [Z.to_nat firstn app]. rewrite Z.add_0_l, skipn_app_exact.
    + replace (size + (256 + 4 - size)) with (len (out s)) by lia.
      unfold len. rewrite Nat2Z.id, skipn_all, app_nil_r.
      replace (out_size s - 256 + 4 - size) with (out_size s - 252 - size)
        by lia.
      reflexivity.
    + rewrite length_firstn. unfold len in Hl. lia.
  - lia.
  - lia.
  - lia.
  - rewrite len_moved; lia.
Qed.

(** ** Adding a byte to the Inbound Buffer *)

Lemma u16_small (z : Z) : 0 <= z < 65536 -> u16 z = z.
Proof. intros H. unfold u16. apply Z.mod_small. exact H. Qed.

Lemma inbound_stored (a : list Z) (n v : Z) :
  0 <= n < len a ->
  firstn (Z.to_nat (n + 1))
         (firstn (Z.to_nat n) a ++ v :: skipn (S (Z.to_nat n)) a)
  = firstn (Z.to_nat n) a ++ [v].
Proof.
  intros H. unfold len in H.
  replace (Z.to_nat (n + 1)) with (length (firstn (Z.to_nat n) a) + 1)%nat
    by (rewrite length_firstn; lia).
  rewrite firstn_app_2. reflexivity.
Qed.

Lemma do_spi_add_Ret (read : Z) (s : state) :
  len (in_buf s) = IN_CAP -> 0 <= in_size s <= UART_IN_SIZE ->
  exists b n,
    do_spi_add read s = Ret (set_in_size n (set_in_buf b s)) /\
    firstn (Z.to_nat n) b = evicted s ++ [read] /\
    n = (if in_size s =? UART_IN_SIZE
         then UART_IN_SIZE - UART_FIFO_BLOCK_SIZE + 1 else in_size s + 1) /\
    len b = IN_CAP.
Proof.
  intros Hl Hn. unfold do_spi_add, evicted, inbound. consts.
  destruct (Z.eqb_spec (in_size s) 256) as [E|E].
  - rewrite memmove_Ret by lia. st.
    rewrite E.
    change (u16 (256 - 8)) with 248.
    set (b := firstn (Z.to_nat 0) (in_buf s)
              ++ firstn (Z.to_nat (256 - 8)) (skipn (Z.to_nat 8) (in_buf s))
              ++ skipn (Z.to_nat (0 + (256 - 8))) (in_buf s)).
    assert (Hb : len b = 256 + 8).
    { subst b. rewrite len_moved; lia. }
    rewrite store_Ret by lia. st.
    change (u16 (248 + 1)) with 249.
    exists (firstn (Z.to_nat 248) b ++ read :: skipn (S (Z.to_nat 248)) b).
    exists 249.
    split; [reflexivity|]. split; [|split].
    + change (Z.to_nat 249) with (Z.to_nat (248 + 1)).
      rewrite (inbound_stored b 248 read) by lia. f_equal.
      subst b. cbn [Z.to_nat firstn app].
      rewrite firstn_app_exact.
      * rewrite skipn_firstn_comm. reflexivity.
      * rewrite length_firstn, length_skipn. unfold len in Hl. lia.
    + reflexivity.
    + rewrite len_stored; lia.
  - st. rewrite store_Ret by lia. st.
    rewrite u16_small by lia.
    exists (firstn (Z.to_nat (in_size s)) (in_buf s)
            ++ read :: skipn (S (Z.to_nat (in_size s))) (in_buf s)).
    exists (in_size s + 1).
    split; [reflexivity|]. split; [|split].
    + apply inbound_stored. lia.
    + reflexivity.
    + rewrite len_stored; lia.
Qed.

(** ** Watermark notices *)

Lemma prio_frame_refl s : prio_frame s s.
Proof. unfold prio_frame. repeat split. Qed.

Lemma prio_frame_trans s1 s2 s3 :
  prio_frame s1 s2 -> prio_frame s2 s3 -> prio_frame s1 s3.
Proof. unfold prio_frame. intuition congruence. Qed.

Lemma prio_frame_enqueued o size dest irq s :
  prio_frame s (enqueued o size dest irq s).
Proof.
  unfold prio_frame, enqueued. rewrite unlock_eq, lock_eq. st.
  repeat split.
Qed.

Lemma prio_frame_latch b s s' :
  prio_frame s s' -> prio_frame s (set_water_send b s').
Proof. unfold prio_frame. st. tauto. Qed.

Lemma out_enqueued o size dest irq s :
  out (enqueued o size dest irq s) = o /\
  out_head (enqueued o size dest irq s) = 0 /\
  out_size (enqueued o size dest irq s)
  = u16 (size + out_size s - out_head s) /\
  water_send (enqueued o size dest irq s) = water_send s.
Proof.
  unfold enqueued. rewrite unlock_eq, lock_eq. st. repeat split.
Qed.

Lemma prio_enqueued o size dest irq s :
  prio_dest (enqueued o size dest irq s) = dest /\
  prio_head (enqueued o size dest irq s) = 0 /\
  prio_size (enqueued o size dest irq s) = size /\
  prio_irq_bytes (enqueued o size dest irq s) = irq.
Proof.
  unfold enqueued. rewrite unlock_eq, lock_eq. st. repeat split.
Qed.

(** Every call of uart_write_prio that gets past the size test and
    completes, whichever branch makes the room: the new content of the
    array starts with the frame, and the array keeps its length. *)
Lemma uart_write_prio_inv buf size dest irq s s' :
  size <= OUT_CAP -> uart_write_prio buf size dest irq s = Ret s' ->
  exists o,
    s' = enqueued o size dest irq s /\ len o = len (out s) /\
    0 <= size <= len buf /\
    firstn (Z.to_nat size) o = firstn (Z.to_nat size) buf /\
    (size + out_size s - out_head s <= OUT_CAP \/
     out_size s + 8 - 2 * size <= len (out s)).
Proof.
  intros Hc. unfold uart_write_prio, enqueued. consts.
  rewrite lock_eq. st.
  destruct (Z.ltb_spec (256 + 4) size); [lia|].
  destruct (Z.leb_spec (size + out_size s - out_head s) (256 + 4)) as [F|F].
  - destruct (memmove _ _ _ _) as [o1| |] eqn:E1; try discriminate.
    cbn [bind].
    destruct (memcpy _ _ _ _) as [o2| |] eqn:E2; try discriminate.
    cbn [bind]. intros E. apply Ret_eq in E. subst s'.
    destruct (memmove_inv _ _ _ _ _ E1) as (_ & _ & _ & _ & _ & L1).
    destruct (memcpy_inv _ _ _ _ _ E2) as (A & B & _ & D & -> & L2).
    eexists. split; [reflexivity|]. split; [congruence|].
    split; [lia|]. split; [|left; exact F].
    cbn [Z.to_nat firstn app].
    rewrite firstn_app_exact; [reflexivity|].
    rewrite length_firstn. unfold len in B. lia.
  - destruct (memmove _ _ _ _) as [o1| |] eqn:E1; try discriminate.
    cbn [bind].
    destruct (memcpy _ _ _ _) as [o2| |] eqn:E2; try discriminate.
    cbn [bind]. intros E. apply Ret_eq in E. subst s'.
    destruct (memmove_inv _ _ _ _ _ E1) as (_ & _ & M & _ & _ & L1).
    destruct (memcpy_inv _ _ _ _ _ E2) as (A & B & _ & D & -> & L2).
    eexists. split; [reflexivity|]. split; [congruence|].
    split; [lia|]. split; [|right; lia].
    cbn [Z.to_nat firstn app].
    rewrite firstn_app_exact; [reflexivity|].
    rewrite length_firstn. unfold len in B. lia.
Qed.

Lemma send_watermark_fits h s :
  len (out s) = OUT_CAP -> 0 <= out_head s <= out_size s ->
  out_size s <= OUT_CAP -> 3 + out_size s - out_head s <= OUT_CAP ->
  send_watermark h s
  = Ret (enqueued (watermark_msg h ++ unsent s
                   ++ skipn (Z.to_nat (3 + (out_size s - out_head s)))
                        (out s))
                  3 None 0 s).
Proof.
  intros Hl Hh Hs Hf. unfold send_watermark.
  rewrite uart_write_prio_fits; try assumption.
  - reflexivity.
  - unfold len. simpl. lia.
Qed.

Lemma send_watermark_Ret h s :
  len (out s) = OUT_CAP -> 0 <= out_head s <= out_size s ->
  out_size s <= OUT_CAP ->
  out_size s - out_head s <= 257 \/ out_size s = 258 ->
  exists o, len o = OUT_CAP /\
            send_watermark h s = Ret (enqueued o 3 None 0 s).
Proof.
  intros Hl Hh Hs Hu.
  destruct (Z_le_gt_dec (3 + out_size s - out_head s) OUT_CAP) as [F|F].
  - eexists. split; [|apply send_watermark_fits; assumption].
    unfold unsent. consts. rewrite !len_app.
    rewrite len_firstn, len_skipn.
    + unfold watermark_msg, len. simpl length. unfold len in Hl. lia.
    + lia.
    + rewrite len_skipn; lia.
  - consts. unfold send_watermark.
    rewrite uart_write_prio_overflow; consts;
      try (unfold len; simpl length; lia); try lia.
    eexists. split; [|reflexivity].
    change (firstn (Z.to_nat 3) [92; 119; if h then 1 else 0])
      with [92; 119; if h then 1 else 0].
    rewrite len_app, len_firstn.
    + unfold len. simpl length. lia.
    + rewrite len_skipn; lia.
Qed.

(** With at most 255 bytes unsent both notices can be queued. *)
Lemma do_spi_watermarks_Ret s :
  len (out s) = OUT_CAP -> 0 <= out_head s <= out_size s ->
  out_size s <= OUT_CAP -> out_size s - out_head s <= 255 ->
  exists s1, do_spi_watermarks s = Ret s1 /\ prio_frame s s1 /\
             len (out s1) = OUT_CAP.
Proof.
  intros Hl Hh Hs Hu. unfold do_spi_watermarks.
  destruct ((0 <? water_high s) && (water_high s <=? in_size s + 1)
            && negb (water_send s)).
  - destruct (send_watermark_Ret true s) as (o & Ho & E);
      try assumption; try lia.
    rewrite E. st.
    destruct (out_enqueued o 3 None 0 s) as (Eo & Eh & Es & _).
    set (s1 := enqueued o 3 None 0 s) in *.
    assert (F1 : prio_frame s s1) by apply prio_frame_enqueued.
    rewrite u16_small in Es by lia.
    destruct ((0 <? water_low s1) && (in_size s1 + 1 <=? water_low s1)
              && true).
    + destruct (send_watermark_Ret false (set_water_send true s1))
        as (o' & Ho' & E'); st; try lia.
      { rewrite Eo. exact Ho. }
      { unfold OUT_CAP, UART_OUT_SIZE, UART_OUT_EMERG. lia. }
      rewrite E'. st. eexists. split; [reflexivity|]. split.
      * apply prio_frame_latch.
        eapply prio_frame_trans; [|apply prio_frame_enqueued].
        apply prio_frame_latch. exact F1.
      * st. destruct (out_enqueued o' 3 None 0 (set_water_send true s1))
          as (Eo' & _). rewrite Eo'. exact Ho'.
    + eexists. split; [reflexivity|]. split.
      * apply prio_frame_latch. exact F1.
      * st. rewrite Eo. exact Ho.
  - st.
    destruct ((0 <? water_low s) && (in_size s + 1 <=? water_low s)
              && water_send s).
    + destruct (send_watermark_Ret false s) as (o & Ho & E);
        try assumption; try lia.
      rewrite E. st. eexists. split; [reflexivity|]. split.
      * apply prio_frame_latch, prio_frame_enqueued.
      * st. destruct (out_enqueued o 3 None 0 s) as (Eo & _).
        rewrite Eo. exact Ho.
    + eexists. split; [reflexivity|]. split.
      * apply prio_frame_refl.
      * exact Hl.
Qed.

(** ** One exchange *)

Lemma do_spi_exchange_Ret s :
  len (out s) = OUT_CAP -> 0 <= out_head s <= out_size s ->
  out_size s <= OUT_CAP ->
  do_spi_exchange s = Ret (exchanged s).
Proof.
  intros Hl Hh Hs. unfold do_spi_exchange, exchanged.
  destruct (Z.ltb_spec (out_head s) (out_size s)).
  - rewrite load_Ret by lia. reflexivity.
  - reflexivity.
Qed.

Lemma tick_frame_exchanged s : tick_frame s (exchanged s).
Proof.
  unfold tick_frame, exchanged, writeBlocking_cardSPI.
  rewrite timer_start_eq.
  destruct (out_head s <? out_size s); st; repeat split.
Qed.

Lemma out_head_exchanged s :
  0 <= out_head s <= out_size s -> out_size s <= OUT_CAP ->
  out_head (exchanged s)
  = (if out_head s <? out_size s then out_head s + 1 else out_head s).
Proof.
  intros Hh Hs. unfold exchanged, writeBlocking_cardSPI. consts.
  rewrite timer_start_eq.
  destruct (Z.ltb_spec (out_head s) (out_size s)); st.
  - apply u16_small. lia.
  - reflexivity.
Qed.

Lemma prio_head_exchanged s : prio_head (exchanged s) = prio_head s.
Proof.
  unfold exchanged, writeBlocking_cardSPI. rewrite timer_start_eq.
  destruct (out_head s <? out_size s); reflexivity.
Qed.

Lemma wire_exchanged s :
  wire (exchanged s)
  = wire s ++ [if out_head s <? out_size s
               then nth (Z.to_nat (out_head s)) (out s) 0 else 0].
Proof.
  unfold exchanged, writeBlocking_cardSPI. rewrite timer_start_eq.
  destruct (out_head s <? out_size s); reflexivity.
Qed.

(** Outside the reply region the tick hands the byte to the filter, in a
    state that differs from the one before the tick in the transmit
    cursor, the wire, the timer switch and the frame offset only. *)
Lemma do_spi_outside read s :
  len (out s) = OUT_CAP -> 0 <= out_head s <= out_size s ->
  out_size s <= OUT_CAP -> ~ in_reply_region s ->
  exists s1,
    do_spi read s = do_spi_filter read s1 /\ tick_frame s s1 /\
    got_esc s1 = got_esc s /\
    out_head s1 = out_head (exchanged s) /\ wire s1 = wire (exchanged s) /\
    (prio_size s <= prio_head s -> prio_head s1 = prio_head s) /\
    (0 <= prio_head s -> 0 <= prio_head s1).
Proof.
  intros Hl Hh Hs Hr. unfold do_spi, in_reply_region in *.
  rewrite do_spi_exchange_Ret by assumption. st.
  pose proof (tick_frame_exchanged s) as F.
  pose proof (prio_head_exchanged s) as Ep.
  assert (Eg : got_esc (exchanged s) = got_esc s).
  { unfold exchanged, writeBlocking_cardSPI. rewrite timer_start_eq.
    destruct (out_head s <? out_size s); reflexivity. }
  set (s1 := exchanged s) in *.
  assert (Es : prio_size s1 = prio_size s) by (unfold tick_frame in F; tauto).
  destruct (Z.ltb_spec (prio_head s1) (prio_size s1)) as [A|A].
  - destruct (negb (Z.land (prio_irq_bytes s1)
                      (shl1 (prio_size s1 - prio_head s1 - 2)) =? 0)).
    + rewrite timer_stop_eq. st.
      destruct (Z.ltb_spec (prio_head s1) 2); [|lia].
      eexists. split; [reflexivity|]. st.
      unfold tick_frame in *. st. repeat split; try tauto; try lia.
      intros _. apply Z.mod_pos_bound. lia.
    + destruct (Z.ltb_spec (prio_head s1) 2); [|lia].
      eexists. split; [reflexivity|]. st.
      unfold tick_frame in *. st. repeat split; try tauto; try lia.
      intros _. apply Z.mod_pos_bound. lia.
  - eexists. split; [reflexivity|].
    split; [exact F|]. split; [exact Eg|]. split; [reflexivity|].
    split; [reflexivity|]. split; intros; lia.
Qed.

(** ** The filter *)

Lemma do_spi_filter_passes read s :
  passes read s ->
  do_spi_filter read s = do_spi_append read (set_got_esc false s).
Proof.
  unfold passes, do_spi_filter. intros [E|(A & B & C)].
  - rewrite E. reflexivity.
  - destruct (got_esc s) eqn:E; [reflexivity|].
    destruct (Z.eqb_spec read 92); [contradiction|].
    destruct (Z.eqb_spec read 0); [contradiction|].
    destruct (Z.eqb_spec read 255); [contradiction|].
    cbn [negb andb orb]. destruct s. st. subst. reflexivity.
Qed.

Lemma do_spi_passes read s :
  len (out s) = OUT_CAP -> 0 <= out_head s <= out_size s ->
  out_size s <= OUT_CAP -> ~ in_reply_region s -> passes read s ->
  exists s0,
    do_spi read s = do_spi_append read s0 /\ tick_frame s s0 /\
    got_esc s0 = false /\
    out_head s0 = out_head (exchanged s) /\ wire s0 = wire (exchanged s).
Proof.
  intros Hl Hh Hs Hr Hp.
  destruct (do_spi_outside read s Hl Hh Hs Hr)
    as (s1 & E & F & G & H & W & _ & _).
  rewrite E, do_spi_filter_passes by (unfold passes in *; rewrite G; exact Hp).
  eexists. split; [reflexivity|]. unfold tick_frame in *. st. tauto.
Qed.

Lemma evicted_eq s s' :
  in_buf s' = in_buf s -> in_size s' = in_size s -> evicted s' = evicted s.
Proof. unfold evicted, inbound. intros -> ->. reflexivity. Qed.

Lemma do_spi_append_Ret read s :
  len (in_buf s) = IN_CAP -> 0 <= in_size s <= UART_IN_SIZE ->
  len (out s) = OUT_CAP -> 0 <= out_head s <= out_size s ->
  out_size s <= OUT_CAP -> out_size s - out_head s <= 255 ->
  exists s1 b n,
    do_spi_watermarks s = Ret s1 /\
    do_spi_append read s = Ret (set_in_size n (set_in_buf b s1)) /\
    prio_frame s s1 /\
    firstn (Z.to_nat n) b = evicted s ++ [read] /\
    n = (if in_size s =? UART_IN_SIZE
         then UART_IN_SIZE - UART_FIFO_BLOCK_SIZE + 1 else in_size s + 1) /\
    len b = IN_CAP.
Proof.
  intros Hi Hn Hl Hh Hs Hu. unfold do_spi_append.
  destruct (do_spi_watermarks_Ret s Hl Hh Hs Hu) as (s1 & E & F & L).
  rewrite E. st.
  assert (Eb : in_buf s1 = in_buf s) by (unfold prio_frame in F; tauto).
  assert (En : in_size s1 = in_size s) by (unfold prio_frame in F; tauto).
  destruct (do_spi_add_Ret read s1) as (b & n & A & B & C & D).
  - rewrite Eb. exact Hi.
  - rewrite En. exact Hn.
  - exists s1, b, n. rewrite (evicted_eq s s1 Eb En), En in *.
    split; [reflexivity|]. split; [exact A|]. split; [exact F|].
    split; [exact B|]. split; [exact C|exact D].
Qed.

Lemma skipn_S_tl (l : list Z) (n : nat) : skipn (S n) l = tl (skipn n l).
Proof.
  revert l. induction n as [|n IH]; intros [|x l]; try reflexivity.
  change (skipn (S (S n)) (x :: l)) with (skipn (S n) l).
  change (skipn (S n) (x :: l)) with (skipn n l). apply IH.
Qed.

(** The unsent bytes after the exchange: the first one has gone out. *)
Lemma unsent_exchanged s s0 :
  len (out s) = OUT_CAP -> 0 <= out_head s <= out_size s ->
  out_size s <= OUT_CAP ->
  out s0 = out s -> out_size s0 = out_size s ->
  out_head s0 = out_head (exchanged s) ->
  unsent s0 = tl (unsent s).
Proof.
  intros Hl Hh Hs Eo Ez Eh. unfold unsent.
  rewrite Eo, Ez, Eh, out_head_exchanged by assumption.
  destruct (Z.ltb_spec (out_head s) (out_size s)).
  - replace (Z.to_nat (out_size s - out_head s))
      with (S (Z.to_nat (out_size s - (out_head s + 1)))) by lia.
    replace (Z.to_nat (out_head s + 1)) with (S (Z.to_nat (out_head s)))
      by lia.
    rewrite skipn_S_tl.
    destruct (skipn (Z.to_nat (out_head s)) (out s)) as [|x l] eqn:E.
    + rewrite !firstn_nil. reflexivity.
    + reflexivity.
  - replace (Z.to_nat (out_size s - out_head s)) with O by lia.
    reflexivity.
Qed.

(** ** A tick that adds a byte *)

Lemma wf_boot : wf boot.
Proof. unfold wf. vm_compute. intuition congruence. Qed.

(** The whole of a tick whose byte reaches the Inbound Buffer: [s0] is the
    state after the exchange, [s1] the state after the watermark tests. *)
Lemma do_spi_appends read s :
  wf s -> out_size s - out_head s <= UART_OUT_SIZE ->
  ~ in_reply_region s -> passes read s ->
  exists s0 s1 b n,
    tick_frame s s0 /\ got_esc s0 = false /\
    out_head s0 = out_head (exchanged s) /\ wire s0 = wire (exchanged s) /\
    do_spi_watermarks s0 = Ret s1 /\ prio_frame s0 s1 /\
    do_spi read s = Ret (set_in_size n (set_in_buf b s1)) /\
    firstn (Z.to_nat n) b = evicted s ++ [read] /\
    n = (if in_size s =? UART_IN_SIZE
         then UART_IN_SIZE - UART_FIFO_BLOCK_SIZE + 1 else in_size s + 1) /\
    len b = IN_CAP.
Proof.
  intros (Hi & Hl & Hn & Hh & Hs) Hu Hr Hp.
  destruct (do_spi_passes read s Hl Hh Hs Hr Hp) as (s0 & E & F & G & H & W).
  pose proof (out_head_exchanged s Hh Hs) as X. rewrite <- H in X.
  pose proof F as F'. unfold tick_frame in F'.
  destruct F' as (Eb & En & _ & _ & _ & _ & _ & Eo & Ez & _).
  destruct (do_spi_append_Ret read s0) as (s1 & b & n & A & B & C & D & N & L).
  - rewrite Eb. exact Hi.
  - rewrite En. exact Hn.
  - rewrite Eo. exact Hl.
  - rewrite Ez, X. destruct (Z.ltb_spec (out_head s) (out_size s)); lia.
  - rewrite Ez. exact Hs.
  - rewrite Ez, X. unfold UART_OUT_SIZE in Hu.
    destruct (Z.ltb_spec (out_head s) (out_size s)); lia.
  - exists s0, s1, b, n. rewrite E, B.
    rewrite (evicted_eq s s0 Eb En), En in *. 
    split; [exact F|]. split; [exact G|]. split; [exact H|].
    split; [exact W|]. split; [exact A|]. split; [exact C|].
    split; [reflexivity|]. split; [exact D|]. split; [exact N|exact L].
Qed.

Lemma inbound_added n b s1 :
  inbound (set_in_size n (set_in_buf b s1)) = firstn (Z.to_nat n) b.
Proof. reflexivity. Qed.

(** C6.  The decode contract of the framing filter.  For a byte received
    outside the reply region of a priority frame: an unescaped 0x5C is
    consumed and sets the escape state, adding nothing; a byte after the
    marker is added verbatim, whatever its value, and clears the escape
    state; an unescaped 0x00 or 0xFF adds nothing, so uart_available does
    not grow; any other byte is added verbatim. *)
Theorem C6_framing_filter (read : Z) (s : state) :
  wf s -> out_size s - out_head s <= UART_OUT_SIZE ->
  ~ in_reply_region s ->
  exists s',
    do_spi read s = Ret s' /\
    (got_esc s = false -> read = 92 ->
     got_esc s' = true /\ inbound s' = inbound s /\
     uart_available s' = uart_available s) /\
    (got_esc s = true ->
     got_esc s' = false /\ inbound s' = evicted s ++ [read]) /\
    (got_esc s = false -> read = 0 \/ read = 255 ->
     got_esc s' = false /\ inbound s' = inbound s /\
     uart_available s' = uart_available s) /\
    (got_esc s = false -> read <> 92 -> read <> 0 -> read <> 255 ->
     got_esc s' = false /\ inbound s' = evicted s ++ [read]).
Proof.
  intros W Hu Hr.
  destruct (got_esc s) eqn:G.
  - (* escaped byte *)
    destruct (do_spi_appends read s W Hu Hr) as
      (s0 & s1 & b & n & F & G0 & _ & _ & _ & P & E & B & _).
    { left. exact G. }
    exists (set_in_size n (set_in_buf b s1)). split; [exact E|].
    repeat split; try discriminate.
    + st. unfold prio_frame in P. destruct P as (_ & _ & -> & _). exact G0.
    + rewrite inbound_added. exact B.
  - destruct W as (Hi & Hl & Hn & Hh & Hs).
    destruct (do_spi_outside read s Hl Hh Hs Hr)
      as (s1 & E & F & G1 & _ & _ & _ & _).
    pose proof F as F'. unfold tick_frame in F'.
    destruct F' as (Eb & En & _).
    destruct (Z.eq_dec read 92) as [->|N92].
    + (* the marker *)
      exists (set_got_esc true s1). split.
      * rewrite E. unfold do_spi_filter. rewrite G1, G. reflexivity.
      * repeat split; try discriminate; try lia;
          unfold inbound, uart_available; st; congruence.
    + destruct (Z.eq_dec read 0) as [->|N0];
        [|destruct (Z.eq_dec read 255) as [->|N255]].
      * exists s1. split.
        { rewrite E. unfold do_spi_filter. rewrite G1, G. reflexivity. }
        repeat split; try discriminate; try lia;
          unfold inbound, uart_available; st; congruence.
      * exists s1. split.
        { rewrite E. unfold do_spi_filter. rewrite G1, G. reflexivity. }
        repeat split; try discriminate; try lia;
          unfold inbound, uart_available; st; congruence.
      * destruct (do_spi_appends read s) as
          (s0 & s2 & b & n & _ & G0 & _ & _ & _ & P & E' & B & _).
        { unfold wf. tauto. }
        { exact Hu. }
        { exact Hr. }
        { right. tauto. }
        exists (set_in_size n (set_in_buf b s2)). split; [exact E'|].
        unfold prio_frame in P. destruct P as (_ & _ & Eg & _).
        repeat split; try discriminate; try lia; try tauto.
        st. rewrite Eg. exact G0.
Qed.

(** C6 at a concrete input: the byte 65 received in the power-on state. *)
Lemma C6_framing_filter_witness :
  exists s',
    do_spi 65 boot = Ret s' /\
    (got_esc boot = false -> 65 = 92 ->
     got_esc s' = true /\ inbound s' = inbound boot /\
     uart_available s' = uart_available boot) /\
    (got_esc boot = true ->
     got_esc s' = false /\ inbound s' = evicted boot ++ [65]) /\
    (got_esc boot = false -> 65 = 0 \/ 65 = 255 ->
     got_esc s' = false /\ inbound s' = inbound boot /\
     uart_available s' = uart_available boot) /\
    (got_esc boot = false -> 65 <> 92 -> 65 <> 0 -> 65 <> 255 ->
     got_esc s' = false /\ inbound s' = evicted boot ++ [65]).
Proof.
  apply (C6_framing_filter 65 boot).
  - exact wf_boot.
  - vm_compute. discriminate.
  - unfold in_reply_region. vm_compute. intros [_ H]. discriminate.
Defined.

Lemma wf_full_in : wf full_in.
Proof. unfold wf. vm_compute. intuition congruence. Qed.

(** C7.  The append never rejects a byte: whenever a byte gets through
    the filter it ends up as the newest byte of the Inbound Buffer.  With
    exactly UART_IN_SIZE bytes held, the UART_FIFO_BLOCK_SIZE oldest are
    dropped, the others keep their order, the new byte follows them and
    uart_available is UART_IN_SIZE - UART_FIFO_BLOCK_SIZE + 1. *)
Theorem C7_overflow_eviction (read : Z) (s : state) :
  wf s -> out_size s - out_head s <= UART_OUT_SIZE ->
  ~ in_reply_region s -> passes read s ->
  exists s',
    do_spi read s = Ret s' /\
    (in_size s = UART_IN_SIZE ->
     inbound s'
     = skipn (Z.to_nat UART_FIFO_BLOCK_SIZE) (inbound s) ++ [read] /\
     uart_available s' = UART_IN_SIZE - UART_FIFO_BLOCK_SIZE + 1) /\
    (in_size s < UART_IN_SIZE ->
     inbound s' = inbound s ++ [read] /\
     uart_available s' = in_size s + 1).
Proof.
  intros W Hu Hr Hp.
  destruct (do_spi_appends read s W Hu Hr Hp) as
    (s0 & s1 & b & n & _ & _ & _ & _ & _ & _ & E & B & N & _).
  exists (set_in_size n (set_in_buf b s1)). split; [exact E|].
  rewrite inbound_added, B. unfold uart_available, evicted. st.
  split; intros H.
  - rewrite H in *. rewrite Z.eqb_refl in *. split; [reflexivity|exact N].
  - destruct (Z.eqb_spec (in_size s) UART_IN_SIZE); [lia|].
    split; [reflexivity|exact N].
Qed.

(** C7 at a concrete input: the byte 65 received with the Inbound Buffer
    full. *)
Lemma C7_overflow_eviction_witness :
  exists s',
    do_spi 65 full_in = Ret s' /\
    (in_size full_in = UART_IN_SIZE ->
     inbound s'
     = skipn (Z.to_nat UART_FIFO_BLOCK_SIZE) (inbound full_in) ++ [65] /\
     uart_available s' = UART_IN_SIZE - UART_FIFO_BLOCK_SIZE + 1) /\
    (in_size full_in < UART_IN_SIZE ->
     inbound s' = inbound full_in ++ [65] /\
     uart_available s' = in_size full_in + 1).
Proof.
  apply (C7_overflow_eviction 65 full_in).
  - exact wf_full_in.
  - vm_compute. discriminate.
  - unfold in_reply_region. vm_compute. intros [_ H]. discriminate.
  - right. repeat split; discriminate.
Defined.

(** The run on the full buffer, computed: 1..8 are gone, 9..256 are
    followed by the new byte. *)
Example full_in_evicts :
  exists s', do_spi 65 full_in = Ret s' /\
             inbound s' = map Z.of_nat (seq 9 248) ++ [65] /\
             uart_available s' = 249.
Proof. eexists. split; [vm_compute; reflexivity|]. split; reflexivity. Qed.

(** ** Reply capture *)

Lemma nth_stored (a : list Z) (k j : nat) (v d : Z) :
  (k < length a)%nat ->
  nth j (firstn k a ++ v :: skipn (S k) a) d
  = if Nat.eqb j k then v else nth j a d.
Proof.
  revert k j. induction a as [|x a IH]; intros k j H.
  - simpl in H. lia.
  - destruct k as [|k].
    + destruct j; reflexivity.
    + destruct j as [|j]; [reflexivity|].
      simpl in H. apply (IH k j). lia.
Qed.

(** A tick outside the reply region ends in one of three ways: the marker
    is swallowed, the byte is dropped, or the byte is added after the
    watermark tests. *)
Lemma do_spi_outside_cases read s :
  wf s -> out_size s - out_head s <= UART_OUT_SIZE ->
  ~ in_reply_region s ->
  exists s1,
    tick_frame s s1 /\
    (do_spi read s = Ret (set_got_esc true s1) \/
     do_spi read s = Ret s1 \/
     exists s0 s2 b n,
       tick_frame s s0 /\ prio_frame s0 s2 /\
       do_spi read s = Ret (set_in_size n (set_in_buf b s2))).
Proof.
  intros W Hu Hr.
  pose proof W as (Hi & Hl & Hn & Hh & Hs).
  destruct (do_spi_outside read s Hl Hh Hs Hr)
    as (s1 & E & F & G1 & _ & _ & _ & _).
  exists s1. split; [exact F|].
  unfold do_spi_filter in E.
  destruct (negb (got_esc s1) && (read =? 92)) eqn:C1; [left; exact E|].
  right.
  assert (P : passes read s \/ do_spi read s = Ret s1).
  { unfold passes. rewrite <- G1. destruct (got_esc s1); [left; left; reflexivity|].
    cbn [negb andb] in C1.
    destruct (Z.eqb_spec read 92); [discriminate|].
    destruct (Z.eqb_spec read 0); [right; exact E|].
    destruct (Z.eqb_spec read 255); [right; exact E|].
    left. right. tauto. }
  destruct P as [P|P]; [|left; exact P].
  right.
  destruct (do_spi_appends read s W Hu Hr P) as
    (s0 & s2 & b & n & F0 & _ & _ & _ & _ & P0 & E0 & _).
  exists s0, s2, b, n. tauto.
Qed.

Lemma do_spi_outside_heap read s :
  wf s -> out_size s - out_head s <= UART_OUT_SIZE ->
  ~ in_reply_region s ->
  exists s', do_spi read s = Ret s' /\ heap s' = heap s.
Proof.
  intros W Hu Hr.
  destruct (do_spi_outside_cases read s W Hu Hr)
    as (s1 & F & [E|[E|(s0 & s2 & b & n & F0 & P & E)]]);
    rewrite E; eexists; (split; [reflexivity|]); st;
    unfold tick_frame, prio_frame in *; intuition congruence.
Qed.

(** The tick inside the reply region of a frame with a destination. *)
Lemma do_spi_capture read s p :
  len (out s) = OUT_CAP -> 0 <= out_head s <= out_size s ->
  out_size s <= OUT_CAP -> prio_size s < 65536 ->
  prio_dest s = Some p -> in_reply_region s ->
  prio_head s < len (heap s p) ->
  exists s1,
    tick_frame s s1 /\ got_esc s1 = got_esc s /\
    do_spi read s
    = Ret (set_prio_head (prio_head s + 1)
             (set_heap
                (updn (heap s) p
                   (firstn (Z.to_nat (prio_head s)) (heap s p)
                    ++ read :: skipn (S (Z.to_nat (prio_head s)))
                                 (heap s p))) s1)).
Proof.
  intros Hl Hh Hs Hz Hd (R1 & R2) Hb. unfold do_spi.
  rewrite do_spi_exchange_Ret by assumption. st.
  pose proof (tick_frame_exchanged s) as F.
  pose proof (prio_head_exchanged s) as Ep.
  assert (Eg : got_esc (exchanged s) = got_esc s).
  { unfold exchanged, writeBlocking_cardSPI. rewrite timer_start_eq.
    destruct (out_head s <? out_size s); reflexivity. }
  set (s1 := exchanged s) in *.
  pose proof F as F'. unfold tick_frame in F'.
  destruct F' as (_ & _ & Ehp & _ & _ & _ & _ & _ & _ & Ed & Ez & _).
  rewrite Ep, Ez.
  destruct (Z.ltb_spec (prio_head s) (prio_size s)); [|lia].
  set (s2 := if negb (Z.land (prio_irq_bytes s1)
                        (shl1 (prio_size s - prio_head s - 2)) =? 0)
             then timer_stop s1 else s1).
  assert (X : tick_frame s s2 /\ got_esc s2 = got_esc s /\
              prio_head s2 = prio_head s).
  { subst s2. destruct (negb _).
    - rewrite timer_stop_eq. unfold tick_frame in *. st. tauto.
    - tauto. }
  destruct X as (F2 & G2 & P2).
  pose proof F2 as F'. unfold tick_frame in F'.
  destruct F' as (_ & _ & Eh2 & _ & _ & _ & _ & _ & _ & Ed2 & _).
  rewrite P2, Ed2, Hd, Eh2.
  destruct (Z.ltb_spec (prio_head s) 2); [lia|].
  rewrite store_Ret by lia. st. rewrite P2, u16_small by lia.
  exists s2. tauto.
Qed.

Lemma wf_capturing : wf capturing.
Proof. unfold wf. vm_compute. intuition congruence. Qed.

(** C3.  While a priority frame with a reply destination is active, a
    byte received at frame offset k >= 2 is stored at position k of the
    destination, every other position of the destination (so positions 0
    and 1) and every other block keep their content, and the byte neither
    reaches the Inbound Buffer nor goes through the filter (the escape
    state is as before).  A byte received at offset 0 or 1 is not written
    to any destination. *)
Theorem C3_reply_capture (read : Z) (s : state) (p : nat) :
  wf s -> out_size s - out_head s <= UART_OUT_SIZE ->
  prio_size s < 65536 -> prio_dest s = Some p ->
  0 <= prio_head s < prio_size s -> prio_size s <= len (heap s p) ->
  exists s',
    do_spi read s = Ret s' /\
    (2 <= prio_head s ->
     load (heap s' p) (prio_head s) = Ret read /\
     (forall j, j <> Z.to_nat (prio_head s) ->
                nth j (heap s' p) 0 = nth j (heap s p) 0) /\
     (forall q, q <> p -> heap s' q = heap s q) /\
     in_buf s' = in_buf s /\ inbound s' = inbound s /\
     uart_available s' = uart_available s /\
     got_esc s' = got_esc s) /\
    (prio_head s < 2 -> heap s' = heap s).
Proof.
  intros W Hu Hz Hd Hp Hb.
  destruct (Z_lt_ge_dec (prio_head s) 2) as [A|A].
  - destruct (do_spi_outside_heap read s W Hu) as (s' & E & H).
    + unfold in_reply_region. lia.
    + exists s'. split; [exact E|]. split; [lia|]. intros _. exact H.
  - pose proof W as (Hi & Hl & Hn & Hh & Hs).
    destruct (do_spi_capture read s p Hl Hh Hs Hz Hd) as (s1 & F & G & E).
    + unfold in_reply_region. lia.
    + lia.
    + eexists. split; [exact E|]. split; [|lia]. intros _.
      unfold tick_frame in F.
      destruct F as (Eb & En & _).
      unfold inbound, uart_available. st. unfold updn.
      rewrite Nat.eqb_refl.
      assert (K : (Z.to_nat (prio_head s) < length (heap s p))%nat)
        by (unfold len in Hb; lia).
      split; [|split; [|split; [|split; [|split; [|split]]]]].
      * rewrite load_Ret by (rewrite len_stored; lia).
        rewrite nth_stored, Nat.eqb_refl by exact K. reflexivity.
      * intros j Hj. rewrite nth_stored by exact K.
        destruct (Nat.eqb_spec j (Z.to_nat (prio_head s))); [lia|].
        reflexivity.
      * intros q Hq. destruct (Nat.eqb_spec q p); [contradiction|].
        reflexivity.
      * exact Eb.
      * rewrite Eb, En. reflexivity.
      * exact En.
      * exact G.
Qed.

(** C3 at a concrete input: the reply 7 to the last byte of a version
    frame. *)
Lemma C3_reply_capture_witness :
  exists s',
    do_spi 7 capturing = Ret s' /\
    (2 <= prio_head capturing ->
     load (heap s' 0%nat) (prio_head capturing) = Ret 7 /\
     (forall j, j <> Z.to_nat (prio_head capturing) ->
                nth j (heap s' 0%nat) 0 = nth j (heap capturing 0%nat) 0) /\
     (forall q, q <> 0%nat -> heap s' q = heap capturing q) /\
     in_buf s' = in_buf capturing /\ inbound s' = inbound capturing /\
     uart_available s' = uart_available capturing /\
     got_esc s' = got_esc capturing) /\
    (prio_head capturing < 2 -> heap s' = heap capturing).
Proof.
  apply (C3_reply_capture 7 capturing 0%nat).
  - exact wf_capturing.
  - vm_compute. discriminate.
  - reflexivity.
  - reflexivity.
  - vm_compute. split; [discriminate|reflexivity].
  - vm_compute. discriminate.
Defined.

(** ** When the watermark tests fire *)

Lemma high_test s :
  (0 <? water_high s) && (water_high s <=? in_size s + 1)
  && negb (water_send s) = true <-> notice_high s.
Proof.
  unfold notice_high.
  destruct (Z.ltb_spec 0 (water_high s));
    destruct (Z.leb_spec (water_high s) (in_size s + 1));
    destruct (water_send s); cbn [andb negb];
    intuition (try discriminate; try lia).
Qed.

Lemma low_test s (latch : bool) :
  (0 <? water_low s) && (in_size s + 1 <=? water_low s) && latch = true
  <-> level_low s /\ latch = true.
Proof.
  unfold level_low.
  destruct (Z.ltb_spec 0 (water_low s));
    destruct (Z.leb_spec (in_size s + 1) (water_low s));
    destruct latch; cbn [andb];
    intuition (try discriminate; try lia).
Qed.

Lemma bool_false (b : bool) (P : Prop) : (b = true <-> P) -> ~ P -> b = false.
Proof. destruct b; intuition. Qed.

Lemma Ret_inj {A} (a b : A) : Ret a = Ret b -> a = b.
Proof. intros E. injection E as E. exact E. Qed.

Lemma send_watermark_inv h s s' :
  send_watermark h s = Ret s' -> exists o, s' = enqueued o 3 None 0 s.
Proof.
  unfold send_watermark, uart_write_prio, enqueued.
  change (UART_OUT_SIZE + UART_OUT_EMERG <? 3) with false. cbv iota.
  destruct (if _ <=? _ then _ else _) as [o1| |]; try discriminate.
  cbn [bind].
  destruct (memcpy _ _ _ _) as [o2| |]; try discriminate.
  cbn [bind]. intros E. apply Ret_inj in E. subst s'. exists o2.
  rewrite !lock_eq. reflexivity.
Qed.

Lemma do_spi_watermarks_none s :
  ~ notice_high s -> ~ (level_low s /\ water_send s = true) ->
  do_spi_watermarks s = Ret s.
Proof.
  intros H L. unfold do_spi_watermarks.
  rewrite (bool_false _ _ (high_test s) H). cbn [bind].
  rewrite (bool_false _ _ (low_test s (water_send s)) L). reflexivity.
Qed.

Lemma do_spi_watermarks_high s :
  len (out s) = OUT_CAP -> 0 <= out_head s <= out_size s ->
  out_size s <= OUT_CAP -> 3 + out_size s - out_head s <= OUT_CAP ->
  notice_high s -> ~ level_low s ->
  do_spi_watermarks s
  = Ret (set_water_send true
           (enqueued (watermark_msg true ++ unsent s
                      ++ skipn (Z.to_nat (3 + (out_size s - out_head s)))
                           (out s))
                     3 None 0 s)).
Proof.
  intros Hl Hh Hs Hf H L. unfold do_spi_watermarks.
  rewrite (proj2 (high_test s) H).
  rewrite send_watermark_fits by assumption. cbn [bind].
  set (s1 := set_water_send true _).
  assert (L1 : ~ (level_low s1 /\ water_send s1 = true)).
  { intros [X _]. apply L. revert X. unfold level_low. subst s1.
    destruct (prio_frame_enqueued
                (watermark_msg true ++ unsent s
                 ++ skipn (Z.to_nat (3 + (out_size s - out_head s))) (out s))
                3 None 0 s) as (_ & En & _ & _ & _ & Ew & _).
    st. rewrite En, Ew. tauto. }
  rewrite (bool_false _ _ (low_test s1 (water_send s1)) L1). reflexivity.
Qed.

Lemma do_spi_watermarks_low s :
  len (out s) = OUT_CAP -> 0 <= out_head s <= out_size s ->
  out_size s <= OUT_CAP -> 3 + out_size s - out_head s <= OUT_CAP ->
  level_low s -> water_send s = true ->
  do_spi_watermarks s
  = Ret (set_water_send false
           (enqueued (watermark_msg false ++ unsent s
                      ++ skipn (Z.to_nat (3 + (out_size s - out_head s)))
                           (out s))
                     3 None 0 s)).
Proof.
  intros Hl Hh Hs Hf L W. unfold do_spi_watermarks.
  assert (H : ~ notice_high s).
  { unfold notice_high. rewrite W. intuition discriminate. }
  rewrite (bool_false _ _ (high_test s) H). cbn [bind].
  rewrite (proj2 (low_test s (water_send s)) (conj L W)).
  rewrite send_watermark_fits by assumption. reflexivity.
Qed.


Lemma len_unsent s :
  len (out s) = OUT_CAP -> 0 <= out_head s <= out_size s ->
  out_size s <= OUT_CAP -> len (unsent s) = out_size s - out_head s.
Proof.
  intros Hl Hh Hs. unfold unsent. rewrite len_firstn; [reflexivity|].
  rewrite len_skipn; lia.
Qed.

Lemma unsent_enqueued frame rest size dest irq s :
  len (out s) = OUT_CAP -> 0 <= out_head s <= out_size s ->
  out_size s <= OUT_CAP -> len frame = size ->
  size + out_size s - out_head s < 65536 ->
  unsent (enqueued (frame ++ unsent s ++ rest) size dest irq s)
  = frame ++ unsent s.
Proof.
  intros Hl Hh Hs Hf Hz.
  pose proof (len_unsent s Hl Hh Hs) as Lu.
  destruct (out_enqueued (frame ++ unsent s ++ rest) size dest irq s)
    as (Eo & Eh & Ez & _).
  unfold unsent at 1. rewrite Eo, Eh, Ez.
  pose proof (len_nonneg frame).
  rewrite u16_small by lia.
  change (Z.to_nat 0) with O. cbn [skipn].
  rewrite app_assoc. apply firstn_app_exact.
  rewrite length_app. unfold len in *. lia.
Qed.

(** ** Watermark signalling *)

Lemma uart_read_Ret size s :
  wf s -> 0 <= size ->
  exists b n,
    uart_read size s
    = Ret (unlock (set_in_size (u16 (in_size s - n)) (set_in_buf b (lock s))),
           n, firstn (Z.to_nat n) (in_buf s)) /\
    n = (if in_size s <? size then in_size s else size) /\
    len b = IN_CAP.
Proof.
  intros (Hi & Hl & Hn & Hh & Hs) Hz. unfold uart_read. consts.
  rewrite lock_eq. st.
  set (n := if in_size s <? size then in_size s else size).
  assert (0 <= n <= in_size s).
  { subst n. destruct (Z.ltb_spec (in_size s) size); lia. }
  destruct (Z.ltb_spec (len (in_buf s)) n); [lia|].
  rewrite memmove_Ret by lia. st.
  eexists. exists n. split; [reflexivity|]. split; [reflexivity|].
  rewrite len_moved; lia.
Qed.

(** C5, as stated, fails: reading all 10 bytes of [latched] brings the
    occupancy to 0, below the low-water mark 51, with the notice latched,
    and yet uart_read queues nothing and leaves the latch set. *)
Lemma C5_read_sends_no_notice :
  exists s' data,
    uart_read 10 latched = Ret (s', 10, data) /\
    water_low s' = 51 /\ uart_available s' = 0 /\
    water_send latched = true /\ water_send s' = true /\
    unsent s' = [] /\ prio_size s' = 0.
Proof.
  eexists. eexists. split; [vm_compute; reflexivity|].
  repeat split.
Qed.

(** C5, amended.  Both watermark tests are made by do_spi when it adds a
    byte, against the occupancy the byte brings (in_size + 1).  With the
    latch clear and the high mark reached, one high-water frame is put in
    front of the unsent bytes through the priority channel and the latch
    is set; with the latch set and the occupancy at or below the low
    mark, one low-water frame is queued and the latch is cleared;
    otherwise nothing is queued and the latch keeps its value, in
    particular when both marks are zero.  uart_read evaluates no
    watermark: it leaves the latch, the unsent bytes and the priority
    bookkeeping as they are. *)
Theorem C5_watermark_signaling (read size : Z) (s : state) :
  wf s -> out_size s - out_head s <= UART_OUT_SIZE ->
  ~ in_reply_region s -> passes read s -> 0 <= size ->
  (exists s',
     do_spi read s = Ret s' /\
     (notice_high s -> ~ level_low s ->
      water_send s' = true /\
      unsent s' = watermark_msg true ++ tl (unsent s) /\
      prio_size s' = 3 /\ prio_head s' = 0 /\ prio_dest s' = None) /\
     (water_send s = true -> level_low s ->
      water_send s' = false /\
      unsent s' = watermark_msg false ++ tl (unsent s) /\
      prio_size s' = 3 /\ prio_head s' = 0 /\ prio_dest s' = None) /\
     (~ notice_high s -> ~ (level_low s /\ water_send s = true) ->
      water_send s' = water_send s /\ unsent s' = tl (unsent s)) /\
     (water_high s = 0 -> water_low s = 0 ->
      water_send s' = water_send s /\ unsent s' = tl (unsent s))) /\
  (exists s' n data,
     uart_read size s = Ret (s', n, data) /\
     water_send s' = water_send s /\ unsent s' = unsent s /\
     prio_size s' = prio_size s /\ prio_head s' = prio_head s /\
     prio_dest s' = prio_dest s).
Proof.
  intros W Hu Hr Hp Hz. split.
  - pose proof W as (Hi & Hl & Hn & Hh & Hs).
    destruct (do_spi_appends read s W Hu Hr Hp) as
      (s0 & s1 & b & n & F & _ & H0 & _ & E1 & _ & E & _).
    exists (set_in_size n (set_in_buf b s1)). split; [exact E|].
    unfold tick_frame in F.
    destruct F as (Eb & En & _ & Ewh & Ewl & Ews & _ & Eo & Ez & _).
    pose proof (unsent_exchanged s s0 Hl Hh Hs Eo Ez H0) as U.
    pose proof (out_head_exchanged s Hh Hs) as X. rewrite <- H0 in X.
    assert (B0 : 0 <= out_head s0 <= out_size s0 /\
                 3 + out_size s0 - out_head s0 <= OUT_CAP).
    { rewrite Ez, X. consts.
      destruct (Z.ltb_spec (out_head s) (out_size s)); lia. }
    destruct B0 as (Hh0 & Hf0).
    assert (Hl0 : len (out s0) = OUT_CAP) by (rewrite Eo; exact Hl).
    assert (Hs0 : out_size s0 <= OUT_CAP) by (rewrite Ez; exact Hs).
    assert (NH : notice_high s0 <-> notice_high s).
    { unfold notice_high. rewrite Ewh, En, Ews. tauto. }
    assert (LL : level_low s0 <-> level_low s).
    { unfold level_low. rewrite Ewl, En. tauto. }
    assert (K : forall h,
               unsent (enqueued
                         (watermark_msg h ++ unsent s0
                          ++ skipn (Z.to_nat (3 + (out_size s0 - out_head s0)))
                               (out s0)) 3 None 0 s0)
               = watermark_msg h ++ tl (unsent s)).
    { intros h. rewrite unsent_enqueued; try assumption.
      - rewrite U. reflexivity.
      - reflexivity.
      - consts. lia. }
    assert (NONE : ~ notice_high s ->
                   ~ (level_low s /\ water_send s = true) ->
                   water_send (set_in_size n (set_in_buf b s1))
                   = water_send s /\
                   unsent (set_in_size n (set_in_buf b s1))
                   = tl (unsent s)).
    { intros A B.
      rewrite do_spi_watermarks_none in E1
        by (rewrite ?NH, ?LL, ?Ews; assumption).
      apply Ret_inj in E1. subst s1.
      split; [exact Ews|exact U]. }
    split; [|split; [|split]].
    + intros A B.
      rewrite do_spi_watermarks_high in E1
        by (rewrite ?NH, ?LL; assumption).
      apply Ret_inj in E1. subst s1.
      split; [reflexivity|]. split; [apply K|].
      st. destruct (prio_enqueued
                      (watermark_msg true ++ unsent s0
                       ++ skipn (Z.to_nat (3 + (out_size s0 - out_head s0)))
                            (out s0)) 3 None 0 s0) as (P1 & P2 & P3 & _).
      auto.
    + intros A B.
      rewrite do_spi_watermarks_low in E1
        by (rewrite ?NH, ?LL, ?Ews; assumption).
      apply Ret_inj in E1. subst s1.
      split; [reflexivity|]. split; [apply K|].
      st. destruct (prio_enqueued
                      (watermark_msg false ++ unsent s0
                       ++ skipn (Z.to_nat (3 + (out_size s0 - out_head s0)))
                            (out s0)) 3 None 0 s0) as (P1 & P2 & P3 & _).
      auto.
    + exact NONE.
    + intros A B. apply NONE.
      * unfold notice_high. lia.
      * unfold level_low. lia.
  - destruct (uart_read_Ret size s W Hz) as (b & n & E & _).
    eexists. exists n. eexists. split; [exact E|].
    rewrite unlock_eq, lock_eq. repeat split.
Qed.

(** C5 at a concrete input: the byte that brings the occupancy to the
    high-water mark 204. *)
Lemma C5_watermark_signaling_witness :
  exists s',
    do_spi 65 rising = Ret s' /\ water_send s' = true /\
    unsent s' = [92; 119; 1].
Proof.
  destruct (C5_watermark_signaling 65 10 rising) as ((s' & E & H & _) & _).
  - unfold wf. vm_compute. intuition congruence.
  - vm_compute. discriminate.
  - unfold in_reply_region. vm_compute. intros [H _]. apply H. reflexivity.
  - right. repeat split; discriminate.
  - lia.
  - exists s'. split; [exact E|]. destruct H as (A & B & _).
    + vm_compute. repeat split; discriminate.
    + unfold level_low. vm_compute. intros [_ L]. apply L. reflexivity.
    + split; [exact A|exact B].
Defined.

(** ** Ticks with no reply destination *)








(** ** What a tick transmits *)

Lemma load_inv (a : list Z) (i v : Z) :
  load a i = Ret v -> v = nth (Z.to_nat i) a 0.
Proof.
  unfold load. destruct ((0 <=? i) && (i <? len a)); try discriminate.
  intros E. apply Ret_inj in E. symmetry. exact E.
Qed.

Lemma do_spi_exchange_eq s s1 :
  do_spi_exchange s = Ret s1 -> s1 = exchanged s.
Proof.
  unfold do_spi_exchange, exchanged.
  destruct (out_head s <? out_size s).
  - destruct (load (out s) (out_head s)) as [v| |] eqn:L; try discriminate.
    cbn [bind]. apply load_inv in L. subst v. intros E.
    apply Ret_inj in E. symmetry. exact E.
  - cbn [bind]. intros E. apply Ret_inj in E. symmetry. exact E.
Qed.

Lemma rest_frame_refl s : rest_frame s s.
Proof. unfold rest_frame. tauto. Qed.

Lemma rest_frame_trans s1 s2 s3 :
  rest_frame s1 s2 -> rest_frame s2 s3 -> rest_frame s1 s3.
Proof. unfold rest_frame. intuition congruence. Qed.

Lemma rest_frame_prio s s' : prio_frame s s' -> rest_frame s s'.
Proof. unfold prio_frame, rest_frame. tauto. Qed.

Lemma do_spi_watermarks_frame s s1 :
  do_spi_watermarks s = Ret s1 -> prio_frame s s1.
Proof.
  unfold do_spi_watermarks.
  destruct ((0 <? water_high s) && (water_high s <=? in_size s + 1)
            && negb (water_send s)).
  - destruct (send_watermark true s) as [s2| |] eqn:E1; try discriminate.
    cbn [bind].
    destruct (send_watermark_inv _ _ _ E1) as (o & ->).
    set (s3 := set_water_send true _).
    assert (H3 : prio_frame s s3).
    { subst s3. apply prio_frame_latch, prio_frame_enqueued. }
    destruct ((0 <? water_low s3) && (in_size s3 + 1 <=? water_low s3)
              && water_send s3).
    + destruct (send_watermark false s3) as [s4| |] eqn:E2; try discriminate.
      cbn [bind]. destruct (send_watermark_inv _ _ _ E2) as (o' & ->).
      intros E. apply Ret_inj in E. subst s1.
      eapply prio_frame_trans; [exact H3|].
      apply prio_frame_latch, prio_frame_enqueued.
    + intros E. apply Ret_inj in E. subst s1. exact H3.
  - cbn [bind].
    destruct ((0 <? water_low s) && (in_size s + 1 <=? water_low s)
              && water_send s).
    + destruct (send_watermark false s) as [s4| |] eqn:E2; try discriminate.
      cbn [bind]. destruct (send_watermark_inv _ _ _ E2) as (o' & ->).
      intros E. apply Ret_inj in E. subst s1.
      apply prio_frame_latch, prio_frame_enqueued.
    + intros E. apply Ret_inj in E. subst s1. apply prio_frame_refl.
Qed.

Lemma do_spi_watermarks_rest s s1 :
  do_spi_watermarks s = Ret s1 -> rest_frame s s1.
Proof. intros E. apply rest_frame_prio, do_spi_watermarks_frame, E. Qed.

(** With both marks at zero the watermark tests do nothing. *)
Lemma do_spi_watermarks_off s :
  water_high s = 0 -> water_low s = 0 -> do_spi_watermarks s = Ret s.
Proof.
  intros H L. apply do_spi_watermarks_none.
  - unfold notice_high. lia.
  - unfold level_low. lia.
Qed.

Lemma do_spi_add_eq read s s' :
  do_spi_add read s = Ret s' ->
  exists b n, s' = set_in_size n (set_in_buf b s).
Proof.
  unfold do_spi_add.
  destruct (in_size s =? UART_IN_SIZE).
  - destruct (memmove _ _ _ _) as [b| |]; try discriminate. cbn [bind].
    st. destruct (store _ _ _) as [b'| |]; try discriminate. cbn [bind].
    intros E. apply Ret_inj in E. subst s'. eexists. eexists. reflexivity.
  - cbn [bind].
    destruct (store _ _ _) as [b'| |]; try discriminate. cbn [bind].
    intros E. apply Ret_inj in E. subst s'. eexists. eexists. reflexivity.
Qed.

Lemma do_spi_filter_rest read s s' :
  do_spi_filter read s = Ret s' ->
  rest_frame s s' /\
  (water_high s = 0 -> water_low s = 0 -> out_frame s s').
Proof.
  unfold do_spi_filter, do_spi_append.
  assert (A : forall s0, rest_frame s s0 -> out_frame s s0 ->
              (s1 <- do_spi_watermarks s0 ;; do_spi_add read s1) = Ret s' ->
              rest_frame s s' /\
              (water_high s = 0 -> water_low s = 0 -> out_frame s s')).
  { intros s0 R0 O0.
    destruct (do_spi_watermarks s0) as [s1| |] eqn:E1; try discriminate.
    cbn [bind]. intros E2.
    pose proof (do_spi_watermarks_rest _ _ E1) as R1.
    destruct (do_spi_add_eq _ _ _ E2) as (b & n & ->).
    split.
    - eapply rest_frame_trans; [exact R0|].
      unfold rest_frame in *. st. exact R1.
    - intros H L. unfold rest_frame in R0.
      rewrite do_spi_watermarks_off in E1 by (intuition congruence).
      apply Ret_inj in E1. subst s1. exact O0. }
  destruct (negb (got_esc s) && (read =? 92)).
  - intros E. apply Ret_inj in E. subst s'.
    unfold rest_frame, out_frame. st. tauto.
  - destruct (got_esc s).
    + apply A; unfold rest_frame, out_frame; st; tauto.
    + destruct ((read =? 0) || (read =? 255)).
      * intros E. apply Ret_inj in E. subst s'.
        split; [apply rest_frame_refl|]. unfold out_frame. tauto.
      * apply A; [apply rest_frame_refl|unfold out_frame; tauto].
Qed.

Lemma do_spi_rest read s s' :
  do_spi read s = Ret s' ->
  rest_frame (exchanged s) s' /\
  (water_high s = 0 -> water_low s = 0 -> out_frame (exchanged s) s').
Proof.
  unfold do_spi.
  destruct (do_spi_exchange s) as [s1| |] eqn:E1; try discriminate.
  cbn [bind]. apply do_spi_exchange_eq in E1. subst s1.
  assert (Ew : water_high (exchanged s) = water_high s /\
               water_low (exchanged s) = water_low s).
  { pose proof (tick_frame_exchanged s) as F. unfold tick_frame in F. tauto. }
  set (s1 := exchanged s) in *.
  set (s2 := if negb (Z.land (prio_irq_bytes s1)
                        (shl1 (prio_size s1 - prio_head s1 - 2)) =? 0)
             then timer_stop s1 else s1).
  assert (X : rest_frame s1 s2 /\ out_frame s1 s2 /\
              prio_head s2 = prio_head s1 /\ prio_dest s2 = prio_dest s1 /\
              heap s2 = heap s1).
  { subst s2. destruct (negb _).
    - rewrite timer_stop_eq. unfold rest_frame, out_frame. st. tauto.
    - unfold rest_frame, out_frame. tauto. }
  destruct X as (R2 & O2 & P2 & D2 & H2).
  destruct (prio_head s1 <? prio_size s1).
  - destruct (prio_head s2 <? 2).
    + intros E. apply do_spi_filter_rest in E. st.
      destruct E as (R & O). split.
      * eapply rest_frame_trans; [exact R2|]. exact R.
      * intros H L. unfold rest_frame, out_frame in *. st.
        destruct O; intuition congruence.
    + destruct (prio_dest s2) as [p|].
      * destruct (store _ _ _) as [d| |]; try discriminate. cbn [bind].
        intros E. apply Ret_inj in E. subst s'.
        unfold rest_frame, out_frame in *. st. tauto.
      * cbn [bind]. intros E. apply Ret_inj in E. subst s'.
        unfold rest_frame, out_frame in *. st. tauto.
  - intros E. apply do_spi_filter_rest in E. destruct E as (R & O).
    split; [exact R|]. intros H L. apply O; intuition congruence.
Qed.

Lemma hd_unsent s :
  hd 0 (unsent s)
  = (if out_head s <? out_size s
     then nth (Z.to_nat (out_head s)) (out s) 0 else 0).
Proof.
  unfold unsent.
  destruct (Z.ltb_spec (out_head s) (out_size s)).
  - replace (Z.to_nat (out_size s - out_head s))
      with (S (Z.to_nat (out_size s - out_head s - 1))) by lia.
    rewrite <- (Nat.add_0_r (Z.to_nat (out_head s))) at 2.
    rewrite <- nth_skipn.
    destruct (skipn (Z.to_nat (out_head s)) (out s)); reflexivity.
  - replace (Z.to_nat (out_size s - out_head s)) with O by lia.
    reflexivity.
Qed.

(** A tick transmits the first unsent byte, or the filler 0x00 when no
    byte is waiting. *)
Lemma do_spi_sends read s s' :
  do_spi read s = Ret s' -> wire s' = wire s ++ [hd 0 (unsent s)].
Proof.
  intros E. apply do_spi_rest in E. destruct E as ((W & _) & _).
  rewrite W, wire_exchanged, hd_unsent. reflexivity.
Qed.

Lemma next_sent_app (a b : list Z) : next_sent (length a) (a ++ b) = a.
Proof.
  induction a as [|x a IH]; [reflexivity|].
  cbn [length next_sent app hd tl]. rewrite IH. reflexivity.
Qed.

(** With the watermarks off, ticks transmit the unsent bytes in order. *)
Lemma run_irqs_quiet rx : forall s s',
  len (out s) = OUT_CAP -> 0 <= out_head s <= out_size s ->
  out_size s <= OUT_CAP -> water_high s = 0 -> water_low s = 0 ->
  run_irqs rx s = Ret s' ->
  wire s' = wire s ++ next_sent (length rx) (unsent s).
Proof.
  induction rx as [|b rx IH]; intros s s' Hl Hh Hs H L; cbn [run_irqs].
  - intros E. apply Ret_inj in E. subst s'. cbn [length next_sent].
    rewrite app_nil_r. reflexivity.
  - destruct (do_spi b s) as [s1| |] eqn:E1; try discriminate.
    cbn [bind]. intros E.
    pose proof (do_spi_sends _ _ _ E1) as W1.
    destruct (do_spi_rest _ _ _ E1) as ((_ & Rh & Rl) & O).
    destruct (O H L) as (Oo & Oz & Oh).
    pose proof (tick_frame_exchanged s) as F. unfold tick_frame in F.
    destruct F as (_ & _ & _ & Fh & Fl & _ & _ & Fo & Fz & _).
    pose proof (out_head_exchanged s Hh Hs) as X.
    assert (U : unsent s1 = tl (unsent s)).
    { apply unsent_exchanged; try assumption; congruence. }
    rewrite (IH s1 s'); try congruence.
    + rewrite W1, U, <- app_assoc. reflexivity.
    + rewrite Oh, Oz, Fz, X.
      destruct (Z.ltb_spec (out_head s) (out_size s)); lia.
Qed.

(** ** The bounds of the Inbound Buffer are kept *)

Lemma do_spi_append_in_ok read s s' :
  in_ok s -> do_spi_append read s = Ret s' -> in_ok s'.
Proof.
  intros (Hi & Hn). unfold do_spi_append.
  destruct (do_spi_watermarks s) as [s1| |] eqn:E1; try discriminate.
  cbn [bind]. apply do_spi_watermarks_frame in E1.
  destruct E1 as (Eb & En & _).
  destruct (do_spi_add_Ret read s1) as (b & n & E & _ & N & Lb).
  - rewrite Eb. exact Hi.
  - rewrite En. exact Hn.
  - rewrite E. intros X. apply Ret_inj in X. subst s'.
    unfold in_ok. st. split; [exact Lb|].
    rewrite N, En. consts.
    destruct (Z.eqb_spec (in_size s) 256); lia.
Qed.

Lemma do_spi_filter_in_ok read s s' :
  in_ok s -> do_spi_filter read s = Ret s' -> in_ok s'.
Proof.
  intros H. unfold do_spi_filter.
  destruct (negb (got_esc s) && (read =? 92)).
  - intros E. apply Ret_inj in E. subst s'. exact H.
  - destruct (got_esc s).
    + apply do_spi_append_in_ok. exact H.
    + destruct ((read =? 0) || (read =? 255)).
      * intros E. apply Ret_inj in E. subst s'. exact H.
      * apply do_spi_append_in_ok. exact H.
Qed.

(** Every tick that completes keeps the bounds of the Inbound Buffer. *)
Lemma do_spi_in_ok read s s' :
  in_ok s -> do_spi read s = Ret s' -> in_ok s'.
Proof.
  intros H. unfold do_spi.
  destruct (do_spi_exchange s) as [s1| |] eqn:E1; try discriminate.
  cbn [bind]. apply do_spi_exchange_eq in E1. subst s1.
  pose proof (tick_frame_exchanged s) as F. unfold tick_frame in F.
  destruct F as (Eb & En & _).
  set (s1 := exchanged s) in *.
  assert (H1 : in_ok s1) by (unfold in_ok; rewrite Eb, En; exact H).
  set (s2 := if negb (Z.land (prio_irq_bytes s1)
                        (shl1 (prio_size s1 - prio_head s1 - 2)) =? 0)
             then timer_stop s1 else s1).
  assert (H2 : in_ok s2).
  { subst s2. destruct (negb _); [rewrite timer_stop_eq|]; exact H1. }
  destruct (prio_head s1 <? prio_size s1).
  - destruct (prio_head s2 <? 2).
    + apply do_spi_filter_in_ok. exact H2.
    + destruct (prio_dest s2) as [p|].
      * destruct (store _ _ _) as [d| |]; try discriminate. cbn [bind].
        intros E. apply Ret_inj in E. subst s'. exact H2.
      * cbn [bind]. intros E. apply Ret_inj in E. subst s'. exact H2.
  - apply do_spi_filter_in_ok. exact H1.
Qed.

(** So does uart_read. *)
Lemma uart_read_in_ok size s s' n data :
  wf s -> 0 <= size -> uart_read size s = Ret (s', n, data) -> in_ok s'.
Proof.
  intros W Hz. pose proof W as (Hi & Hl & Hn & Hh & Hs).
  destruct (uart_read_Ret size s W Hz) as (b & m & E & M & Lb). rewrite E.
  intros X.
  assert (Es : s' = unlock (set_in_size (u16 (in_size s - m))
                              (set_in_buf b (lock s))))
    by congruence.
  subst s'. clear X.
  assert (B : 0 <= m <= in_size s).
  { subst m. destruct (Z.ltb_spec (in_size s) size); lia. }
  unfold in_ok. rewrite unlock_eq, lock_eq. st. consts.
  rewrite u16_small by lia. split; [exact Lb|lia].
Qed.

(** ** Ticks with the watermarks off *)

(** The tick inside the reply region, with or without a destination. *)
Lemma do_spi_inside read s :
  len (out s) = OUT_CAP -> 0 <= out_head s <= out_size s ->
  out_size s <= OUT_CAP -> prio_size s < 65536 ->
  in_reply_region s ->
  (forall p, prio_dest s = Some p -> prio_head s < len (heap s p)) ->
  exists s1,
    tick_frame s s1 /\ out_head s1 = out_head (exchanged s) /\
    do_spi read s
    = Ret (set_prio_head (prio_head s + 1)
             match prio_dest s with
             | Some p =>
                 set_heap
                   (updn (heap s) p
                      (firstn (Z.to_nat (prio_head s)) (heap s p)
                       ++ read :: skipn (S (Z.to_nat (prio_head s)))
                                    (heap s p))) s1
             | None => s1
             end).
Proof.
  intros Hl Hh Hs Hz (R1 & R2) Hb. unfold do_spi.
  rewrite do_spi_exchange_Ret by assumption. st.
  pose proof (tick_frame_exchanged s) as F.
  pose proof (prio_head_exchanged s) as Ep.
  set (s1 := exchanged s) in *.
  pose proof F as F'. unfold tick_frame in F'.
  destruct F' as (_ & _ & Ehp & _ & _ & _ & _ & _ & _ & Ed & Ez & _).
  rewrite Ep, Ez.
  destruct (Z.ltb_spec (prio_head s) (prio_size s)); [|lia].
  set (s2 := if negb (Z.land (prio_irq_bytes s1)
                        (shl1 (prio_size s - prio_head s - 2)) =? 0)
             then timer_stop s1 else s1).
  assert (X : tick_frame s s2 /\ out_head s2 = out_head s1 /\
              prio_head s2 = prio_head s).
  { subst s2. destruct (negb _).
    - rewrite timer_stop_eq. unfold tick_frame in *. st. tauto.
    - tauto. }
  destruct X as (F2 & O2 & P2).
  pose proof F2 as F'. unfold tick_frame in F'.
  destruct F' as (_ & _ & Eh2 & _ & _ & _ & _ & _ & _ & Ed2 & _).
  rewrite P2, Ed2, Eh2.
  destruct (Z.ltb_spec (prio_head s) 2); [lia|].
  exists s2. split; [exact F2|]. split; [exact O2|].
  destruct (prio_dest s) as [p|].
  - rewrite store_Ret by (specialize (Hb p eq_refl); lia). st.
    rewrite P2, u16_small by lia. reflexivity.
  - st. rewrite P2, u16_small by lia. reflexivity.
Qed.

Lemma quiet_step s s' :
  quiet s ->
  len (in_buf s') = IN_CAP -> 0 <= in_size s' <= UART_IN_SIZE ->
  out s' = out s -> out_size s' = out_size s ->
  out_head s' = out_head (exchanged s) ->
  water_high s' = water_high s -> water_low s' = water_low s ->
  0 <= prio_head s' -> prio_size s' = prio_size s ->
  (forall p, prio_dest s' = Some p -> prio_size s <= len (heap s' p)) ->
  quiet s'.
Proof.
  intros ((Hi & Hl & Hn & Hh & Hs) & H & L & P0 & Pz & Hd)
         Ei En Eo Ez Eh Ewh Ewl Ep Es Ed.
  pose proof (out_head_exchanged s Hh Hs) as X.
  unfold quiet, wf. rewrite Eo, Ez, Eh, X, Ewh, Ewl, Es.
  destruct (Z.ltb_spec (out_head s) (out_size s));
    repeat split; try assumption; try lia.
Qed.

Lemma do_spi_append_quiet read s :
  quiet s -> exists s', do_spi_append read s = Ret s' /\ quiet s'.
Proof.
  intros ((Hi & Hl & Hn & Hh & Hs) & H & L & P0 & Pz & Hd).
  unfold do_spi_append.
  rewrite do_spi_watermarks_off by assumption. cbn [bind].
  destruct (do_spi_add_Ret read s Hi Hn) as (b & n & E & _ & N & Lb).
  eexists. split; [exact E|].
  unfold quiet, wf. st. consts.
  repeat split; try assumption; try lia;
    destruct (Z.eqb_spec (in_size s) 256); lia.
Qed.

Lemma quiet_esc (b : bool) s : quiet s -> quiet (set_got_esc b s).
Proof. unfold quiet, wf. st. tauto. Qed.

Lemma do_spi_filter_quiet read s :
  quiet s -> exists s', do_spi_filter read s = Ret s' /\ quiet s'.
Proof.
  intros Q. unfold do_spi_filter.
  destruct (negb (got_esc s) && (read =? 92)).
  - eexists. split; [reflexivity|]. apply quiet_esc. exact Q.
  - destruct (got_esc s).
    + apply do_spi_append_quiet, quiet_esc. exact Q.
    + destruct ((read =? 0) || (read =? 255)).
      * exists s. split; [reflexivity|exact Q].
      * apply do_spi_append_quiet. exact Q.
Qed.

Lemma do_spi_quiet read s :
  quiet s -> exists s', do_spi read s = Ret s' /\ quiet s'.
Proof.
  intros Q. pose proof Q as (W & H & L & P0 & Pz & Hd).
  pose proof W as (Hi & Hl & Hn & Hh & Hs).
  assert (D : in_reply_region s \/ ~ in_reply_region s)
    by (unfold in_reply_region; lia).
  destruct D as [Hr|Hr].
  - (* reply region *)
    destruct (do_spi_inside read s Hl Hh Hs Pz Hr) as (s1 & F & O & E).
    { intros p Hp. specialize (Hd p Hp).
      unfold in_reply_region in Hr. lia. }
    eexists. split; [exact E|].
    unfold tick_frame in F.
    destruct F as (Eb & En & Ehp & Ewh & Ewl & _ & _ & Eo & Ez & Edd & Es & _).
    apply (quiet_step s); try assumption;
      try (destruct (prio_dest s); st; congruence).
    + destruct (prio_dest s); st; lia.
    + intros p. destruct (prio_dest s) as [q|] eqn:Dq; st.
      * rewrite Edd. intros Hp. injection Hp as <-.
        unfold updn. rewrite Nat.eqb_refl.
        specialize (Hd q eq_refl). unfold in_reply_region in Hr.
        rewrite len_stored by lia. exact Hd.
      * rewrite Edd. discriminate.
  - (* the byte goes to the filter *)
    destruct (do_spi_outside read s Hl Hh Hs Hr)
      as (s1 & E & F & _ & H1 & _ & _ & Q1).
    unfold tick_frame in F.
    destruct F as (Eb & En & Ehp & Ewh & Ewl & _ & _ & Eo & Ez & Edd & Es & _).
    rewrite E. apply do_spi_filter_quiet.
    apply (quiet_step s); try assumption; try congruence.
    + exact (Q1 P0).
    + intros p. rewrite Edd, Ehp. apply Hd.
Qed.

Lemma run_irqs_quiet_Ret rx : forall s,
  quiet s -> exists s', run_irqs rx s = Ret s' /\ quiet s'.
Proof.
  induction rx as [|b rx IH]; intros s Q; cbn [run_irqs].
  - exists s. split; [reflexivity|exact Q].
  - destruct (do_spi_quiet b s Q) as (s1 & E & Q1).
    rewrite E. cbn [bind]. apply IH. exact Q1.
Qed.

(** ** Overwriting an active priority frame *)






(** The same run, computed.  The notice goes in front of the two unsent
    bytes of the version frame; uart_wait_prio then returns after the
    three bytes of the notice, and the reply 9 that arrives while the old
    frame's last byte goes out is not stored: block 0 still holds the
    placeholder. *)
Example in_flight_replaced :
  exists s1 s2 s3,
    do_spi 65 in_flight = Ret s1 /\
    unsent s1 = [92; 119; 1; 118; 0] /\
    uart_wait_prio 0 [mkSlice [0; 0; 0] 0] s1 = Ret (s2, true, []) /\
    run_irqs [0; 9] s2 = Ret s3 /\
    wire s3 = [92; 92; 119; 1; 118; 0] /\
    heap s3 0%nat = [92; 118; 0].
Proof.
  eexists. eexists. eexists.
  split; [vm_compute; reflexivity|]. split; [reflexivity|].
  split; [vm_compute; reflexivity|].
  split; [vm_compute; reflexivity|]. split; reflexivity.
Qed.

(** ** Priority frames in the Outbound Buffer *)

(** What every completed call of uart_write_prio does, whichever branch
    makes the room: the frame is at offset 0 of the array with the
    transmit cursor at 0, nothing has been sent by the call, and the first
    byte of the frame is what the next tick transmits. *)
Lemma uart_write_prio_front buf size dest irq s s' :
  wf s -> size <= OUT_CAP ->
  uart_write_prio buf size dest irq s = Ret s' ->
  out_head s' = 0 /\
  firstn (Z.to_nat size) (out s') = firstn (Z.to_nat size) buf /\
  len (out s') = OUT_CAP /\ wire s' = wire s /\
  (1 <= size ->
   forall read s'',
     do_spi read s' = Ret s'' -> wire s'' = wire s' ++ [hd 0 buf]).
Proof.
  intros (Hi & Hl & Hn & Hh & Hs) Hc E.
  destruct (uart_write_prio_inv _ _ _ _ _ _ Hc E)
    as (o & -> & Lo & Hz & Fo & _).
  destruct (out_enqueued o size dest irq s) as (Eo & Eh & Ez & _).
  destruct (prio_frame_enqueued o size dest irq s)
    as (_ & _ & _ & _ & _ & _ & _ & Ew).
  split; [exact Eh|]. split; [rewrite Eo; exact Fo|].
  split; [rewrite Eo; congruence|]. split; [exact Ew|].
  intros H1 read s'' R. rewrite (do_spi_sends _ _ _ R). f_equal. f_equal.
  unfold unsent. rewrite Eo, Eh, Ez. change (Z.to_nat 0) with O.
  cbn [skipn]. rewrite u16_small by (consts; lia).
  rewrite Z.sub_0_r.
  assert (Lb : (1 <= length buf)%nat) by (unfold len in Hz; lia).
  assert (Lo' : (1 <= length o)%nat) by (unfold len in Lo, Hl; consts; lia).
  assert (Hhd : hd 0 o = hd 0 buf).
  { destruct o as [|x o]; [cbn [length] in Lo'; lia|].
    destruct buf as [|y buf]; [cbn [length] in Lb; lia|].
    replace (Z.to_nat size) with (S (Z.to_nat (size - 1))) in Fo by lia.
    cbn [firstn] in Fo. injection Fo as -> _. reflexivity. }
  rewrite <- Hhd.
  replace (Z.to_nat (size + out_size s - out_head s))
    with (S (Z.to_nat (size + out_size s - out_head s - 1))) by lia.
  destruct o; reflexivity.
Qed.

(** C2 fails on this input.  256 bytes are written, then a 4-byte priority
    frame, which fills the array to its 260 bytes, then another 4-byte
    frame.  The second frame is at offset 0 with the cursor at 0, as
    claimed.  But nothing is truncated from the end of the queue: all 256
    ordinary bytes stay, the bytes lost are those of the first frame, which
    were due next, and the count becomes 264 for an array of 260 bytes.
    260 ticks transmit the second frame and the ordinary bytes; the tick
    after them reads [out] outside the array. *)
Theorem C2_overflow_exceeds_capacity :
  exists s1 s2 s3 s4,
    uart_write (repeat 65 256) 256 boot = Ret (s1, 256) /\
    uart_write_prio [92; 98; 1; 2] 4 None 0 s1 = Ret s2 /\
    unsent s2 = [92; 98; 1; 2] ++ repeat 65 256 /\
    uart_write_prio [92; 118; 7; 8] 4 None 0 s2 = Ret s3 /\
    out s3 = [92; 118; 7; 8] ++ repeat 65 256 /\ out_head s3 = 0 /\
    out_size s3 = 264 /\ len (out s3) = 260 /\ OUT_CAP = 260 /\
    run_irqs (repeat 0 260) s3 = Ret s4 /\
    wire s4 = [92; 118; 7; 8] ++ repeat 65 256 /\
    do_spi 0 s4 = Undef.
Proof.
  do 4 eexists.
  split; [vm_compute; reflexivity|].
  split; [vm_compute; reflexivity|].
  split; [vm_compute; reflexivity|].
  split; [vm_compute; reflexivity|].
  split; [vm_compute; reflexivity|].
  split; [reflexivity|]. split; [reflexivity|].
  split; [vm_compute; reflexivity|]. split; [reflexivity|].
  split; [vm_compute; reflexivity|].
  split; [vm_compute; reflexivity|]. vm_compute. reflexivity.
Qed.

(** When the frame and the unsent bytes together fit in the [out] array,
    uart_write_prio does what is expected of it: it puts the frame at
    offset 0 with the transmit cursor at 0 and the unsent bytes behind it
    in their order; the count is the frame length plus the number of
    unsent bytes, at most 260; nothing is sent by the call.  The next
    tick transmits the first byte of the frame, and with both watermarks
    off, so that no notice gets in between, the next [size] ticks transmit
    the frame. *)
Lemma uart_write_prio_fitting (buf : list Z) (size : Z) (dest : option nat)
        (irq_bytes : Z) (s : state) :
  wf s -> 0 <= size <= len buf ->
  size + out_size s - out_head s <= OUT_CAP ->
  exists s',
    uart_write_prio buf size dest irq_bytes s = Ret s' /\
    out_head s' = 0 /\
    firstn (Z.to_nat size) (out s') = firstn (Z.to_nat size) buf /\
    unsent s' = firstn (Z.to_nat size) buf ++ unsent s /\
    out_size s' = size + (out_size s - out_head s) /\
    out_size s' <= OUT_CAP /\ wire s' = wire s /\
    (forall read s'',
       do_spi read s' = Ret s'' ->
       wire s'' = wire s'
                  ++ [hd 0 (firstn (Z.to_nat size) buf ++ unsent s)]) /\
    (water_high s = 0 -> water_low s = 0 -> size < 65536 ->
     (forall p, dest = Some p -> size <= len (heap s p)) ->
     forall rx,
       length rx = Z.to_nat size ->
       exists s'',
         run_irqs rx s' = Ret s'' /\
         wire s'' = wire s' ++ firstn (Z.to_nat size) buf).
Proof.
  intros W Hz Hf. pose proof W as (Hi & Hl & Hn & Hh & Hs).
  rewrite uart_write_prio_fits by (try assumption; lia).
  set (frame := firstn (Z.to_nat size) buf).
  set (rest := skipn (Z.to_nat (size + (out_size s - out_head s))) (out s)).
  assert (Lf : len frame = size) by (subst frame; apply len_firstn; lia).
  assert (U : unsent (enqueued (frame ++ unsent s ++ rest) size dest
                        irq_bytes s) = frame ++ unsent s).
  { apply unsent_enqueued; try assumption. consts. lia. }
  destruct (out_enqueued (frame ++ unsent s ++ rest) size dest irq_bytes s)
    as (Eo & Eh & Ez & _).
  destruct (prio_frame_enqueued (frame ++ unsent s ++ rest) size dest
              irq_bytes s) as (_ & _ & _ & _ & Ewh & Ewl & _ & Ew).
  rewrite u16_small in Ez by (consts; lia).
  eexists. split; [reflexivity|].
  split; [exact Eh|]. split; [|split; [exact U|]].
  { rewrite Eo. rewrite firstn_app_exact; [reflexivity|].
    unfold len in Lf. lia. }
  split; [rewrite Ez; lia|]. split; [rewrite Ez; lia|].
  split; [exact Ew|]. split.
  - intros read s'' E. rewrite (do_spi_sends _ _ _ E), U. reflexivity.
  - intros H L Hz' Hd rx Hrx.
    set (s' := enqueued (frame ++ unsent s ++ rest) size dest irq_bytes s)
      in *.
    assert (Lo : len (out s') = OUT_CAP).
    { rewrite Eo. pose proof (len_unsent s Hl Hh Hs) as Lu.
      subst rest. rewrite !len_app, Lf, Lu, len_skipn; lia. }
    destruct (prio_enqueued (frame ++ unsent s ++ rest) size dest
                irq_bytes s) as (Pd & Ph & Pz & _).
    destruct (prio_frame_enqueued (frame ++ unsent s ++ rest) size dest
                irq_bytes s) as (Eb & En & _ & Ehp & _).
    fold s' in Pd, Ph, Pz, Eb, En, Ehp.
    assert (Q : quiet s').
    { unfold quiet, wf.
      rewrite Eb, En, Lo, Eh, Ez, Ewh, Ewl, Ph, Pz, Pd, Ehp.
      repeat split; try assumption; lia. }
    destruct (run_irqs_quiet_Ret rx s' Q) as (s'' & E & _).
    exists s''. split; [exact E|].
    rewrite (run_irqs_quiet rx s' s''); try assumption; try congruence.
    + rewrite U, Hrx.
      replace (Z.to_nat size) with (length frame) by (unfold len in Lf; lia).
      rewrite next_sent_app. reflexivity.
    + rewrite Eh, Ez. lia.
Qed.

(** A version frame queued in front of two waiting bytes, and the three
    ticks that follow. *)
Lemma uart_write_prio_fitting_run :
  exists s' s'',
    uart_write_prio [92; 118; 0] 3 None 0 queued2 = Ret s' /\
    unsent s' = [92; 118; 0; 65; 66] /\
    run_irqs [0; 0; 0] s' = Ret s'' /\
    wire s'' = [92; 118; 0].
Proof.
  destruct (uart_write_prio_fitting [92; 118; 0] 3 None 0 queued2)
    as (s' & E & _ & _ & U & _ & _ & W & _ & Q).
  - unfold wf. vm_compute. intuition congruence.
  - vm_compute. split; discriminate.
  - vm_compute. discriminate.
  - destruct (Q eq_refl eq_refl) with (rx := [0; 0; 0]) as (s'' & R & X).
    + reflexivity.
    + discriminate.
    + reflexivity.
    + exists s', s''. split; [exact E|]. split; [exact U|].
      split; [exact R|]. rewrite X, W. reflexivity.
Defined.

(** ** Giving up on a priority frame *)


(** One wait that ends beyond the limit, with the frame still unfinished,
    makes uart_wait_prio give up. *)
Lemma uart_wait_prio_gives_up timeout sl env s s1 :
  timeout <> 0 -> prio_head s <> prio_size s ->
  pass sl s = Ret s1 -> timeout < rtc s1 - rtc s ->
  uart_wait_prio timeout (sl :: env) s
  = Ret (uart_wait_prio_timeout s1, false, env).
Proof.
  intros T0 P E T. unfold uart_wait_prio. cbn [uart_wait_prio_loop].
  destruct (Z.eqb_spec (prio_head s) (prio_size s)); [contradiction|].
  rewrite E. cbn [bind].
  destruct (Z.eqb_spec timeout 0); [contradiction|]. cbn [orb].
  destruct (Z.leb_spec (rtc s1 - rtc s) timeout); [lia|]. reflexivity.
Qed.

(** *** The frame stays in front while the ticks run *)


(** uart_write_prio puts its frame in front, whichever branch makes the
    room. *)
Lemma uart_write_prio_in_front buf size dest irq s s' :
  wf s -> size <= OUT_CAP ->
  uart_write_prio buf size dest irq s = Ret s' -> frame_in_front s'.
Proof.
  intros (Hi & Hl & Hn & Hh & Hs) Hc E.
  destruct (uart_write_prio_inv _ _ _ _ _ _ Hc E)
    as (o & -> & Lo & Hz & _ & Hb).
  destruct (out_enqueued o size dest irq s) as (Eo & Eh & Ez & _).
  destruct (prio_enqueued o size dest irq s) as (_ & Ph & Pz & _).
  unfold frame_in_front. rewrite Eo, Eh, Ez, Ph, Pz.
  rewrite u16_small by (consts; lia).
  split; [congruence|]. consts. lia.
Qed.














(** Outside that case the cursor lands anywhere.  A 6-byte frame is
    queued, three of its bytes go out, and uart_write adds a byte: it moves
    the three bytes left of the frame down to offset 0.  The timeout then
    sets the cursor to 6 with only 4 bytes counted: nothing is left to
    send, the byte just written never goes out, and the next uart_write
    moves a negative number of bytes. *)
Example timeout_after_write :
  exists s1 s2 s3 s4,
    uart_write_prio [92; 98; 0; 0; 37; 128] 6 None 0 boot = Ret s1 /\
    run_irqs [0; 0; 0] s1 = Ret s2 /\
    uart_write [65] 1 s2 = Ret (s3, 1) /\
    unsent s3 = [0; 37; 128; 65] /\ ~ frame_in_front s3 /\
    uart_wait_prio 2 [mkSlice [] 5] s3 = Ret (s4, false, []) /\
    out_head s4 = 6 /\ out_size s4 = 4 /\ unsent s4 = [] /\
    uart_write [66] 1 s4 = Undef.
Proof.
  do 4 eexists.
  split; [vm_compute; reflexivity|].
  split; [vm_compute; reflexivity|].
  split; [vm_compute; reflexivity|].
  split; [reflexivity|].
  split; [intros (_ & _ & _ & _ & H & _); vm_compute in H;
          specialize (H eq_refl); discriminate|].
  split; [vm_compute; reflexivity|].
  split; [reflexivity|]. split; [reflexivity|]. split; [reflexivity|].
  vm_compute. reflexivity.
Qed.

(** ** Writing one byte and reading it back *)

(** The state after the compaction step of uart_write (lines 270-275). *)
Lemma uart_write_compacts s :
  len (out s) = OUT_CAP -> 0 <= out_head s <= out_size s ->
  out_size s <= OUT_CAP ->
  exists s1,
    (if 0 <? out_head s
     then o <- memmove (out s) 0 (out_head s) (out_size s - out_head s) ;;
          Ret (set_out_head 0
                 (set_out_size (u16 (out_size s - out_head s))
                    (set_out o s)))
     else Ret s) = Ret s1 /\
    out_head s1 = 0 /\ out_size s1 = out_size s - out_head s /\
    len (out s1) = OUT_CAP /\
    firstn (Z.to_nat (out_size s1)) (out s1) = unsent s /\
    timer s1 = timer s /\ REG_IE s1 = REG_IE s.
Proof.
  intros Hl Hh Hs. consts.
  destruct (Z.ltb_spec 0 (out_head s)).
  - rewrite memmove_Ret by lia. st. eexists. split; [reflexivity|]. st.
    rewrite u16_small by lia. repeat split.
    + rewrite len_moved; lia.
    + unfold unsent. change (Z.to_nat 0) with O. cbn [firstn app].
      apply firstn_app_exact. rewrite length_firstn, length_skipn.
      unfold len in Hl. lia.
  - exists s. split; [reflexivity|]. unfold unsent.
    replace (out_head s) with 0 by lia. rewrite Z.sub_0_r.
    repeat split. exact Hl.
Qed.

Lemma firstn_stored2 (a : list Z) (n v w : Z) :
  0 <= n -> n + 1 < len a ->
  let o1 := firstn (Z.to_nat n) a ++ v :: skipn (S (Z.to_nat n)) a in
  firstn (Z.to_nat (n + 2))
         (firstn (Z.to_nat (n + 1)) o1
          ++ w :: skipn (S (Z.to_nat (n + 1))) o1)
  = firstn (Z.to_nat n) a ++ [v; w].
Proof.
  intros H0 H1 o1.
  assert (L1 : len o1 = len a) by (subst o1; apply len_stored; lia).
  replace (n + 2) with (n + 1 + 1) by lia.
  rewrite inbound_stored by lia.
  subst o1. rewrite inbound_stored by lia.
  rewrite <- app_assoc. reflexivity.
Qed.

Lemma uart_write_one b s :
  wf s -> out_size s - out_head s + 2 <= UART_OUT_SIZE ->
  exists s',
    uart_write [b] 1 s = Ret (s', 1) /\
    unsent s' = unsent s ++ escaped b.
Proof.
  intros (Hi & Hl & Hn & Hh & Hs) Hr. unfold uart_write. cbv zeta.
  destruct (uart_write_compacts (lock s)) as (s1 & E & A & B & C & D & T & I).
  - rewrite lock_eq. exact Hl.
  - rewrite lock_eq. exact Hh.
  - rewrite lock_eq. exact Hs.
  - rewrite E. cbn [bind]. rewrite lock_eq in B, D. st.
    change (unsent (set_REG_IE _ s)) with (unsent s) in D.
    change (Z.to_nat 1) with 1%nat. cbn [uart_write_loop].
    change (load [b] 0) with (Ret b). cbn [bind]. consts.
    change (u16 (0 + 1)) with 1.
    unfold escaped.
    destruct (Z.eqb_spec b 0) as [Z0|Z0]; cbn [orb].
    + destruct (Z.ltb_spec 256 (out_size s1 + 2)); [lia|].
      rewrite store_Ret by lia. cbn [bind].
      rewrite store_Ret by (rewrite len_stored; lia). cbn [bind].
      eexists. split; [reflexivity|].
      unfold unsent. rewrite unlock_eq. st.
      rewrite u16_small, A by lia. change (Z.to_nat 0) with O.
      cbn [skipn]. rewrite Z.sub_0_r, firstn_stored2 by lia.
      rewrite D, Z0. reflexivity.
    + destruct (Z.eqb_spec b 92) as [Z9|Z9].
      * destruct (Z.ltb_spec 256 (out_size s1 + 2)); [lia|].
        rewrite store_Ret by lia. cbn [bind].
        rewrite store_Ret by (rewrite len_stored; lia). cbn [bind].
        eexists. split; [reflexivity|].
        unfold unsent. rewrite unlock_eq. st.
        rewrite u16_small, A by lia. change (Z.to_nat 0) with O.
        cbn [skipn]. rewrite Z.sub_0_r, firstn_stored2 by lia.
        rewrite D, Z9. reflexivity.
      * destruct (Z.ltb_spec 256 (out_size s1 + 1)); [lia|].
        rewrite store_Ret by lia. cbn [bind].
        eexists. split; [reflexivity|].
        unfold unsent. rewrite unlock_eq. st.
        rewrite u16_small, A by lia. change (Z.to_nat 0) with O.
        cbn [skipn]. rewrite Z.sub_0_r, inbound_stored by lia.
        rewrite D. reflexivity.
Qed.

Lemma do_spi_added_state read s :
  wf s -> out_size s - out_head s <= UART_OUT_SIZE ->
  ~ in_reply_region s -> passes read s ->
  exists s', do_spi read s = Ret s' /\
             inbound s' = evicted s ++ [read] /\ got_esc s' = false.
Proof.
  intros W Hu Hr Hp.
  destruct (do_spi_appends read s W Hu Hr Hp) as
    (s0 & s1 & b & n & _ & G0 & _ & _ & _ & P & E & B & _).
  exists (set_in_size n (set_in_buf b s1)). split; [exact E|].
  rewrite inbound_added. split; [exact B|]. st.
  unfold prio_frame in P. destruct P as (_ & _ & -> & _). exact G0.
Qed.

(** The receiving side of the round trip. *)
Lemma receive_escaped b r :
  b <> 255 -> wf r -> out_size r - out_head r <= UART_OUT_SIZE ->
  got_esc r = false -> prio_idle r ->
  exists r', run_irqs (escaped b) r = Ret r' /\
             inbound r' = evicted r ++ [b] /\ got_esc r' = false.
Proof.
  intros Hb W Hu G Hidle. unfold prio_idle in Hidle.
  assert (Hr : ~ in_reply_region r) by (unfold in_reply_region; lia).
  unfold escaped.
  destruct ((b =? 0) || (b =? 92)) eqn:C.
  - (* marker, then the byte *)
    pose proof W as (Hi & Hl & Hn & Hh & Hs).
    destruct (do_spi_outside 92 r Hl Hh Hs Hr)
      as (s1 & E & F & G1 & H1 & _ & P1 & _).
    cbn [run_irqs]. rewrite E. unfold do_spi_filter. rewrite G1, G.
    cbn [negb andb]. change (92 =? 92) with true. cbn [bind].
    pose proof F as F'. unfold tick_frame in F'.
    destruct F' as (Eb & En & _ & _ & _ & _ & _ & Eo & Ez & _ & Ep & _).
    pose proof (out_head_exchanged r Hh Hs) as X. rewrite <- H1 in X.
    destruct (do_spi_added_state b (set_got_esc true s1))
      as (r' & E' & B' & G').
    + unfold wf. st. rewrite Eb, En, Eo, Ez, X.
      destruct (Z.ltb_spec (out_head r) (out_size r)); repeat split; lia.
    + st. rewrite Ez, X.
      destruct (Z.ltb_spec (out_head r) (out_size r)); lia.
    + unfold in_reply_region. st. rewrite Ep, (P1 Hidle). lia.
    + left. reflexivity.
    + rewrite E'. cbn [bind]. exists r'. split; [reflexivity|].
      split; [|exact G'].
      rewrite B'. f_equal. apply evicted_eq; assumption.
  - (* the byte alone *)
    destruct (do_spi_added_state b r W Hu Hr) as (r' & E' & B' & G').
    + right. destruct (Z.eqb_spec b 0); [discriminate|].
      destruct (Z.eqb_spec b 92); [discriminate|]. tauto.
    + cbn [run_irqs]. rewrite E'. cbn [bind]. exists r'. tauto.
Qed.

(** C1, as stated, fails for the byte 0xFF: uart_write queues it as the
    single byte 0xFF, and the receive filter drops an unescaped 0xFF as
    noise, so nothing reaches the Inbound Buffer. *)
Lemma C1_byte_255_is_lost :
  exists s' r',
    uart_write [255] 1 boot = Ret (s', 1) /\ unsent s' = [255] /\
    run_irqs [255] boot = Ret r' /\ inbound r' = [] /\
    uart_available r' = 0.
Proof.
  eexists. eexists.
  split; [vm_compute; reflexivity|]. split; [reflexivity|].
  split; [vm_compute; reflexivity|]. split; reflexivity.
Qed.

(** C1, amended.  For every byte b other than 0xFF: uart_write accepts
    it when an escape pair still fits below UART_OUT_SIZE, appending to
    the unsent bytes the pair [0x5C, b] when b is 0x00 or 0x5C and the
    single byte b otherwise; and feeding these wire bytes to do_spi, in a
    receiver with the escape state clear and no priority frame active,
    adds exactly b as the newest byte of the Inbound Buffer and leaves the
    escape state clear. *)
Theorem C1_escape_round_trip (b : Z) (s r : state) :
  0 <= b < 255 ->
  wf s -> out_size s - out_head s + 2 <= UART_OUT_SIZE ->
  wf r -> out_size r - out_head r <= UART_OUT_SIZE ->
  got_esc r = false -> prio_idle r ->
  exists s' w r',
    uart_write [b] 1 s = Ret (s', 1) /\
    unsent s' = unsent s ++ w /\
    w = (if (b =? 0) || (b =? 92) then [92; b] else [b]) /\
    run_irqs w r = Ret r' /\
    inbound r' = evicted r ++ [b] /\ got_esc r' = false.
Proof.
  intros Hb Ws Hs Wr Hr G Hidle.
  destruct (uart_write_one b s Ws Hs) as (s' & E & U).
  destruct (receive_escaped b r) as (r' & R & I & G'); try assumption.
  - lia.
  - exists s', (escaped b), r'. repeat split; assumption.
Qed.

(** C1 at a concrete input: the byte 0x00 written and read back. *)
Lemma C1_escape_round_trip_witness :
  exists s' r',
    uart_write [0] 1 boot = Ret (s', 1) /\ unsent s' = [92; 0] /\
    run_irqs [92; 0] boot = Ret r' /\ inbound r' = [0].
Proof.
  destruct (C1_escape_round_trip 0 boot boot)
    as (s' & w & r' & E & U & -> & R & I & _).
  - lia.
  - exact wf_boot.
  - vm_compute. discriminate.
  - exact wf_boot.
  - vm_compute. discriminate.
  - reflexivity.
  - unfold prio_idle. vm_compute. discriminate.
  - exists s', r'. split; [exact E|]. split; [exact U|].
    split; [exact R|exact I].
Defined.

(** ** uart_requeue *)

(** A request that does not fit is refused and touches neither queue. *)
Lemma uart_requeue_refused src size s :
  IN_CAP < size + in_size s ->
  exists s',
    uart_requeue src size s = Ret (s', false) /\
    in_buf s' = in_buf s /\ in_size s' = in_size s /\
    out s' = out s /\ out_size s' = out_size s /\
    out_head s' = out_head s.
Proof.
  intros H. unfold uart_requeue. cbv zeta. consts.
  rewrite lock_eq. st.
  destruct (Z.leb_spec (size + in_size s) (256 + 8)); [lia|].
  eexists. split; [reflexivity|]. rewrite unlock_eq. repeat split.
Qed.

(** C8.  uart_requeue, when it accepts, does not prepend to the Inbound
    Buffer.  After the bytes 1, 2, 3 have been received, requeueing the
    one byte 9 returns true, but uart_available is still 3: the old bytes
    have been moved up one place without the count following, so the
    Inbound Buffer reads 1, 1, 2 - the byte 3 is out of reach and 9 is not
    in front - and the byte 9 has been copied to the start of the [out]
    array, whose count has grown instead: it is now queued for
    transmission. *)
Theorem C8_requeue_failing_input :
  exists s0 s',
    run_irqs [1; 2; 3] boot = Ret s0 /\
    inbound s0 = [1; 2; 3] /\ unsent s0 = [] /\
    uart_requeue [9] 1 s0 = Ret (s', true) /\
    uart_available s' = 3 /\ inbound s' = [1; 1; 2] /\
    out_size s' = out_size s0 + 1 /\ out_head s' = out_head s0 /\
    unsent s' = [9].
Proof.
  eexists. eexists.
  split; [vm_compute; reflexivity|].
  split; [reflexivity|]. split; [reflexivity|].
  split; [vm_compute; reflexivity|].
  repeat split.
Qed.

(** ** uart_init *)

Lemma uart_init_busy fuel msg env s :
  timer s <> UART_TIMER_OFF -> uart_init fuel msg env s = Ret (s, false, env).
Proof.
  intros H. unfold uart_init.
  destruct (Z.eqb_spec (timer s) UART_TIMER_OFF); [contradiction|].
  reflexivity.
Qed.

(** C9.  A failed uart_init does not leave the driver closed.  From the
    power-on state with a peer that answers 0x00, uart_init returns false
    with the link disabled and the interrupt of timer 3 masked, but
    [timer] is still 3, the card-line interrupt is still enabled and timer
    3 is still running; every later uart_init returns false at once and
    changes nothing.  The same holds when the retry budget runs out.  When
    no timer is free, [timer] stays UART_TIMER_OFF but the link and the
    card-line interrupt stay enabled.  uart_close is the path that does
    reset [timer]. *)
Theorem C9_init_failure_not_closed :
  (exists s',
     uart_init 1 0%nat absent_peer boot = Ret (s', false, []) /\
     card_spi s' = false /\ Z.testbit (REG_IE s') 6 = false /\
     timer s' = 3 /\ UART_TIMER_OFF = 255 /\
     Z.testbit (REG_IE s') 20 = true /\
     Z.testbit (TIMER_CR s' 3) 7 = true /\
     (forall fuel msg env, uart_init fuel msg env s' = Ret (s', false, env)) /\
     timer (uart_close s') = UART_TIMER_OFF) /\
  (exists s',
     uart_init 11 0%nat unready_peer boot = Ret (s', false, []) /\
     inittimeout s' = 0 /\ timer s' = 3 /\
     Z.testbit (REG_IE s') 20 = true) /\
  (exists s',
     uart_init 1 0%nat [] timers_taken = Ret (s', false, []) /\
     timer s' = UART_TIMER_OFF /\ card_spi s' = true /\
     Z.testbit (REG_IE s') 20 = true).
Proof.
  split; [|split].
  - eexists. split; [vm_compute; reflexivity|].
    split; [reflexivity|]. split; [reflexivity|]. split; [reflexivity|].
    split; [reflexivity|]. split; [reflexivity|]. split; [reflexivity|].
    split; [|reflexivity].
    intros fuel msg env. apply uart_init_busy. discriminate.
  - eexists. split; [vm_compute; reflexivity|]. repeat split.
  - eexists. split; [vm_compute; reflexivity|]. repeat split.
Qed.

(** * Further properties *)

(** ** A tick with the watermarks off, in full *)

Lemma store_inv (a : list Z) (i v : Z) (d : list Z) :
  store a i v = Ret d -> d = stored a i v.
Proof.
  unfold store, stored. destruct ((0 <=? i) && (i <? len a)); try discriminate.
  intros E. apply Ret_inj in E. symmetry. exact E.
Qed.

Lemma do_spi_filter_book read s s' :
  water_high s = 0 -> water_low s = 0 -> do_spi_filter read s = Ret s' ->
  prio_size s' = prio_size s /\ prio_dest s' = prio_dest s /\
  prio_head s' = prio_head s /\ timer s' = timer s /\ heap s' = heap s.
Proof.
  intros H L. unfold do_spi_filter, do_spi_append.
  assert (A : forall s0,
             water_high s0 = 0 -> water_low s0 = 0 ->
             (s1 <- do_spi_watermarks s0 ;; do_spi_add read s1) = Ret s' ->
             prio_size s' = prio_size s0 /\ prio_dest s' = prio_dest s0 /\
             prio_head s' = prio_head s0 /\ timer s' = timer s0 /\
             heap s' = heap s0).
  { intros s0 H0 L0. rewrite do_spi_watermarks_off by assumption.
    cbn [bind]. intros E. destruct (do_spi_add_eq _ _ _ E) as (b & n & ->).
    repeat split. }
  destruct (negb (got_esc s) && (read =? 92)).
  - intros E. apply Ret_inj in E. subst s'. repeat split.
  - destruct (got_esc s).
    + intros E. apply A in E; [exact E|exact H|exact L].
    + destruct ((read =? 0) || (read =? 255)).
      * intros E. apply Ret_inj in E. subst s'. repeat split.
      * apply A; assumption.
Qed.

(** The priority bookkeeping and the caller memory after a tick. *)
Lemma do_spi_book read s s' :
  water_high s = 0 -> water_low s = 0 ->
  0 <= prio_head s -> prio_size s < 65536 ->
  do_spi read s = Ret s' ->
  prio_size s' = prio_size s /\ prio_dest s' = prio_dest s /\
  timer s' = timer s /\ prio_head s' = prio_head_after s /\
  heap s' = heap_after s read.
Proof.
  intros H L P0 Pz. unfold do_spi, prio_head_after, heap_after.
  destruct (do_spi_exchange s) as [s1| |] eqn:E1; try discriminate.
  cbn [bind]. apply do_spi_exchange_eq in E1. subst s1.
  pose proof (tick_frame_exchanged s) as F. unfold tick_frame in F.
  destruct F as (_ & _ & Fh & Fwh & Fwl & _ & Ft & _ & _ & Fd & Fz & _).
  pose proof (prio_head_exchanged s) as Fp.
  set (s1 := exchanged s) in *.
  set (s2 := if negb (Z.land (prio_irq_bytes s1)
                        (shl1 (prio_size s1 - prio_head s1 - 2)) =? 0)
             then timer_stop s1 else s1).
  assert (X : prio_size s2 = prio_size s /\ prio_dest s2 = prio_dest s /\
              prio_head s2 = prio_head s /\ timer s2 = timer s /\
              heap s2 = heap s /\ water_high s2 = 0 /\ water_low s2 = 0).
  { subst s2. destruct (negb _).
    - rewrite timer_stop_eq. st. intuition congruence.
    - intuition congruence. }
  destruct X as (Xz & Xd & Xp & Xt & Xh & Xwh & Xwl).
  rewrite Fp, Fz.
  destruct (Z.ltb_spec (prio_head s) (prio_size s)) as [A|A]; cbn [andb].
  - rewrite Xp. destruct (Z.ltb_spec (prio_head s) 2) as [B|B]; cbn [negb].
    + intros E. apply do_spi_filter_book in E; st; try assumption.
      destruct E as (E1 & E2 & E3 & E4 & E5).
      rewrite E1, E2, E3, E4, E5, Xz, Xd, Xt, Xh.
      rewrite u16_small by lia. repeat split.
    + rewrite Xd, Xh. destruct (prio_dest s) as [p|].
      * destruct (store (heap s p) (prio_head s) read) as [d| |] eqn:S;
          try discriminate.
        apply store_inv in S. subst d. cbn [bind]. intros E.
        apply Ret_inj in E. subst s'. st.
        rewrite Xz, Xd, Xt, Xp, u16_small by lia. repeat split.
      * cbn [bind]. intros E. apply Ret_inj in E. subst s'. st.
        rewrite Xz, Xd, Xt, Xp, Xh, u16_small by lia. repeat split.
  - intros E. apply do_spi_filter_book in E; try congruence.
    destruct E as (E1 & E2 & E3 & E4 & E5).
    rewrite E1, E2, E3, E4, E5, Fz, Fd, Ft, Fp, Fh. repeat split.
Qed.

(** Everything a tick does to the transmit side and the bookkeeping when
    no watermark is set. *)
Lemma do_spi_quiet_facts read s :
  quiet s ->
  exists s',
    do_spi read s = Ret s' /\ quiet s' /\
    wire s' = wire s ++ [hd 0 (unsent s)] /\ unsent s' = tl (unsent s) /\
    prio_size s' = prio_size s /\ prio_dest s' = prio_dest s /\
    timer s' = timer s /\ prio_head s' = prio_head_after s /\
    heap s' = heap_after s read.
Proof.
  intros Q. destruct (do_spi_quiet read s Q) as (s' & E & Q').
  exists s'. split; [exact E|]. split; [exact Q'|].
  destruct Q as ((Hi & Hl & Hn & Hh & Hs) & H & L & P0 & Pz & Hd).
  split; [exact (do_spi_sends _ _ _ E)|].
  destruct (do_spi_rest _ _ _ E) as (_ & O).
  destruct (O H L) as (Oo & Oz & Oh).
  pose proof (tick_frame_exchanged s) as F. unfold tick_frame in F.
  destruct F as (_ & _ & _ & _ & _ & _ & _ & Fo & Fz & _).
  split.
  - apply unsent_exchanged; try assumption; congruence.
  - destruct (do_spi_book read s s' H L P0 Pz E) as (A & B & C & D & G).
    tauto.
Qed.

(** ** What the engine leaves alone *)

Lemma config_frame_refl s : config_frame s s.
Proof. unfold config_frame. tauto. Qed.

Lemma config_frame_trans s1 s2 s3 :
  config_frame s1 s2 -> config_frame s2 s3 -> config_frame s1 s3.
Proof.
  unfold config_frame. intros (A & B & C & D) (A' & B' & C' & D').
  repeat split; congruence.
Qed.

Lemma config_frame_enqueued o size dest irq s :
  config_frame s (enqueued o size dest irq s).
Proof.
  unfold enqueued. rewrite unlock_eq, lock_eq. unfold config_frame. st.
  repeat split.
Qed.

Lemma config_frame_exchanged s : config_frame s (exchanged s).
Proof.
  unfold exchanged. rewrite timer_start_eq. unfold writeBlocking_cardSPI.
  destruct (out_head s <? out_size s); unfold config_frame; st;
    repeat split.
Qed.

Lemma do_spi_watermarks_config s s' :
  do_spi_watermarks s = Ret s' -> config_frame s s'.
Proof.
  unfold do_spi_watermarks.
  destruct ((0 <? water_high s) && (water_high s <=? in_size s + 1)
            && negb (water_send s)).
  - destruct (send_watermark true s) as [s2| |] eqn:E1; try discriminate.
    cbn [bind]. destruct (send_watermark_inv _ _ _ E1) as (o & ->).
    set (s3 := set_water_send true _).
    assert (F3 : config_frame s s3)
      by (apply (config_frame_enqueued o 3 None 0 s)).
    destruct ((0 <? water_low s3) && (in_size s3 + 1 <=? water_low s3)
              && water_send s3).
    + destruct (send_watermark false s3) as [s4| |] eqn:E2; try discriminate.
      cbn [bind]. destruct (send_watermark_inv _ _ _ E2) as (o' & ->).
      intros E. apply Ret_inj in E. subst s'.
      apply (config_frame_trans _ _ _ F3).
      apply (config_frame_enqueued o' 3 None 0 s3).
    + intros E. apply Ret_inj in E. subst s'. exact F3.
  - cbn [bind].
    destruct ((0 <? water_low s) && (in_size s + 1 <=? water_low s)
              && water_send s).
    + destruct (send_watermark false s) as [s4| |] eqn:E2; try discriminate.
      cbn [bind]. destruct (send_watermark_inv _ _ _ E2) as (o' & ->).
      intros E. apply Ret_inj in E. subst s'.
      apply (config_frame_enqueued o' 3 None 0 s).
    + intros E. apply Ret_inj in E. subst s'. apply config_frame_refl.
Qed.

Lemma do_spi_add_config read s s' :
  do_spi_add read s = Ret s' -> config_frame s s'.
Proof.
  unfold do_spi_add.
  destruct (in_size s =? UART_IN_SIZE).
  - destruct (memmove _ _ _ _) as [b| |]; try discriminate. cbn [bind].
    st. destruct (store _ _ _) as [b'| |]; try discriminate. cbn [bind].
    intros E. apply Ret_inj in E. subst s'. unfold config_frame. st.
    repeat split.
  - cbn [bind].
    destruct (store _ _ _) as [b'| |]; try discriminate. cbn [bind].
    intros E. apply Ret_inj in E. subst s'. unfold config_frame. st.
    repeat split.
Qed.

Lemma do_spi_append_config read s s' :
  do_spi_append read s = Ret s' -> config_frame s s'.
Proof.
  unfold do_spi_append.
  destruct (do_spi_watermarks s) as [s1| |] eqn:E1; try discriminate.
  cbn [bind]. intros E2.
  apply (config_frame_trans _ s1); [apply do_spi_watermarks_config; exact E1|].
  apply (do_spi_add_config read). exact E2.
Qed.

Lemma do_spi_filter_config read s s' :
  do_spi_filter read s = Ret s' -> config_frame s s'.
Proof.
  unfold do_spi_filter.
  destruct (negb (got_esc s) && (read =? 92)).
  - intros E. apply Ret_inj in E. subst s'. unfold config_frame. st.
    repeat split.
  - destruct (got_esc s).
    + intros E. apply do_spi_append_config in E. exact E.
    + destruct ((read =? 0) || (read =? 255)).
      * intros E. apply Ret_inj in E. subst s'. apply config_frame_refl.
      * apply do_spi_append_config.
Qed.

Lemma do_spi_config read s s' :
  do_spi read s = Ret s' -> config_frame s s'.
Proof.
  unfold do_spi.
  destruct (do_spi_exchange s) as [s1| |] eqn:E1; try discriminate.
  cbn [bind]. apply do_spi_exchange_eq in E1. subst s1.
  pose proof (config_frame_exchanged s) as F1.
  set (s1 := exchanged s) in *.
  set (s2 := if negb (Z.land (prio_irq_bytes s1)
                        (shl1 (prio_size s1 - prio_head s1 - 2)) =? 0)
             then timer_stop s1 else s1).
  assert (F2 : config_frame s s2).
  { subst s2. destruct (negb _); [rewrite timer_stop_eq|]; exact F1. }
  destruct (prio_head s1 <? prio_size s1).
  - destruct (prio_head s2 <? 2).
    + intros E. apply do_spi_filter_config in E.
      apply (config_frame_trans _ _ _ F2). exact E.
    + destruct (prio_dest s2) as [p|].
      * destruct (store _ _ _) as [d| |]; try discriminate. cbn [bind].
        intros E. apply Ret_inj in E. subst s'. exact F2.
      * cbn [bind]. intros E. apply Ret_inj in E. subst s'. exact F2.
  - intros E. apply do_spi_filter_config in E.
    apply (config_frame_trans _ _ _ F1). exact E.
Qed.

Lemma run_irqs_config rx : forall s s',
  run_irqs rx s = Ret s' -> config_frame s s'.
Proof.
  induction rx as [|b rx IH]; intros s s'; cbn [run_irqs].
  - intros E. apply Ret_inj in E. subst s'. apply config_frame_refl.
  - destruct (do_spi b s) as [s1| |] eqn:E1; try discriminate. cbn [bind].
    intros E. apply (config_frame_trans _ s1).
    + apply (do_spi_config b). exact E1.
    + apply IH. exact E.
Qed.

(** X1.  The interrupt handler keeps its hands off the configuration: however
    many bytes it exchanges, whatever they are and whatever the watermarks
    and the priority state, the timer chosen by uart_init, the retry
    budget, the installed handlers and the state of the link are the same
    afterwards. *)
Theorem engine_keeps_configuration (rx : list Z) (s s' : state) :
  run_irqs rx s = Ret s' ->
  timer s' = timer s /\ inittimeout s' = inittimeout s /\
  irq_table s' = irq_table s /\ card_spi s' = card_spi s.
Proof. apply run_irqs_config. Qed.

(** Two ticks that raise a high-water notice on the way. *)
Lemma engine_keeps_configuration_witness :
  exists s',
    run_irqs [65; 66] (set_timer 3 rising) = Ret s' /\ timer s' = 3 /\
    inittimeout s' = 10.
Proof.
  assert (R : exists s', run_irqs [65; 66] (set_timer 3 rising) = Ret s')
    by (eexists; vm_compute; reflexivity).
  destruct R as (s' & R). exists s'. split; [exact R|].
  destruct (engine_keeps_configuration _ _ _ R) as (T & I & _).
  split; [exact T|exact I].
Defined.

(** ** A priority frame from queueing to completion *)

Lemma len_stored' (a : list Z) (i v : Z) :
  0 <= i < len a -> len (stored a i v) = len a.
Proof. apply len_stored. Qed.

(** The ticks that carry the rest of an active frame. *)
Lemma run_irqs_frame rx : forall s p,
  quiet s -> prio_dest s = Some p ->
  prio_head s + len rx <= prio_size s ->
  exists s',
    run_irqs rx s = Ret s' /\ quiet s' /\
    prio_head s' = prio_head s + len rx /\ prio_size s' = prio_size s /\
    prio_dest s' = Some p /\ timer s' = timer s /\
    heap s' p = reply_written (heap s p) (prio_head s) rx /\
    (forall q, q <> p -> heap s' q = heap s q) /\
    wire s' = wire s ++ next_sent (length rx) (unsent s) /\
    unsent s' = skipn (length rx) (unsent s).
Proof.
  induction rx as [|b rx IH]; intros s p Q Hd Hk.
  - exists s. cbn [run_irqs length next_sent reply_written skipn].
    unfold len. cbn [length]. rewrite Z.add_0_r, app_nil_r.
    split; [reflexivity|]. split; [exact Q|]. repeat split. exact Hd.
  - destruct (do_spi_quiet_facts b s Q)
      as (s1 & E & Q1 & W1 & U1 & Z1 & D1 & T1 & P1 & H1).
    assert (Lc : len (b :: rx) = 1 + len rx) by (unfold len; cbn [length]; lia).
    pose proof (len_nonneg rx) as Ln.
    assert (A : (prio_head s <? prio_size s) = true) by (apply Z.ltb_lt; lia).
    unfold prio_head_after in P1. unfold heap_after in H1.
    rewrite A in P1, H1. cbn [andb] in H1.
    destruct (IH s1 p Q1) as
      (s' & E' & Q' & P' & Z' & D' & T' & H' & O' & W' & U').
    { congruence. }
    { rewrite P1, Z1. lia. }
    exists s'. cbn [run_irqs]. rewrite E. cbn [bind].
    split; [exact E'|]. split; [exact Q'|].
    split; [rewrite P', P1; lia|]. split; [congruence|].
    split; [exact D'|]. split; [congruence|].
    split; [|split; [|split]].
    + rewrite H', P1, H1, Hd. cbn [reply_written].
      destruct (prio_head s <? 2); cbn [negb].
      * reflexivity.
      * unfold updn. rewrite Nat.eqb_refl. reflexivity.
    + intros q Hq. rewrite (O' q Hq), H1, Hd.
      destruct (negb (prio_head s <? 2)); [|reflexivity].
      unfold updn. destruct (Nat.eqb_spec q p); [contradiction|reflexivity].
    + rewrite W', W1, U1, <- app_assoc. reflexivity.
    + rewrite U', U1. cbn [length]. rewrite skipn_S_tl.
      clear. revert rx. generalize (unsent s). intros l rx.
      revert l. induction (length rx) as [|n IHn]; intros l; [reflexivity|].
      rewrite !skipn_S_tl, IHn. reflexivity.
Qed.

Lemma uart_wait_prio_loop_done timeout start env s :
  prio_head s = prio_size s ->
  uart_wait_prio_loop timeout start env s
  = Ret (set_prio_head 0 (set_prio_size 0 s), true, env).
Proof.
  intros E. destruct env; cbn [uart_wait_prio_loop];
    rewrite E, Z.eqb_refl; reflexivity.
Qed.

Lemma skipn_app_length (a b : list Z) : skipn (length a) (a ++ b) = b.
Proof. apply skipn_app_exact. reflexivity. Qed.

(** The state in which uart_write_prio leaves a well-formed state with
    the watermarks off is fit for any number of ticks. *)
Lemma quiet_enqueued frame rest size p irq s :
  wf s -> water_high s = 0 -> water_low s = 0 ->
  len frame = size -> size <= len (heap s p) -> size < 65536 ->
  size + out_size s - out_head s <= OUT_CAP ->
  len (frame ++ unsent s ++ rest) = OUT_CAP ->
  quiet (enqueued (frame ++ unsent s ++ rest) size (Some p) irq s).
Proof.
  intros (Hi & Hl & Hn & Hh & Hs) H L Lf Lp Hz Hf Lo.
  destruct (out_enqueued (frame ++ unsent s ++ rest) size (Some p) irq s)
    as (Eo & Eh & Ez & _).
  destruct (prio_enqueued (frame ++ unsent s ++ rest) size (Some p) irq s)
    as (Pd & Ph & Pz & _).
  destruct (prio_frame_enqueued (frame ++ unsent s ++ rest) size (Some p)
              irq s) as (Eb & En & _ & Ehp & Ewh & Ewl & _).
  pose proof (len_nonneg frame).
  rewrite u16_small in Ez by (consts; lia).
  unfold quiet, wf.
  rewrite Eb, En, Eo, Eh, Ez, Ewh, Ewl, Ph, Pz, Pd, Ehp.
  repeat split; try assumption; try lia.
  intros q Hq. injection Hq as <-. exact Lp.
Qed.

Lemma uart_prio_round (buf rx : list Z) (size : Z) (p : nat)
        (irq_bytes t : Z) (env : list slice) (s : state) :
  wf s -> water_high s = 0 -> water_low s = 0 ->
  1 <= size <= len buf -> size <= len (heap s p) ->
  size + out_size s - out_head s <= OUT_CAP -> len rx = size ->
  exists s1 s2,
    uart_write_prio buf size (Some p) irq_bytes s = Ret s1 /\
    uart_wait_prio 0 (mkSlice rx t :: env) s1 = Ret (s2, true, env) /\
    wire s2 = wire s ++ firstn (Z.to_nat size) buf /\
    unsent s2 = unsent s /\
    heap s2 p = reply_written (heap s p) 0 rx /\
    (forall q, q <> p -> heap s2 q = heap s q) /\
    prio_size s2 = 0 /\ prio_head s2 = 0 /\
    quiet s2 /\ config_frame s s2.
Proof.
  intros W H L Hz Lp Hf Lr. pose proof W as (Hi & Hl & Hn & Hh & Hs).
  rewrite uart_write_prio_fits by (try assumption; lia).
  set (frame := firstn (Z.to_nat size) buf).
  set (rest := skipn (Z.to_nat (size + (out_size s - out_head s))) (out s)).
  assert (Lf : len frame = size) by (subst frame; apply len_firstn; lia).
  pose proof (len_unsent s Hl Hh Hs) as Lu.
  assert (Lo : len (frame ++ unsent s ++ rest) = OUT_CAP).
  { subst rest. rewrite !len_app, Lf, Lu, len_skipn; lia. }
  assert (Hz' : size < 65536) by (consts; lia).
  pose proof (quiet_enqueued frame rest size p irq_bytes s
                W H L Lf Lp Hz' Hf Lo) as Q.
  assert (U : unsent (enqueued (frame ++ unsent s ++ rest) size (Some p)
                        irq_bytes s) = frame ++ unsent s).
  { apply unsent_enqueued; try assumption. consts. lia. }
  destruct (prio_enqueued (frame ++ unsent s ++ rest) size (Some p)
              irq_bytes s) as (Pd & Ph & Pz & _).
  destruct (prio_frame_enqueued (frame ++ unsent s ++ rest) size (Some p)
              irq_bytes s) as (_ & _ & _ & Ehp & _ & _ & _ & Ew).
  set (s1 := enqueued (frame ++ unsent s ++ rest) size (Some p) irq_bytes s)
    in *.
  destruct (run_irqs_frame rx s1 p Q Pd) as
    (s' & E' & Q' & P' & Z' & D' & T' & H' & O' & W' & U').
  { rewrite Ph, Pz. lia. }
  exists s1. eexists. split; [reflexivity|]. split.
  - unfold uart_wait_prio. cbn [uart_wait_prio_loop].
    rewrite Ph, Pz. destruct (Z.eqb_spec 0 size); [lia|].
    unfold pass. cbn [irqs now]. rewrite E'. cbn [bind orb Z.eqb].
    apply uart_wait_prio_loop_done. st. rewrite P', Z', Ph, Pz. lia.
  - st. assert (Lrx : length rx = length frame) by (unfold len in *; lia).
    change (unsent (set_prio_head 0 (set_prio_size 0 (set_rtc t s'))))
      with (unsent s').
    rewrite Ehp, Ph in H'.
    rewrite W', U', U, Ew, Lrx, next_sent_app, skipn_app_length.
    split; [reflexivity|]. split; [reflexivity|]. split; [exact H'|].
    split; [intros q Hq; rewrite (O' q Hq), Ehp; reflexivity|].
    split; [reflexivity|]. split; [reflexivity|]. split.
    + destruct Q' as (Wq & Hq & Lq & _).
      unfold quiet. st. split; [exact Wq|]. split; [exact Hq|].
      split; [exact Lq|]. split; [lia|]. split; [lia|].
      intros q _. apply len_nonneg.
    + apply (config_frame_trans _ s1).
      * apply config_frame_enqueued.
      * apply (config_frame_trans _ s').
        -- apply (run_irqs_config rx). exact E'.
        -- unfold config_frame. st. repeat split.
Qed.



(** One version request on a well-formed state with the watermarks off. *)
Lemma uart_firmware_ver_round (msg : nat) (a b v t : Z)
        (env : list slice) (s : state) :
  wf s -> water_high s = 0 -> water_low s = 0 ->
  3 + out_size s - out_head s <= OUT_CAP ->
  exists s',
    uart_firmware_ver msg (mkSlice [a; b; v] t :: env) s = Ret (s', v, env) /\
    wire s' = wire s ++ [92; 118; 0] /\ unsent s' = unsent s /\
    heap s' msg = [92; 118; v] /\
    (forall q, q <> msg -> heap s' q = heap s q) /\
    quiet s' /\ config_frame s s'.
Proof.
  intros W H L Hf. unfold uart_firmware_ver. cbv zeta.
  set (s0 := set_heap (updn (heap s) msg [92; 118; 0]) s).
  assert (Hm : heap s0 msg = [92; 118; 0]).
  { subst s0. st. unfold updn. rewrite Nat.eqb_refl. reflexivity. }
  destruct (uart_prio_round (heap s0 msg) [a; b; v] 3 msg 0 t env s0)
    as (s1 & s2 & E1 & E2 & Ew & Eu & Eh & Eo & _ & _ & Q2 & F2);
    try assumption.
  - rewrite Hm. unfold len. cbn [length]. lia.
  - rewrite Hm. unfold len. cbn [length]. lia.
  - reflexivity.
  - rewrite E1. cbn [bind]. rewrite E2. cbn [bind].
    rewrite Hm in Eh, Ew.
    assert (Eh' : heap s2 msg = [92; 118; v]) by (rewrite Eh; reflexivity).
    rewrite Eh'. change (load [92; 118; v] 2) with (Ret v). cbn [bind].
    exists s2. split; [reflexivity|]. split; [exact Ew|].
    split; [exact Eu|]. split; [exact Eh'|].
    split; [|split; [exact Q2|exact F2]].
    intros q Hq. rewrite (Eo q Hq). subst s0. st. unfold updn.
    destruct (Nat.eqb_spec q msg); [contradiction|reflexivity].
Qed.

(** X3.  With the watermarks off, room for the frame in the queue, and
    exactly three exchanges taking place while it waits, uart_firmware_ver
    returns the byte received in the third exchange, whatever the first
    two bring, after transmitting its three frame bytes; what was waiting
    in the queue is still waiting. *)
Theorem uart_firmware_ver_reply (msg : nat) (a b v t : Z)
        (env : list slice) (s : state) :
  wf s -> water_high s = 0 -> water_low s = 0 ->
  3 + out_size s - out_head s <= OUT_CAP ->
  exists s',
    uart_firmware_ver msg (mkSlice [a; b; v] t :: env) s = Ret (s', v, env) /\
    wire s' = wire s ++ [92; 118; 0] /\ unsent s' = unsent s /\
    heap s' msg = [92; 118; v] /\
    (forall q, q <> msg -> heap s' q = heap s q).
Proof.
  intros W H L Hf.
  destruct (uart_firmware_ver_round msg a b v t env s W H L Hf)
    as (s' & E & Ew & Eu & Eh & Eo & _).
  exists s'. split; [exact E|]. split; [exact Ew|]. split; [exact Eu|].
  split; [exact Eh|exact Eo].
Qed.

Lemma uart_firmware_ver_reply_witness :
  exists s',
    uart_firmware_ver 0%nat [mkSlice [0; 0; 17] 0] boot = Ret (s', 17, []) /\
    wire s' = [92; 118; 0].
Proof.
  destruct (uart_firmware_ver_reply 0%nat 0 0 17 0 [] boot)
    as (s' & E & W & _).
  - exact wf_boot.
  - reflexivity.
  - reflexivity.
  - vm_compute. discriminate.
  - exists s'. split; [exact E|exact W].
Defined.

Lemma byte_of_land (x : Z) : Z.land x 255 = x mod 256.
Proof. change 255 with (Z.ones 8). apply Z.land_ones. lia. Qed.

(** X4.  With the watermarks off, room for the frame in the queue, and
    exactly six exchanges taking place while it waits, uart_set_bps sends
    the rate as four bytes, most significant first, behind the two header
    bytes: the frame transmitted is 0x5C, 'b' and four bytes below 256
    whose big-endian value is the rate.  The call returns after the six
    exchanges and leaves the waiting bytes in the queue. *)
Theorem uart_set_bps_frame (msg : nat) (bps t : Z) (rx : list Z)
        (env : list slice) (s : state) :
  wf s -> water_high s = 0 -> water_low s = 0 ->
  6 + out_size s - out_head s <= OUT_CAP -> len rx = 6 ->
  0 <= bps < 2 ^ 32 ->
  exists s' b3 b2 b1 b0,
    uart_set_bps msg bps (mkSlice rx t :: env) s = Ret (s', env) /\
    wire s' = wire s ++ [92; 98; b3; b2; b1; b0] /\
    0 <= b3 < 256 /\ 0 <= b2 < 256 /\ 0 <= b1 < 256 /\ 0 <= b0 < 256 /\
    bps = b3 * 2 ^ 24 + b2 * 2 ^ 16 + b1 * 2 ^ 8 + b0 /\
    unsent s' = unsent s.
Proof.
  intros W H L Hf Lr Hb. unfold uart_set_bps. cbv zeta.
  set (m := [92; 98; Z.land (Z.shiftr bps 24) 255;
             Z.land (Z.shiftr bps 16) 255; Z.land (Z.shiftr bps 8) 255;
             Z.land bps 255]).
  set (s0 := set_heap (updn (heap s) msg m) s).
  assert (Hm : heap s0 msg = m).
  { subst s0. st. unfold updn. rewrite Nat.eqb_refl. reflexivity. }
  destruct (uart_prio_round (heap s0 msg) rx 6 msg 0 t env s0)
    as (s1 & s2 & E1 & E2 & Ew & Eu & _).
  - exact W.
  - exact H.
  - exact L.
  - rewrite Hm. subst m. unfold len. cbn [length]. lia.
  - rewrite Hm. subst m. unfold len. cbn [length]. lia.
  - exact Hf.
  - exact Lr.
  - rewrite E1. cbn [bind]. rewrite E2. cbn [bind].
    exists s2, (Z.land (Z.shiftr bps 24) 255), (Z.land (Z.shiftr bps 16) 255),
      (Z.land (Z.shiftr bps 8) 255), (Z.land bps 255).
    split; [reflexivity|]. split; [rewrite Ew, Hm; reflexivity|].
    rewrite !byte_of_land, !Z.shiftr_div_pow2 by lia.
    change (2 ^ 32) with 4294967296 in Hb.
    change (2 ^ 24) with 16777216. change (2 ^ 16) with 65536.
    change (2 ^ 8) with 256.
    repeat split; try exact Eu;
      Z.to_euclidean_division_equations; lia.
Qed.

Lemma uart_set_bps_frame_witness :
  exists s',
    uart_set_bps 0%nat 31250 [mkSlice [0; 0; 0; 0; 0; 0] 0] boot
    = Ret (s', []) /\
    wire s' = [92; 98; 0; 0; 122; 18].
Proof.
  destruct (uart_set_bps_frame 0%nat 31250 0 [0; 0; 0; 0; 0; 0] [] boot)
    as (s' & b3 & b2 & b1 & b0 & E & W & _).
  - exact wf_boot.
  - reflexivity.
  - reflexivity.
  - vm_compute. discriminate.
  - reflexivity.
  - lia.
  - exists s'. split; [exact E|].
    assert (E' : exists s'', uart_set_bps 0%nat 31250
                   [mkSlice [0; 0; 0; 0; 0; 0] 0] boot = Ret (s'', [])
                 /\ wire s'' = [92; 98; 0; 0; 122; 18]).
    { eexists. split; [vm_compute; reflexivity|reflexivity]. }
    destruct E' as (s'' & E'' & W'').
    rewrite E in E''. apply Ret_inj in E''. injection E'' as <-. exact W''.
Defined.

(** ** Transmission in queue order *)

Lemma skipn_tl_comm (l : list Z) (n : nat) : skipn n (tl l) = tl (skipn n l).
Proof.
  revert l. induction n as [|n IH]; intros l; [reflexivity|].
  rewrite !skipn_S_tl, IH. reflexivity.
Qed.

(** Any number of ticks on a state with the watermarks off. *)
Lemma run_irqs_sends rx : forall s,
  quiet s ->
  exists s',
    run_irqs rx s = Ret s' /\ quiet s' /\
    wire s' = wire s ++ next_sent (length rx) (unsent s) /\
    unsent s' = skipn (length rx) (unsent s) /\
    prio_size s' = prio_size s /\ timer s' = timer s /\
    (prio_idle s -> prio_head s' = prio_head s /\ heap s' = heap s).
Proof.
  induction rx as [|b rx IH]; intros s Q.
  - exists s. cbn [run_irqs length next_sent skipn]. rewrite app_nil_r.
    split; [reflexivity|]. split; [exact Q|]. repeat split.
  - destruct (do_spi_quiet_facts b s Q)
      as (s1 & E & Q1 & W1 & U1 & Z1 & D1 & T1 & P1 & H1).
    destruct (IH s1 Q1) as (s' & E' & Q' & W' & U' & Z' & T' & I').
    exists s'. cbn [run_irqs]. rewrite E. cbn [bind].
    split; [exact E'|]. split; [exact Q'|].
    split; [rewrite W', W1, U1, <- app_assoc; reflexivity|].
    split; [rewrite U', U1; cbn [length]; rewrite skipn_S_tl;
            apply skipn_tl_comm|].
    split; [congruence|]. split; [congruence|].
    intros Hidle. unfold prio_idle in Hidle.
    assert (A : (prio_head s <? prio_size s) = false)
      by (apply Z.ltb_ge; exact Hidle).
    unfold prio_head_after in P1. unfold heap_after in H1.
    rewrite A in P1, H1. cbn [andb] in H1.
    destruct I' as (Ip & Ih).
    { unfold prio_idle. rewrite Z1, P1. exact Hidle. }
    split; congruence.
Qed.

(** X5.  The bytes leave in queue order: after n ticks the wire has gained the
    n bytes at the front of the queue, an idle 0x00 standing for each tick
    that found the queue empty, and the queue has lost them.  With the
    watermarks off this holds whatever is received, and every access of
    the ticks stays inside the arrays. *)
Theorem transmit_in_order (rx : list Z) (s : state) :
  quiet s ->
  exists s',
    run_irqs rx s = Ret s' /\ quiet s' /\
    wire s' = wire s ++ next_sent (length rx) (unsent s) /\
    unsent s' = skipn (length rx) (unsent s).
Proof.
  intros Q. destruct (run_irqs_sends rx s Q) as (s' & E & Q' & W & U & _).
  exists s'. split; [exact E|]. split; [exact Q'|].
  split; [exact W|exact U].
Qed.

Lemma quiet_queued2 : quiet queued2.
Proof.
  unfold quiet, wf. vm_compute.
  repeat split; try discriminate; try reflexivity.
Qed.

(** Three ticks on a queue of two bytes: both go out, then an idle byte. *)
Lemma transmit_in_order_witness :
  exists s',
    run_irqs [7; 8; 9] queued2 = Ret s' /\
    wire s' = [65; 66; 0] /\ unsent s' = [].
Proof.
  destruct (transmit_in_order [7; 8; 9] queued2 quiet_queued2)
    as (s' & E & _ & W & U).
  exists s'. split; [exact E|]. split; [exact W|exact U].
Defined.

(** ** uart_write on any buffer *)

Lemma len_escaped (b : Z) : 1 <= len (escaped b) <= 2.
Proof.
  unfold escaped. destruct ((b =? 0) || (b =? 92)); unfold len;
    cbn [length]; lia.
Qed.

(** One round of the loop of uart_write: it stops when the wire form of
    the byte does not fit, and appends the wire form otherwise. *)
Lemma uart_write_loop_step buf n i ret s b :
  load buf i = Ret b -> len (out s) = OUT_CAP -> 0 <= out_size s ->
  (UART_OUT_SIZE < out_size s + len (escaped b) /\
   uart_write_loop buf (S n) i ret s = Ret (s, ret)) \/
  (out_size s + len (escaped b) <= UART_OUT_SIZE /\
   exists o,
     len o = OUT_CAP /\
     firstn (Z.to_nat (out_size s + len (escaped b))) o
     = firstn (Z.to_nat (out_size s)) (out s) ++ escaped b /\
     uart_write_loop buf (S n) i ret s
     = uart_write_loop buf n (u16 (i + 1)) (u16 (ret + 1))
         (set_out_size (out_size s + len (escaped b)) (set_out o s))).
Proof.
  intros Eb Hl Hz. cbn [uart_write_loop]. rewrite Eb. cbn [bind].
  unfold escaped. consts.
  destruct (Z.eqb_spec b 0) as [Z0|Z0]; cbn [orb].
  - change (len [92; b]) with 2.
    destruct (Z.ltb_spec 256 (out_size s + 2)); [left; split; [lia|reflexivity]|].
    right. split; [lia|].
    rewrite store_Ret by lia. cbn [bind].
    rewrite store_Ret by (rewrite len_stored; lia). cbn [bind].
    rewrite (u16_small (out_size s + 2)) by lia.
    eexists. split; [|split; [|reflexivity]].
    + rewrite !len_stored; try lia. rewrite len_stored; lia.
    + rewrite firstn_stored2 by lia. rewrite Z0. reflexivity.
  - destruct (Z.eqb_spec b 92) as [Z9|Z9].
    + change (len [92; b]) with 2.
      destruct (Z.ltb_spec 256 (out_size s + 2)); [left; split; [lia|reflexivity]|].
      right. split; [lia|].
      rewrite store_Ret by lia. cbn [bind].
      rewrite store_Ret by (rewrite len_stored; lia). cbn [bind].
      rewrite (u16_small (out_size s + 2)) by lia.
      eexists. split; [|split; [|reflexivity]].
      * rewrite !len_stored; try lia. rewrite len_stored; lia.
      * rewrite firstn_stored2 by lia. rewrite Z9. reflexivity.
    + change (len [b]) with 1.
      destruct (Z.ltb_spec 256 (out_size s + 1)); [left; split; [lia|reflexivity]|].
      right. split; [lia|].
      rewrite store_Ret by lia. cbn [bind].
      rewrite (u16_small (out_size s + 1)) by lia.
      eexists. split; [|split; [|reflexivity]].
      * rewrite len_stored; lia.
      * rewrite inbound_stored by lia. reflexivity.
Qed.

Lemma skipn_nth_cons (l : list Z) : forall n,
  (n < length l)%nat -> skipn n l = nth n l 0 :: skipn (S n) l.
Proof.
  induction l as [|x l IH]; intros n H; cbn [length] in H; [lia|].
  destruct n as [|n]; [reflexivity|].
  cbn [skipn nth]. apply IH. lia.
Qed.

Lemma len_concat_escaped (l : list Z) :
  len (concat (map escaped l)) <= 2 * len l.
Proof.
  induction l as [|x l IH]; [unfold len; cbn; lia|].
  cbn [map concat]. rewrite len_app. pose proof (len_escaped x).
  unfold len in *. cbn [length]. lia.
Qed.

(** The loop of uart_write from index [i] on. *)
Lemma uart_write_loop_spec buf : forall n i s,
  len (out s) = OUT_CAP -> 0 <= out_size s <= OUT_CAP ->
  0 <= i -> i + Z.of_nat n <= len buf -> i + Z.of_nat n < 65536 ->
  exists o z ret,
    uart_write_loop buf n i i s = Ret (set_out_size z (set_out o s), ret) /\
    i <= ret <= i + Z.of_nat n /\ len o = OUT_CAP /\
    out_size s <= z /\ (z <= UART_OUT_SIZE \/ z = out_size s) /\
    firstn (Z.to_nat z) o
    = firstn (Z.to_nat (out_size s)) (out s)
      ++ concat (map escaped (firstn (Z.to_nat (ret - i))
                                     (skipn (Z.to_nat i) buf))) /\
    (ret < i + Z.of_nat n ->
     UART_OUT_SIZE < z + len (escaped (nth (Z.to_nat ret) buf 0))).
Proof.
  induction n as [|n IH]; intros i s Hl Hz Hi Hb Hw.
  - exists (out s), (out_size s), i. cbn [uart_write_loop].
    split; [reflexivity|]. split; [lia|]. split; [exact Hl|].
    split; [lia|]. split; [right; reflexivity|].
    rewrite Z.sub_diag. cbn [Z.to_nat firstn map concat].
    rewrite app_nil_r. split; [reflexivity|lia].
  - assert (Eb : load buf i = Ret (nth (Z.to_nat i) buf 0))
      by (apply load_Ret; lia).
    set (b := nth (Z.to_nat i) buf 0) in *.
    destruct (uart_write_loop_step buf n i i s b Eb Hl (proj1 Hz))
      as [(Hfull & E)|(Hroom & o1 & Lo & Fo & E)].
    + exists (out s), (out_size s), i. rewrite E.
      split; [reflexivity|]. split; [lia|]. split; [exact Hl|].
      split; [lia|]. split; [right; reflexivity|].
      rewrite Z.sub_diag. cbn [Z.to_nat firstn map concat].
      rewrite app_nil_r. split; [reflexivity|]. intros _. exact Hfull.
    + pose proof (len_escaped b) as Le.
      set (s1 := set_out_size (out_size s + len (escaped b)) (set_out o1 s))
        in *.
      rewrite (u16_small (i + 1)) in E by lia.
      destruct (IH (i + 1) s1) as (o & z & ret & E' & Hr & Lo' & Hz' & Hc & Fz & Hstop).
      * exact Lo.
      * subst s1. st. consts. lia.
      * lia.
      * lia.
      * lia.
      * subst s1. st. exists o, z, ret. rewrite E.
        split; [exact E'|]. split; [lia|]. split; [exact Lo'|].
        split; [lia|]. split; [left; consts; lia|].
        split.
        -- rewrite Fz, Fo, <- app_assoc. f_equal.
           replace (Z.to_nat (ret - i)) with (S (Z.to_nat (ret - (i + 1))))
             by lia.
           rewrite (skipn_nth_cons buf (Z.to_nat i)) by (unfold len in Hb; lia).
           cbn [firstn map concat]. fold b.
           replace (Z.to_nat (i + 1)) with (S (Z.to_nat i)) by lia.
           reflexivity.
        -- intros Hlt. apply Hstop. lia.
Qed.

(** The compaction at the start of uart_write. *)
Lemma uart_write_compacts_eq s :
  len (out s) = OUT_CAP -> 0 <= out_head s <= out_size s ->
  out_size s <= OUT_CAP ->
  exists o,
    (if 0 <? out_head s
     then o <- memmove (out s) 0 (out_head s) (out_size s - out_head s) ;;
          Ret (set_out_head 0
                 (set_out_size (u16 (out_size s - out_head s))
                    (set_out o s)))
     else Ret s)
    = Ret (set_out_head 0
             (set_out_size (out_size s - out_head s) (set_out o s))) /\
    len o = OUT_CAP /\
    firstn (Z.to_nat (out_size s - out_head s)) o = unsent s.
Proof.
  intros Hl Hh Hs. consts.
  destruct (Z.ltb_spec 0 (out_head s)).
  - rewrite memmove_Ret by lia. cbn [bind]. rewrite u16_small by lia.
    eexists. split; [reflexivity|]. split.
    + rewrite len_moved; lia.
    + change (Z.to_nat 0) with O. cbn [firstn app].
      rewrite firstn_app_exact; [reflexivity|].
      rewrite length_firstn, length_skipn. unfold len in Hl. lia.
  - assert (H0 : out_head s = 0) by lia.
    exists (out s). split; [|split; [exact Hl|]].
    + f_equal. rewrite H0, Z.sub_0_r.
      transitivity (set_out_head (out_head s) s); [reflexivity|].
      rewrite H0. reflexivity.
    + unfold unsent. rewrite H0. reflexivity.
Qed.

(** uart_write on a well-formed state: the state it leaves, the count,
    and the content of the queue. *)
Lemma uart_write_eq buf size s :
  wf s -> 0 <= size <= len buf -> size < 65536 ->
  exists o z r ret,
    uart_write buf size s
    = Ret (set_REG_IE r (set_out_head 0 (set_out_size z (set_out o s))),
           ret) /\
    0 <= ret <= size /\ len o = OUT_CAP /\ 0 <= z <= OUT_CAP /\
    firstn (Z.to_nat z) o
    = unsent s ++ concat (map escaped (firstn (Z.to_nat ret) buf)) /\
    (ret < size ->
     UART_OUT_SIZE < z + len (escaped (nth (Z.to_nat ret) buf 0))) /\
    (z <= UART_OUT_SIZE \/ z = len (unsent s)) /\
    (timer s = UART_TIMER_OFF -> r = REG_IE s).
Proof.
  intros (Hi & Hl & Hn & Hh & Hs) Hz Hw. unfold uart_write. cbv zeta.
  pose proof (len_unsent s Hl Hh Hs) as Lu.
  destruct (uart_write_compacts_eq (lock s)) as (o1 & E & Lo1 & F1).
  - rewrite lock_eq. exact Hl.
  - rewrite lock_eq. exact Hh.
  - rewrite lock_eq. exact Hs.
  - rewrite E. cbn [bind]. rewrite lock_eq in *. st.
    change (unsent (set_REG_IE _ s)) with (unsent s) in F1.
    set (s1 := set_out_head 0 (set_out_size (out_size s - out_head s)
                 (set_out o1 (set_REG_IE _ s)))).
    destruct (uart_write_loop_spec buf (Z.to_nat size) 0 s1)
      as (o & z & ret & E' & Hr & Lo & Hz' & Hc & Fz & Hstop);
      try (subst s1; st; lia).
    rewrite E'. cbn [bind]. rewrite unlock_eq. subst s1. st.
    rewrite Z.sub_0_r in Fz. change (Z.to_nat 0) with O in Fz.
    cbn [skipn] in Fz. rewrite F1 in Fz.
    eexists o, z, _, ret. split; [reflexivity|].
    split; [lia|]. split; [exact Lo|]. split; [consts; lia|].
    split; [exact Fz|]. split; [intros Hlt; apply Hstop; lia|].
    split; [destruct Hc as [Hc|Hc]; [left; exact Hc|right; lia]|].
    intros T. rewrite T. reflexivity.
Qed.

Lemma uart_write_spec buf size s :
  wf s -> 0 <= size <= len buf -> size < 65536 ->
  exists s' ret,
    uart_write buf size s = Ret (s', ret) /\ 0 <= ret <= size /\
    unsent s'
    = unsent s ++ concat (map escaped (firstn (Z.to_nat ret) buf)) /\
    (ret < size ->
     UART_OUT_SIZE
     < len (unsent s') + len (escaped (nth (Z.to_nat ret) buf 0))) /\
    (len (unsent s) <= UART_OUT_SIZE -> len (unsent s') <= UART_OUT_SIZE) /\
    wf s' /\ inbound s' = inbound s /\ wire s' = wire s.
Proof.
  intros W Hz Hw. pose proof W as (Hi & Hl & Hn & Hh & Hs).
  destruct (uart_write_eq buf size s W Hz Hw)
    as (o & z & r & ret & E & Hr & Lo & Hz' & Fz & Hstop & Hc).
  eexists. exists ret. split; [exact E|]. split; [exact Hr|].
  assert (U : unsent (set_REG_IE r (set_out_head 0
                (set_out_size z (set_out o s)))) = firstn (Z.to_nat z) o).
  { unfold unsent. st. rewrite Z.sub_0_r. reflexivity. }
  rewrite U, len_firstn by lia.
  split; [exact Fz|]. split; [exact Hstop|].
  split; [intros Hu; destruct Hc; lia|].
  split; [|split; reflexivity].
  unfold wf. st. split; [exact Hi|]. split; [exact Lo|].
  split; [exact Hn|]. lia.
Qed.

(** X6.  The contract of uart_write.  It takes a prefix of the buffer: the
    count returned is at most the size asked for, the wire forms of exactly
    that many bytes are appended to the queue in order (0x5C before a 0x00
    or a 0x5C, the byte alone otherwise), and when the count is short the
    wire form of the next byte would have pushed the queue past
    UART_OUT_SIZE, which a queue that was within it never exceeds.  The
    Inbound Buffer is not touched, nothing is transmitted, and the state
    stays well formed. *)
Theorem uart_write_contract (buf : list Z) (size : Z) (s : state) :
  wf s -> 0 <= size <= len buf -> size < 65536 ->
  exists s' ret,
    uart_write buf size s = Ret (s', ret) /\ 0 <= ret <= size /\
    unsent s'
    = unsent s ++ concat (map escaped (firstn (Z.to_nat ret) buf)) /\
    (ret < size ->
     UART_OUT_SIZE
     < len (unsent s') + len (escaped (nth (Z.to_nat ret) buf 0))) /\
    (len (unsent s) <= UART_OUT_SIZE -> len (unsent s') <= UART_OUT_SIZE) /\
    wf s' /\ inbound s' = inbound s /\ wire s' = wire s.
Proof. apply uart_write_spec. Qed.

(** Three bytes written to the empty queue of the initial state. *)
Lemma uart_write_contract_witness :
  exists s',
    uart_write [65; 0; 92] 3 boot = Ret (s', 3) /\
    unsent s' = [65; 92; 0; 92; 92].
Proof.
  destruct (uart_write_contract [65; 0; 92] 3 boot)
    as (s' & ret & E & _ & U & _).
  - exact wf_boot.
  - unfold len. cbn [length]. lia.
  - lia.
  - assert (R : exists s'', uart_write [65; 0; 92] 3 boot = Ret (s'', 3))
      by (eexists; vm_compute; reflexivity).
    destruct R as (s'' & R). rewrite R in E. apply Ret_inj in E.
    injection E as <- <-. exists s''. split; [exact R|exact U].
Defined.

(** ** uart_read and the way back from the wire *)

(** uart_read on a well-formed state, with the content of what is left. *)
Lemma uart_read_spec size s :
  wf s -> 0 <= size ->
  exists s',
    uart_read size s
    = Ret (s', Z.min size (in_size s),
           firstn (Z.to_nat (Z.min size (in_size s))) (inbound s)) /\
    inbound s' = skipn (Z.to_nat (Z.min size (in_size s))) (inbound s) /\
    in_size s' = in_size s - Z.min size (in_size s) /\
    wf s' /\ unsent s' = unsent s /\ wire s' = wire s /\ heap s' = heap s.
Proof.
  intros (Hi & Hl & Hn & Hh & Hs) Hz. unfold uart_read. consts.
  rewrite lock_eq. st.
  replace (if in_size s <? size then in_size s else size)
    with (Z.min size (in_size s))
    by (destruct (Z.ltb_spec (in_size s) size); lia).
  set (n := Z.min size (in_size s)).
  assert (Hm : 0 <= n <= in_size s) by (subst n; lia).
  destruct (Z.ltb_spec (len (in_buf s)) n); [lia|].
  rewrite memmove_Ret by lia. st. rewrite unlock_eq. st.
  rewrite u16_small by lia.
  eexists. split; [|split; [|split; [|split; [|split; [|split]]]]].
  - unfold inbound. rewrite firstn_firstn.
    replace (Nat.min (Z.to_nat n) (Z.to_nat (in_size s))) with (Z.to_nat n)
      by lia.
    reflexivity.
  - unfold inbound. st. change (Z.to_nat 0) with O. cbn [firstn app].
    rewrite firstn_app_exact
      by (rewrite length_firstn, length_skipn; unfold len in Hi; lia).
    rewrite skipn_firstn_comm. f_equal. lia.
  - st. reflexivity.
  - unfold wf. st. consts.
    split; [|split; [exact Hl|split; [lia|split; [exact Hh|exact Hs]]]].
    rewrite len_moved; lia.
  - reflexivity.
  - reflexivity.
  - reflexivity.
Qed.

(** X7.  The contract of uart_read.  It hands out the oldest bytes held, as
    many as asked for or all of them when fewer are held, and what stays
    behind is the rest in its order: nothing is lost, repeated or
    reordered.  The Outbound Buffer is not touched. *)
Theorem uart_read_fifo (size : Z) (s : state) :
  wf s -> 0 <= size ->
  exists s' data,
    uart_read size s = Ret (s', Z.min size (in_size s), data) /\
    len data = Z.min size (in_size s) /\
    data ++ inbound s' = inbound s /\
    uart_available s' = uart_available s - Z.min size (in_size s) /\
    wf s' /\ unsent s' = unsent s.
Proof.
  intros W Hz. pose proof W as (Hi & Hl & Hn & Hh & Hs).
  destruct (uart_read_spec size s W Hz) as (s' & E & I & N & W' & U & _).
  exists s', (firstn (Z.to_nat (Z.min size (in_size s))) (inbound s)).
  split; [exact E|]. split; [|split; [|split; [exact N|split; [exact W'|exact U]]]].
  - rewrite len_firstn; [reflexivity|].
    unfold inbound. rewrite len_firstn; consts; lia.
  - rewrite I. apply firstn_skipn.
Qed.

(** Two of three held bytes are read; the third stays. *)
Lemma uart_read_fifo_witness :
  exists s' data,
    uart_read 2 (set_in_size 3 (set_in_buf ([1; 2; 3] ++ repeat 0 261) boot))
    = Ret (s', 2, data) /\
    len data = 2 /\ data ++ inbound s' = [1; 2; 3].
Proof.
  destruct (uart_read_fifo 2
              (set_in_size 3 (set_in_buf ([1; 2; 3] ++ repeat 0 261) boot)))
    as (s' & data & E & L & I & _).
  - unfold wf. vm_compute. intuition congruence.
  - lia.
  - exists s', data. split; [exact E|]. split; [exact L|exact I].
Defined.

Lemma run_irqs_app (a b : list Z) : forall s,
  run_irqs (a ++ b) s = (s1 <- run_irqs a s ;; run_irqs b s1).
Proof.
  induction a as [|x a IH]; intros s; cbn [app run_irqs bind];
    [reflexivity|].
  destruct (do_spi x s) as [s1| |]; cbn [bind]; [apply IH|reflexivity..].
Qed.

Lemma in_size_inbound s : wf s -> len (inbound s) = in_size s.
Proof.
  intros (Hi & _ & Hn & _). unfold inbound. apply len_firstn.
  consts. lia.
Qed.

(** The wire form of a sequence of bytes, received by an idle engine with
    the watermarks off, comes out of the filter as the sequence itself. *)
Lemma receive_stream buf : forall r,
  quiet r -> prio_idle r -> got_esc r = false ->
  out_size r - out_head r <= UART_OUT_SIZE ->
  Forall (fun b => b <> 255) buf -> in_size r + len buf <= UART_IN_SIZE ->
  exists r',
    run_irqs (concat (map escaped buf)) r = Ret r' /\
    inbound r' = inbound r ++ buf /\ got_esc r' = false /\
    quiet r' /\ prio_idle r'.
Proof.
  induction buf as [|b buf IH]; intros r Q Hidle G Hu Hb Hn.
  - exists r. cbn [map concat run_irqs]. rewrite app_nil_r.
    split; [reflexivity|]. split; [reflexivity|]. split; [exact G|].
    split; [exact Q|exact Hidle].
  - pose proof Q as (W & _). pose proof W as (Hi & Hl & Hin & Hh & Hs).
    inversion Hb as [|b' buf' Hb1 Hb2]; subst.
    assert (Lc : len (b :: buf) = 1 + len buf)
      by (unfold len; cbn [length]; lia).
    pose proof (len_nonneg buf) as Ln.
    destruct (receive_escaped b r Hb1 W Hu G Hidle) as (r1 & E & I & G1).
    destruct (run_irqs_sends (escaped b) r Q)
      as (r1' & E1 & Q1 & _ & U1 & Z1 & _ & I1).
    rewrite E in E1. apply Ret_inj in E1. subst r1'.
    destruct (I1 Hidle) as (P1 & _).
    pose proof Q1 as (W1 & _). pose proof W1 as (_ & Hl1 & _ & Hh1 & Hs1).
    assert (Ev : evicted r = inbound r).
    { unfold evicted. destruct (Z.eqb_spec (in_size r) UART_IN_SIZE);
        [lia|reflexivity]. }
    rewrite Ev in I.
    assert (N1 : in_size r1 = in_size r + 1).
    { rewrite <- (in_size_inbound r1 W1), I, len_app, (in_size_inbound r W).
      reflexivity. }
    destruct (IH r1) as (r' & E' & I' & G' & Q' & Hidle'); try assumption.
    + unfold prio_idle in *. rewrite Z1, P1. exact Hidle.
    + rewrite <- (len_unsent r1 Hl1 Hh1 Hs1), U1.
      pose proof (len_unsent r Hl Hh Hs) as Lu.
      unfold len in *. rewrite length_skipn. lia.
    + lia.
    + exists r'. cbn [map concat]. rewrite run_irqs_app, E. cbn [bind].
      split; [exact E'|]. split; [rewrite I', I, <- app_assoc; reflexivity|].
      split; [exact G'|]. split; [exact Q'|exact Hidle'].
Qed.

Lemma firstn_len (l : list Z) : firstn (Z.to_nat (len l)) l = l.
Proof. unfold len. rewrite Nat2Z.id. apply firstn_all. Qed.

(** X8.  From uart_write on one side to uart_read on the other.  When the
    wire forms fit in the queue, all bytes are accepted; when what was
    queued is received by an engine with the watermarks off, no priority
    frame active and room for the bytes, reading everything held gives the
    bytes that were held before followed by the bytes written, for any
    bytes other than 0xFF. *)
Theorem write_receive_read (buf : list Z) (s r : state) :
  wf s -> out_size s - out_head s + 2 * len buf <= UART_OUT_SIZE ->
  Forall (fun b => b <> 255) buf ->
  quiet r -> prio_idle r -> got_esc r = false ->
  out_size r - out_head r <= UART_OUT_SIZE ->
  in_size r + len buf <= UART_IN_SIZE ->
  exists s' w r' r'',
    uart_write buf (len buf) s = Ret (s', len buf) /\
    unsent s' = unsent s ++ w /\
    run_irqs w r = Ret r' /\
    uart_available r' = in_size r + len buf /\
    uart_read (uart_available r') r'
    = Ret (r'', in_size r + len buf, inbound r ++ buf) /\
    uart_available r'' = 0.
Proof.
  intros Ws Hf Hb Q Hidle G Hu Hn.
  pose proof Ws as (Hi & Hl & Hin & Hh & Hs).
  pose proof (len_nonneg buf) as Ln.
  destruct (uart_write_spec buf (len buf) s Ws) as
    (s' & ret & E & Hr & U & Hstop & _); [lia|consts; lia|].
  assert (R : ret = len buf).
  { destruct (Z.eq_dec ret (len buf)) as [|Hne]; [assumption|exfalso].
    assert (Hlt : ret < len buf) by lia. specialize (Hstop Hlt).
    rewrite U, len_app, (len_unsent s Hl Hh Hs) in Hstop.
    pose proof (len_concat_escaped (firstn (Z.to_nat ret) buf)) as Lc.
    rewrite len_firstn in Lc by lia.
    pose proof (len_escaped (nth (Z.to_nat ret) buf 0)). lia. }
  subst ret. rewrite firstn_len in U.
  destruct (receive_stream buf r Q Hidle G Hu Hb Hn)
    as (r' & E' & I' & _ & Q' & _).
  pose proof Q' as (W' & _).
  assert (N : in_size r' = in_size r + len buf).
  { pose proof Q as (W & _).
    rewrite <- (in_size_inbound r' W'), I', len_app, (in_size_inbound r W).
    reflexivity. }
  destruct (uart_read_spec (in_size r') r' W') as (r'' & Er & _ & Nr & _).
  { destruct W' as (_ & _ & ? & _). lia. }
  rewrite Z.min_id in Er, Nr.
  exists s', (concat (map escaped buf)), r', r''.
  split; [exact E|]. split; [exact U|]. split; [exact E'|].
  unfold uart_available. split; [exact N|]. split.
  - rewrite Er, <- N. rewrite <- (in_size_inbound r' W') at 2.
    rewrite firstn_len, I'. reflexivity.
  - lia.
Qed.

Lemma quiet_boot : quiet boot.
Proof.
  unfold quiet, wf. vm_compute.
  repeat split; try discriminate; try reflexivity.
Qed.

(** The bytes 'A', 0x00 and 0x5C written and read back. *)
Lemma write_receive_read_witness :
  exists s' w r' r'',
    uart_write [65; 0; 92] 3 boot = Ret (s', 3) /\
    unsent s' = w /\ run_irqs w boot = Ret r' /\
    uart_read (uart_available r') r' = Ret (r'', 3, [65; 0; 92]).
Proof.
  destruct (write_receive_read [65; 0; 92] boot boot)
    as (s' & w & r' & r'' & E & U & E' & _ & R & _).
  - exact wf_boot.
  - vm_compute. discriminate.
  - repeat constructor; discriminate.
  - exact quiet_boot.
  - unfold prio_idle. vm_compute. discriminate.
  - reflexivity.
  - vm_compute. discriminate.
  - vm_compute. discriminate.
  - exists s', w, r', r''. split; [exact E|]. split; [exact U|].
    split; [exact E'|exact R].
Defined.

(** ** uart_readstr and uart_readln *)

Lemma updn_same {A} (f : nat -> A) (k : nat) (v : A) : updn f k v k = v.
Proof. unfold updn. rewrite Nat.eqb_refl. reflexivity. Qed.

Lemma firstn_inbound (n : Z) (s : state) :
  0 <= n <= in_size s ->
  firstn (Z.to_nat n) (in_buf s) = firstn (Z.to_nat n) (inbound s).
Proof.
  intros H. unfold inbound. rewrite firstn_firstn.
  replace (Nat.min (Z.to_nat n) (Z.to_nat (in_size s))) with (Z.to_nat n)
    by lia.
  reflexivity.
Qed.

(** The block a string function leaves: [k] bytes, the terminator, and
    what the block held beyond. *)
Lemma string_stored (d data : list Z) (k : Z) :
  0 <= k -> k <= len data -> k < len d ->
  exists d1,
    memcpy d 0 data k = Ret d1 /\
    store d1 k 0
    = Ret (firstn (Z.to_nat k) data ++ 0 :: skipn (Z.to_nat (k + 1)) d).
Proof.
  intros H0 H1 H2. rewrite memcpy_Ret by lia.
  eexists. split; [reflexivity|].
  change (Z.to_nat 0) with O. cbn [firstn app]. rewrite Z.add_0_l.
  assert (L : length (firstn (Z.to_nat k) data) = Z.to_nat k)
    by (rewrite length_firstn; unfold len in H1; lia).
  replace (Z.to_nat (k + 1)) with (S (Z.to_nat k)) by lia.
  rewrite store_Ret.
  - rewrite firstn_app_exact by (symmetry; exact L). f_equal. f_equal.
    rewrite !skipn_S_tl, skipn_app_exact by (symmetry; exact L).
    reflexivity.
  - rewrite len_app, len_firstn, len_skipn by lia. lia.
Qed.

(** X9.  The contract of uart_readstr for a block of [size] bytes or more,
    [size] at least 1: at most [size - 1] of the oldest held bytes are
    moved to the block, a terminating 0x00 follows them, the count of
    bytes without the terminator is returned, and the bytes not taken
    stay in the Inbound Buffer in their order. *)
Theorem uart_readstr_contract (dest : nat) (size : Z) (s : state) :
  wf s -> 1 <= size < 65536 -> size <= len (heap s dest) ->
  exists s',
    uart_readstr dest size s = Ret (s', Z.min (size - 1) (in_size s)) /\
    heap s' dest
    = firstn (Z.to_nat (Z.min (size - 1) (in_size s))) (inbound s)
      ++ 0 :: skipn (Z.to_nat (Z.min (size - 1) (in_size s) + 1))
                    (heap s dest) /\
    inbound s'
    = skipn (Z.to_nat (Z.min (size - 1) (in_size s))) (inbound s) /\
    (forall q, q <> dest -> heap s' q = heap s q).
Proof.
  intros W Hz Hd. pose proof W as (Hi & Hl & Hn & Hh & Hs).
  unfold uart_readstr. rewrite u16_small by lia.
  destruct (uart_read_spec (size - 1) s W) as
    (s1 & E & I & N & W1 & _ & _ & Hp); [lia|].
  rewrite E. cbn [bind]. rewrite Hp.
  set (k := Z.min (size - 1) (in_size s)) in *.
  destruct (string_stored (heap s dest) (firstn (Z.to_nat k) (inbound s)) k)
    as (d1 & E1 & E2); try lia.
  { rewrite len_firstn; [lia|]. rewrite in_size_inbound by exact W. lia. }
  rewrite E1. cbn [bind].
  destruct (Z.ltb_spec 0 size); [|lia].
  rewrite E2. cbn [bind]. eexists. split; [reflexivity|]. st.
  rewrite updn_same, firstn_firstn, Nat.min_id.
  split; [reflexivity|]. split; [exact I|].
  intros q Hq. unfold updn.
  destruct (Nat.eqb_spec q dest); [contradiction|reflexivity].
Qed.

(** A block of 3 bytes takes two of the three held bytes. *)
Lemma uart_readstr_contract_witness :
  exists s',
    uart_readstr 0%nat 3
      (set_heap (updn (heap boot) 0%nat [9; 9; 9])
         (set_in_size 3 (set_in_buf ([65; 66; 67] ++ repeat 0 261) boot)))
    = Ret (s', 2) /\
    heap s' 0%nat = [65; 66; 0] /\ inbound s' = [67].
Proof.
  destruct (uart_readstr_contract 0%nat 3
      (set_heap (updn (heap boot) 0%nat [9; 9; 9])
         (set_in_size 3 (set_in_buf ([65; 66; 67] ++ repeat 0 261) boot))))
    as (s' & E & H & I & _).
  - unfold wf. vm_compute. intuition congruence.
  - lia.
  - vm_compute. discriminate.
  - exists s'. split; [exact E|]. split; [exact H|exact I].
Defined.

(** X10.  With a size of 0 the count handed to uart_read wraps to 65535: every
    held byte is copied to the block, without a terminator, and a block
    shorter than what is held is overrun. *)
Theorem uart_readstr_size_zero (dest : nat) (s : state) :
  wf s ->
  (in_size s <= len (heap s dest) ->
   exists s',
     uart_readstr dest 0 s = Ret (s', in_size s) /\
     heap s' dest
     = inbound s ++ skipn (Z.to_nat (in_size s)) (heap s dest) /\
     uart_available s' = 0) /\
  (len (heap s dest) < in_size s -> uart_readstr dest 0 s = Undef).
Proof.
  intros W. pose proof W as (Hi & Hl & Hn & Hh & Hs).
  unfold uart_readstr. change (u16 (0 - 1)) with 65535.
  destruct (uart_read_spec 65535 s W) as
    (s1 & E & I & N & W1 & _ & _ & Hp); [lia|].
  rewrite E. cbn [bind]. rewrite Hp.
  replace (Z.min 65535 (in_size s)) with (in_size s) in * by (consts; lia).
  change (firstn (Z.to_nat (in_size s)) (inbound s))
    with (firstn (Z.to_nat (in_size s)) (firstn (Z.to_nat (in_size s)) (in_buf s))).
  rewrite firstn_firstn, Nat.min_id. fold (inbound s).
  pose proof (in_size_inbound s W) as Li.
  split; intros Hd.
  - rewrite memcpy_Ret by lia. cbn [bind Z.ltb Z.compare].
    eexists. split; [reflexivity|]. st. rewrite updn_same.
    change (Z.to_nat 0) with O. cbn [firstn app]. rewrite Z.add_0_l.
    rewrite <- Li at 1. rewrite firstn_len.
    split; [reflexivity|]. unfold uart_available. st. lia.
  - unfold memcpy.
    destruct (Z.leb_spec (0 + in_size s) (len (heap s dest))); [lia|].
    rewrite andb_false_r. reflexivity.
Qed.

(** Three bytes held and a block of two. *)
Lemma uart_readstr_size_zero_witness :
  uart_readstr 0%nat 0
    (set_heap (updn (heap boot) 0%nat [9; 9])
       (set_in_size 3 (set_in_buf ([65; 66; 67] ++ repeat 0 261) boot)))
  = Undef.
Proof.
  apply (uart_readstr_size_zero 0%nat
    (set_heap (updn (heap boot) 0%nat [9; 9])
       (set_in_size 3 (set_in_buf ([65; 66; 67] ++ repeat 0 261) boot)))).
  - unfold wf. vm_compute. intuition congruence.
  - vm_compute. reflexivity.
Defined.

(** The search of uart_readln stops at the first held byte equal to [nl]. *)
Lemma uart_readln_find_hit nl s i0 : forall n i,
  0 <= i <= i0 -> i0 < i + Z.of_nat n -> i0 < len (in_buf s) ->
  i0 < 65535 ->
  (forall j, i <= j < i0 -> nth (Z.to_nat j) (in_buf s) 0 <> nl) ->
  nth (Z.to_nat i0) (in_buf s) 0 = nl ->
  uart_readln_find n i nl s = Ret i0.
Proof.
  induction n as [|n IH]; intros i Hi Hn Hl Hw Hmiss Hhit; [lia|].
  cbn [uart_readln_find]. rewrite load_Ret by lia. cbn [bind].
  destruct (Z.eq_dec i i0) as [->|Hne].
  - rewrite Hhit, Z.eqb_refl. reflexivity.
  - destruct (Z.eqb_spec (nth (Z.to_nat i) (in_buf s) 0) nl) as [Eq|_].
    + exfalso. apply (Hmiss i); [lia|exact Eq].
    + rewrite u16_small by lia. apply IH; try lia; try assumption.
      intros j Hj. apply Hmiss. lia.
Qed.

(** Without such a byte it runs to the end. *)
Lemma uart_readln_find_miss nl s : forall n i,
  0 <= i -> i + Z.of_nat n <= len (in_buf s) -> i + Z.of_nat n < 65536 ->
  (forall j, i <= j < i + Z.of_nat n -> nth (Z.to_nat j) (in_buf s) 0 <> nl) ->
  uart_readln_find n i nl s = Ret (i + Z.of_nat n).
Proof.
  induction n as [|n IH]; intros i Hi Hl Hw Hmiss.
  - cbn [uart_readln_find]. f_equal. lia.
  - cbn [uart_readln_find]. rewrite load_Ret by lia. cbn [bind].
    destruct (Z.eqb_spec (nth (Z.to_nat i) (in_buf s) 0) nl) as [Eq|_].
    + exfalso. apply (Hmiss i); [lia|exact Eq].
    + rewrite u16_small by lia. rewrite IH; try lia.
      * f_equal. lia.
      * intros j Hj. apply Hmiss. lia.
Qed.

Lemma nth_inbound (j : Z) (s : state) :
  0 <= j < in_size s ->
  nth (Z.to_nat j) (in_buf s) 0 = nth (Z.to_nat j) (inbound s) 0.
Proof.
  intros H. unfold inbound. rewrite nth_firstn.
  destruct (Nat.ltb_spec (Z.to_nat j) (Z.to_nat (in_size s))); [reflexivity|lia].
Qed.

(** X11.  uart_readln when no held byte is the newline: it returns 0 and
    leaves both buffers and the caller's memory as they are. *)
Theorem uart_readln_no_newline (dest : nat) (size nl : Z) (s : state) :
  wf s -> ~ In nl (inbound s) ->
  exists s',
    uart_readln dest size nl s = Ret (s', 0) /\
    inbound s' = inbound s /\ heap s' = heap s /\ unsent s' = unsent s.
Proof.
  intros W Hmiss. pose proof W as (Hi & Hl & Hn & Hh & Hs).
  unfold uart_readln. cbv zeta. rewrite lock_eq. st.
  rewrite (uart_readln_find_miss nl _ (Z.to_nat (in_size s)) 0).
  - cbn [bind]. replace (0 + Z.of_nat (Z.to_nat (in_size s))) with (in_size s)
      by lia.
    st. rewrite Z.eqb_refl, unlock_eq. eexists. split; [reflexivity|].
    repeat split.
  - lia.
  - st. consts. lia.
  - consts. lia.
  - st. intros j Hj Eq. apply Hmiss. rewrite <- Eq.
    rewrite nth_inbound by lia. apply nth_In.
    pose proof (in_size_inbound s W) as Li. unfold len in Li. lia.
Qed.

(** Three held bytes, none of them the newline 10. *)
Lemma uart_readln_no_newline_witness :
  exists s',
    uart_readln 0%nat 8 10
      (set_in_size 3 (set_in_buf ([65; 66; 67] ++ repeat 0 261) boot))
    = Ret (s', 0) /\
    inbound s' = [65; 66; 67].
Proof.
  destruct (uart_readln_no_newline 0%nat 8 10
      (set_in_size 3 (set_in_buf ([65; 66; 67] ++ repeat 0 261) boot)))
    as (s' & E & I & _).
  - unfold wf. vm_compute. intuition congruence.
  - vm_compute. intuition discriminate.
  - exists s'. split; [exact E|exact I].
Defined.

(** X12.  uart_readln when the first newline held is preceded by [line] and
    followed by [rest].  The count is the length of the line with its
    newline, or [size - 1] when that is less; the block receives that
    many bytes from the END of the line, newline included, and a
    terminating 0x00.  The line and its newline leave the Inbound Buffer
    when something follows them; when the newline is the last byte held,
    the buffer stays as it is. *)
Theorem uart_readln_line (dest : nat) (size nl : Z) (line rest : list Z)
        (s : state) :
  wf s -> inbound s = line ++ nl :: rest -> ~ In nl line ->
  1 <= size < 65536 -> size <= len (heap s dest) ->
  exists s',
    uart_readln dest size nl s
    = Ret (s', Z.min (len line + 1) (size - 1)) /\
    heap s' dest
    = skipn (Z.to_nat (len line + 1 - Z.min (len line + 1) (size - 1)))
            (line ++ [nl])
      ++ 0 :: skipn (Z.to_nat (Z.min (len line + 1) (size - 1) + 1))
                    (heap s dest) /\
    inbound s' = match rest with [] => inbound s | _ :: _ => rest end /\
    unsent s' = unsent s.
Proof.
  intros W Hin Hmiss Hz Hd. pose proof W as (Hi & Hl & Hn & Hh & Hs).
  pose proof (in_size_inbound s W) as Li.
  rewrite Hin, len_app in Li.
  assert (Lc : len (nl :: rest) = 1 + len rest)
    by (unfold len; cbn [length]; lia).
  rewrite Lc in Li.
  pose proof (len_nonneg line) as L0. pose proof (len_nonneg rest) as L1.
  set (i := len line) in *.
  assert (Hnth : forall j, 0 <= j < in_size s ->
            nth (Z.to_nat j) (in_buf s) 0
            = nth (Z.to_nat j) (line ++ nl :: rest) 0).
  { intros j Hj. rewrite nth_inbound, Hin by lia. reflexivity. }
  unfold uart_readln. cbv zeta. rewrite lock_eq. st.
  rewrite (uart_readln_find_hit nl _ i (Z.to_nat (in_size s)) 0).
  - cbn [bind]. st.
    destruct (Z.eqb_spec i (in_size s)) as [|_]; [lia|].
    rewrite u16_small by lia.
    replace (if i + 1 <? size - 1 then i + 1 else size - 1)
      with (Z.min (i + 1) (size - 1))
      by (destruct (Z.ltb_spec (i + 1) (size - 1)); lia).
    set (k := Z.min (i + 1) (size - 1)) in *.
    assert (Hk : 0 <= k <= i + 1) by (subst k; lia).
    destruct (string_stored (heap s dest)
                (skipn (Z.to_nat (i + 1 - k)) (in_buf s)) k)
      as (d1 & E1 & E2); try lia.
    { rewrite len_skipn; consts; lia. }
    rewrite E1. cbn [bind]. rewrite E2. cbn [bind].
    assert (Hline : firstn (Z.to_nat k)
                      (skipn (Z.to_nat (i + 1 - k)) (in_buf s))
                    = skipn (Z.to_nat (i + 1 - k)) (line ++ [nl])).
    { replace (Z.to_nat k)
        with (Z.to_nat (i + 1) - Z.to_nat (i + 1 - k))%nat by lia.
      rewrite <- skipn_firstn_comm, (firstn_inbound (i + 1)) by lia.
      rewrite Hin.
      change (line ++ nl :: rest) with (line ++ [nl] ++ rest).
      rewrite app_assoc, firstn_app_exact; [reflexivity|].
      rewrite length_app. subst i. unfold len. cbn [length]. lia. }
    rewrite Hline.
    destruct rest as [|r0 rest].
    + change (len []) with 0 in *.
      destruct (Z.ltb_spec (i + 1) (in_size s)); [lia|].
      cbn [bind]. rewrite unlock_eq. eexists. split; [reflexivity|].
      st. rewrite updn_same. repeat split.
    + assert (Lr : len (r0 :: rest) = 1 + len rest)
        by (unfold len; cbn [length]; lia).
      pose proof (len_nonneg rest) as L2.
      destruct (Z.ltb_spec (i + 1) (in_size s)); [|lia].
      rewrite memmove_Ret by (consts; lia). cbn [bind]. rewrite unlock_eq.
      eexists. split; [reflexivity|]. st. rewrite updn_same.
      split; [reflexivity|]. split; [|reflexivity].
      unfold inbound. st. rewrite u16_small by (consts; lia).
      change (Z.to_nat 0) with O. cbn [firstn app].
      rewrite firstn_app_exact
        by (rewrite length_firstn, length_skipn; unfold len in Hi;
            consts; lia).
      replace (Z.to_nat (in_size s - (i + 1)))
        with (Z.to_nat (in_size s - i - 1)) by lia.
      replace (Z.to_nat (in_size s - i - 1))
        with (Z.to_nat (in_size s) - Z.to_nat (i + 1))%nat by lia.
      rewrite <- skipn_firstn_comm. fold (inbound s). rewrite Hin.
      change (line ++ nl :: r0 :: rest) with (line ++ [nl] ++ r0 :: rest).
      rewrite app_assoc. apply skipn_app_exact.
      rewrite length_app. subst i. unfold len. cbn [length]. lia.
  - lia.
  - lia.
  - st. consts. lia.
  - consts. lia.
  - st. intros j Hj Eq. apply Hmiss. rewrite <- Eq.
    rewrite Hnth by lia. rewrite app_nth1 by (subst i; unfold len in Hj; lia).
    apply nth_In. subst i. unfold len in Hj. lia.
  - st. rewrite Hnth by lia. subst i. unfold len. rewrite Nat2Z.id.
    rewrite nth_middle. reflexivity.
Qed.

(** The line "AB\n" followed by 'C', read into a block of 8 bytes, and
    the same line when the newline is the last byte held. *)
Lemma uart_readln_line_witness :
  (exists s',
     uart_readln 0%nat 8 10
       (set_heap (updn (heap boot) 0%nat (repeat 9 8))
          (set_in_size 4 (set_in_buf ([65; 66; 10; 67] ++ repeat 0 260) boot)))
     = Ret (s', 3) /\
     heap s' 0%nat = [65; 66; 10; 0; 9; 9; 9; 9] /\ inbound s' = [67]) /\
  (exists s',
     uart_readln 0%nat 8 10
       (set_heap (updn (heap boot) 0%nat (repeat 9 8))
          (set_in_size 3 (set_in_buf ([65; 66; 10] ++ repeat 0 261) boot)))
     = Ret (s', 3) /\
     heap s' 0%nat = [65; 66; 10; 0; 9; 9; 9; 9] /\
     inbound s' = [65; 66; 10]).
Proof.
  split.
  - destruct (uart_readln_line 0%nat 8 10 [65; 66] [67]
       (set_heap (updn (heap boot) 0%nat (repeat 9 8))
          (set_in_size 4 (set_in_buf ([65; 66; 10; 67] ++ repeat 0 260) boot))))
      as (s' & E & H & I & _).
    + unfold wf. vm_compute. intuition congruence.
    + reflexivity.
    + vm_compute. intuition discriminate.
    + lia.
    + vm_compute. discriminate.
    + exists s'. split; [exact E|]. split; [exact H|exact I].
  - destruct (uart_readln_line 0%nat 8 10 [65; 66] []
       (set_heap (updn (heap boot) 0%nat (repeat 9 8))
          (set_in_size 3 (set_in_buf ([65; 66; 10] ++ repeat 0 261) boot))))
      as (s' & E & H & I & _).
    + unfold wf. vm_compute. intuition congruence.
    + reflexivity.
    + vm_compute. intuition discriminate.
    + lia.
    + vm_compute. discriminate.
    + exists s'. split; [exact E|]. split; [exact H|exact I].
Defined.

(** ** Waiting: uart_wait_prio, uart_flush and uart_sendc *)

Lemma uart_wait_prio_loop_zero start : forall env s s' ok env',
  uart_wait_prio_loop 0 start env s = Ret (s', ok, env') ->
  ok = true /\ prio_size s' = 0 /\ prio_head s' = 0.
Proof.
  induction env as [|sl env IH]; intros s s' ok env' E;
    cbn [uart_wait_prio_loop] in E.
  - destruct (prio_head s =? prio_size s); [|discriminate].
    apply Ret_inj in E. injection E as <- <- <-. repeat split.
  - destruct (prio_head s =? prio_size s).
    + apply Ret_inj in E. injection E as <- <- <-. repeat split.
    + destruct (pass sl s) as [s1| |]; cbn [bind] in E; try discriminate.
      change (0 =? 0) with true in E. cbn [orb] in E.
      apply (IH _ _ _ _ E).
Qed.

(** X13.  A timeout of 0 switches the deadline off: whatever the clock shows
    while the frame is going out, uart_wait_prio 0 never gives up on it
    and never reports failure; when it returns, the frame is complete and
    the priority state is cleared. *)
Theorem uart_wait_prio_no_deadline (env env' : list slice) (s s' : state)
        (ok : bool) :
  uart_wait_prio 0 env s = Ret (s', ok, env') ->
  ok = true /\ prio_size s' = 0 /\ prio_head s' = 0.
Proof. unfold uart_wait_prio. apply uart_wait_prio_loop_zero. Qed.

(** The stalled frame gets its last three exchanges while the clock jumps
    by 99 seconds. *)
Lemma uart_wait_prio_no_deadline_witness :
  exists s',
    uart_wait_prio 0 [mkSlice [0; 0; 0] 99] stalled = Ret (s', true, []) /\
    prio_size s' = 0.
Proof.
  assert (R : exists s', uart_wait_prio 0 [mkSlice [0; 0; 0] 99] stalled
                         = Ret (s', true, []))
    by (eexists; vm_compute; reflexivity).
  destruct R as (s' & R). exists s'. split; [exact R|].
  apply (uart_wait_prio_no_deadline _ _ _ _ _ R).
Defined.

(** X14.  On a closed driver with no live interrupt - as uart_close
    leaves it - uart_wait returns at once and nothing runs do_spi, so the
    loop of uart_flush never sees the queue shrink: with bytes waiting, no
    number of iterations ends it. *)
Theorem uart_flush_closed_hangs (fuel : nat) (env : list slice) (s : state) :
  timer s = UART_TIMER_OFF -> irq_live s = false ->
  out_head s < out_size s ->
  uart_flush fuel env s = Pending.
Proof.
  intros T I H. induction fuel as [|fuel IH]; [reflexivity|].
  cbn [uart_flush]. destruct (Z.ltb_spec (out_head s) (out_size s)); [|lia].
  unfold uart_wait. rewrite T, Z.eqb_refl. cbn [bind].
  unfold between_polls. rewrite T, Z.eqb_refl, I. cbn [andb bind]. exact IH.
Qed.

(** Two bytes are waiting when the driver is closed. *)
Lemma uart_flush_closed_hangs_witness :
  uart_flush 1000 [mkSlice [0] 0]
    (uart_close (uart_set_spi_rate UART_SPI_RATE
       (irqEnable (Z.lor (BIT 6) IRQ_CARD_LINE)
          (irqSet (Z.lor (BIT 6) IRQ_CARD_LINE) (set_timer 3 queued2)))))
  = Pending.
Proof.
  apply uart_flush_closed_hangs;
    [reflexivity|reflexivity|vm_compute; reflexivity].
Defined.

(** After the exit of uart_init that finds no free timer the driver is
    closed, but the card-line interrupt is enabled and has its handler:
    the two bytes waiting go out and uart_flush returns. *)
Example uart_flush_card_line_drains :
  exists s1 s2,
    uart_init 1 0%nat []
      (set_out_size 2 (set_out ([65; 66] ++ repeat 0 258) timers_taken))
    = Ret (s1, false, []) /\
    timer s1 = UART_TIMER_OFF /\ irq_live s1 = true /\
    uart_flush 2 [mkSlice [0; 0] 0] s1 = Ret (s2, []) /\
    wire s2 = [65; 66].
Proof.
  eexists. eexists.
  split; [vm_compute; reflexivity|]. split; [reflexivity|].
  split; [reflexivity|]. split; [vm_compute; reflexivity|]. reflexivity.
Qed.

Lemma next_sent_add (a b : nat) : forall q,
  next_sent (a + b) q = next_sent a q ++ next_sent b (skipn a q).
Proof.
  induction a as [|a IH]; intros q; [reflexivity|].
  cbn [Nat.add next_sent app]. rewrite IH. f_equal. f_equal. f_equal.
  rewrite skipn_S_tl. apply skipn_tl_comm.
Qed.

Lemma next_sent_nil (n : nat) : next_sent n [] = repeat 0 n.
Proof. induction n as [|n IH]; [reflexivity|]. cbn. rewrite IH. reflexivity. Qed.

Lemma next_sent_all (q : list Z) : forall n,
  (length q <= n)%nat -> next_sent n q = q ++ repeat 0 (n - length q).
Proof.
  induction q as [|x q IH]; intros n H.
  - rewrite next_sent_nil, Nat.sub_0_r. reflexivity.
  - destruct n as [|n]; cbn [length] in H; [lia|].
    cbn [next_sent hd tl length Nat.sub app]. rewrite IH by lia. reflexivity.
Qed.

Lemma unsent_empty s :
  wf s -> (out_head s <? out_size s) = false -> unsent s = [].
Proof.
  intros (_ & Hl & _ & Hh & Hs) H. apply Z.ltb_ge in H.
  pose proof (len_unsent s Hl Hh Hs) as L. unfold len in L.
  destruct (unsent s); [reflexivity|cbn [length] in L; lia].
Qed.

(** The loop of uart_flush on an open link with the watermarks off. *)
Lemma uart_flush_runs : forall env s,
  quiet s -> timer s <> UART_TIMER_OFF ->
  Forall (fun sl => irqs sl <> []) env ->
  len (unsent s) <= Z.of_nat (length env) ->
  exists s' n env',
    uart_flush (S (length env)) env s = Ret (s', env') /\
    unsent s' = [] /\ quiet s' /\
    wire s' = wire s ++ next_sent n (unsent s) /\
    (length (unsent s) <= n)%nat.
Proof.
  induction env as [|sl env IH]; intros s Q T Hne Hlen.
  - assert (U : unsent s = []).
    { unfold len in Hlen. cbn [map length] in Hlen.
      destruct (unsent s); [reflexivity|cbn [length] in Hlen; lia]. }
    pose proof Q as ((_ & Hl & _ & Hh & Hs) & _).
    pose proof (len_unsent s Hl Hh Hs) as L. rewrite U in L.
    change (len []) with 0 in L.
    exists s, O, []. cbn [uart_flush length].
    destruct (Z.ltb_spec (out_head s) (out_size s)); [lia|].
    split; [reflexivity|]. split; [exact U|]. split; [exact Q|].
    rewrite U. cbn [next_sent length]. rewrite app_nil_r.
    split; [reflexivity|lia].
  - cbn [uart_flush length].
    destruct (out_head s <? out_size s) eqn:C.
    + unfold uart_wait.
      destruct (Z.eqb_spec (timer s) UART_TIMER_OFF) as [|_]; [contradiction|].
      unfold pass.
      destruct (run_irqs_sends (irqs sl) s Q)
        as (s1 & E & Q1 & W1 & U1 & _ & T1 & _).
      rewrite E. cbn [bind].
      unfold between_polls. st.
      destruct (Z.eqb_spec (timer s1) UART_TIMER_OFF) as [X|_];
        [congruence|]. cbn [andb bind].
      inversion Hne as [|sl' env'' Hsl Henv]; subst.
      assert (Li : (1 <= length (irqs sl))%nat)
        by (destruct (irqs sl); [contradiction|cbn [length]; lia]).
      destruct (IH (set_rtc (now sl) s1)) as (s' & n & env' & E' & U' & Q' & W' & Hn).
      * exact Q1.
      * st. congruence.
      * exact Henv.
      * change (unsent (set_rtc (now sl) s1)) with (unsent s1). rewrite U1.
        unfold len in *. rewrite length_skipn.
        cbn [map length] in Hlen. lia.
      * change (unsent (set_rtc (now sl) s1)) with (unsent s1) in *.
        change (wire (set_rtc (now sl) s1)) with (wire s1) in *.
        exists s', (length (irqs sl) + n)%nat, env'.
        split; [exact E'|]. split; [exact U'|]. split; [exact Q'|].
        split.
        -- rewrite W', W1, U1, <- app_assoc, next_sent_add. reflexivity.
        -- rewrite U1, length_skipn in Hn. lia.
    + pose proof Q as (W & _).
      exists s, O, (sl :: env).
      split; [reflexivity|]. split; [apply unsent_empty; assumption|].
      split; [exact Q|].
      rewrite (unsent_empty s W C). cbn [next_sent length].
      rewrite app_nil_r. split; [reflexivity|lia].
Qed.

(** X15.  On an open link with the watermarks off, uart_flush returns once the
    queue is empty, and by then every byte that was waiting has gone out,
    in queue order; only idle bytes follow them.  It is enough that as many
    slices with at least one interrupt each go by as bytes were waiting. *)
Theorem uart_flush_drains (env : list slice) (s : state) :
  quiet s -> timer s <> UART_TIMER_OFF ->
  Forall (fun sl => irqs sl <> []) env ->
  len (unsent s) <= Z.of_nat (length env) ->
  exists s' k env',
    uart_flush (S (length env)) env s = Ret (s', env') /\
    unsent s' = [] /\
    wire s' = wire s ++ unsent s ++ repeat 0 k.
Proof.
  intros Q T Hne Hlen.
  destruct (uart_flush_runs env s Q T Hne Hlen)
    as (s' & n & env' & E & U & _ & W & Hn).
  exists s', (n - length (unsent s))%nat, env'.
  split; [exact E|]. split; [exact U|].
  rewrite W, next_sent_all by exact Hn. reflexivity.
Qed.

(** Two bytes waiting, two slices go by: three interrupts, then two. *)
Lemma uart_flush_drains_witness :
  exists s' k env',
    uart_flush 3 [mkSlice [0; 0; 0] 1; mkSlice [0; 0] 2]
      (set_timer 3 queued2) = Ret (s', env') /\
    unsent s' = [] /\ wire s' = [65; 66] ++ repeat 0 k.
Proof.
  destruct (uart_flush_drains [mkSlice [0; 0; 0] 1; mkSlice [0; 0] 2]
              (set_timer 3 queued2))
    as (s' & k & env' & E & U & W).
  - exact quiet_queued2.
  - vm_compute. discriminate.
  - repeat constructor; discriminate.
  - vm_compute. discriminate.
  - exists s', k, env'. split; [exact E|]. split; [exact U|exact W].
Defined.

(** ** uart_sendc and uart_send *)

(** uart_write of a single byte takes it exactly when its wire form fits. *)
Lemma uart_write_byte c s :
  wf s ->
  exists o z r ret,
    uart_write [c] 1 s
    = Ret (set_REG_IE r (set_out_head 0 (set_out_size z (set_out o s))),
           ret) /\
    len o = OUT_CAP /\ 0 <= z <= OUT_CAP /\
    (len (unsent s) + len (escaped c) <= UART_OUT_SIZE ->
     ret = 1 /\ firstn (Z.to_nat z) o = unsent s ++ escaped c) /\
    (UART_OUT_SIZE < len (unsent s) + len (escaped c) ->
     ret = 0 /\ firstn (Z.to_nat z) o = unsent s) /\
    (timer s = UART_TIMER_OFF -> r = REG_IE s).
Proof.
  intros W.
  destruct (uart_write_eq [c] 1 s W)
    as (o & z & r & ret & E & Hr & Lo & Hz & Fz & Hstop & Hc & Hie).
  { unfold len. cbn [length]. lia. }
  { lia. }
  exists o, z, r, ret. split; [exact E|]. split; [exact Lo|].
  split; [exact Hz|].
  assert (G : forall A B : Prop, A /\ B -> A /\ B /\
                (timer s = UART_TIMER_OFF -> r = REG_IE s))
    by (intros A B (a & b); split; [exact a|split; [exact b|exact Hie]]).
  apply G.
  pose proof (len_escaped c) as Le.
  assert (Lz : len (firstn (Z.to_nat z) o) = z) by (apply len_firstn; lia).
  assert (D : ret = 0 \/ ret = 1) by lia.
  destruct D as [-> | ->].
  - cbn [Z.to_nat firstn map concat nth] in *. rewrite app_nil_r in Fz.
    split; intros H.
    + exfalso. rewrite Fz in Lz. specialize (Hstop ltac:(lia)). lia.
    + split; [reflexivity|exact Fz].
  - change (firstn (Z.to_nat 1) [c]) with [c] in Fz.
    cbn [map concat] in Fz. rewrite app_nil_r in Fz.
    rewrite Fz, len_app in Lz.
    split; intros H.
    + split; [reflexivity|exact Fz].
    + exfalso. destruct Hc; lia.
Qed.

Lemma uart_sendc_full_closed c env : forall fuel s,
  wf s -> UART_OUT_SIZE < len (unsent s) + len (escaped c) ->
  timer s = UART_TIMER_OFF -> irq_live s = false ->
  uart_sendc fuel c env s = Pending.
Proof.
  induction fuel as [|fuel IH]; intros s W Hfull T I; [reflexivity|].
  cbn [uart_sendc].
  destruct (uart_write_byte c s W)
    as (o & z & r & ret & E & Lo & Hz & _ & Hf & Hie).
  destruct (Hf Hfull) as (-> & Fz). pose proof (Hie T) as Er. subst r.
  rewrite E. cbn [bind]. change (0 =? 1) with false. cbv iota.
  unfold uart_wait. st. rewrite T, Z.eqb_refl. cbn [bind].
  unfold between_polls. st. rewrite T, Z.eqb_refl.
  change (irq_live (set_REG_IE (REG_IE s) ?x)) with (irq_live s).
  rewrite I. cbn [andb bind].
  destruct W as (Hi & Hl & Hn & Hh & Hs).
  assert (U : unsent (set_REG_IE (REG_IE s) (set_out_head 0
                (set_out_size z (set_out o s)))) = unsent s).
  { unfold unsent. st. rewrite Z.sub_0_r. exact Fz. }
  apply IH.
  - unfold wf. st. split; [exact Hi|]. split; [exact Lo|].
    split; [exact Hn|]. lia.
  - rewrite U. exact Hfull.
  - exact T.
  - exact I.
Qed.

(** X16.  uart_sendc.  When the wire form of the byte fits in the queue
    it is appended and the call returns without waiting.  When it does not
    fit and the driver is closed with no live interrupt - as uart_close
    leaves it - nothing runs do_spi to make room: the call never
    returns. *)
Theorem uart_sendc_contract (fuel : nat) (c : Z) (env : list slice)
        (s : state) :
  wf s ->
  (len (unsent s) + len (escaped c) <= UART_OUT_SIZE ->
   exists s',
     uart_sendc (S fuel) c env s = Ret (s', env) /\
     unsent s' = unsent s ++ escaped c /\ wire s' = wire s) /\
  (UART_OUT_SIZE < len (unsent s) + len (escaped c) ->
   timer s = UART_TIMER_OFF -> irq_live s = false ->
   uart_sendc fuel c env s = Pending).
Proof.
  intros W. split.
  - intros Hroom. cbn [uart_sendc].
    destruct (uart_write_byte c s W)
      as (o & z & r & ret & E & Lo & Hz & Hr & _).
    destruct (Hr Hroom) as (-> & Fz).
    rewrite E. cbn [bind]. change (1 =? 1) with true. cbv iota.
    eexists. split; [reflexivity|]. split; [|reflexivity].
    unfold unsent. st. rewrite Z.sub_0_r. exact Fz.
  - intros Hfull T I. apply uart_sendc_full_closed; assumption.
Qed.

(** A backslash sent from the initial state, and a byte sent to a full
    queue that nothing drains. *)
Lemma uart_sendc_contract_witness :
  (exists s',
     uart_sendc 1 92 [] boot = Ret (s', []) /\ unsent s' = [92; 92]) /\
  uart_sendc 1000 65 [mkSlice [0] 0]
    (set_out_size 256 (set_out (repeat 66 256 ++ repeat 0 4) boot))
  = Pending.
Proof.
  split.
  - destruct (uart_sendc_contract 0 92 [] boot wf_boot) as (A & _).
    destruct A as (s' & E & U & _).
    + vm_compute. discriminate.
    + exists s'. split; [exact E|exact U].
  - apply (uart_sendc_contract 1000 65 [mkSlice [0] 0]
             (set_out_size 256 (set_out (repeat 66 256 ++ repeat 0 4) boot))).
    + unfold wf. vm_compute. intuition congruence.
    + vm_compute. reflexivity.
    + reflexivity.
    + reflexivity.
Defined.

Lemma strlen_app (str junk : list Z) :
  ~ In 0 str -> strlen (str ++ 0 :: junk) = Ret (len str).
Proof.
  induction str as [|c str IH]; intros H; [reflexivity|].
  cbn [app strlen].
  destruct (Z.eqb_spec c 0) as [->|_]; [exfalso; apply H; left; reflexivity|].
  rewrite IH by (intros X; apply H; right; exact X). cbn [bind].
  f_equal. unfold len. cbn [length]. lia.
Qed.

(** X17.  uart_send of a string whose wire form fits in the queue: the bytes
    before the terminating 0x00 are queued by a single uart_write, each
    0x5C doubled, and a single uart_wait follows; what comes after the
    terminator is not looked at. *)
Theorem uart_send_fits (fuel : nat) (str junk : list Z) (env : list slice)
        (s : state) :
  wf s -> ~ In 0 str -> str <> [] ->
  len (unsent s) + 2 * len str <= UART_OUT_SIZE ->
  exists s1,
    uart_write (str ++ 0 :: junk) (len str) s = Ret (s1, len str) /\
    unsent s1 = unsent s ++ concat (map escaped str) /\
    uart_send (S (S fuel)) (str ++ 0 :: junk) env s = uart_wait env s1.
Proof.
  intros W Hnz Hne Hf. pose proof W as (Hi & Hl & Hn & Hh & Hs).
  pose proof (len_nonneg (unsent s)) as Lu.
  assert (L0 : 0 < len str)
    by (destruct str; [contradiction|unfold len; cbn [length]; lia]).
  assert (Lb : len (str ++ 0 :: junk) = len str + 1 + len junk)
    by (rewrite len_app; unfold len; cbn [length]; lia).
  pose proof (len_nonneg junk) as Lj.
  destruct (uart_write_spec (str ++ 0 :: junk) (len str) s W) as
    (s1 & ret & E & Hr & U & Hstop & _); [lia|consts; lia|].
  assert (Fs : forall n, 0 <= n <= len str ->
            firstn (Z.to_nat n) (str ++ 0 :: junk) = firstn (Z.to_nat n) str).
  { intros n Hn'. apply firstn_app_l. unfold len in Hn'. lia. }
  assert (R : ret = len str).
  { destruct (Z.eq_dec ret (len str)) as [|Hd]; [assumption|exfalso].
    assert (Hlt : ret < len str) by lia. specialize (Hstop Hlt).
    rewrite U, len_app, Fs in Hstop by lia.
    pose proof (len_concat_escaped (firstn (Z.to_nat ret) str)) as Lc.
    rewrite len_firstn in Lc by lia.
    pose proof (len_escaped (nth (Z.to_nat ret) (str ++ 0 :: junk) 0)).
    consts. lia. }
  subst ret. rewrite Fs, firstn_len in U by lia.
  exists s1. split; [exact E|]. split; [exact U|].
  unfold uart_send. rewrite strlen_app by exact Hnz. cbn [bind].
  rewrite u16_small by (consts; lia).
  cbn [uart_send_loop].
  destruct (Z.ltb_spec 0 (len str)); [|lia].
  change (Z.to_nat 0) with O. cbn [skipn]. rewrite Z.sub_0_r.
  rewrite u16_small by (consts; lia). rewrite E. cbn [bind].
  destruct (uart_wait env s1) as [[s2 env2]| |]; cbn [bind];
    [|reflexivity..].
  rewrite Z.add_0_l, u16_small by (consts; lia).
  rewrite Z.ltb_irrefl. reflexivity.
Qed.

(** The string "A\\" sent from the initial state. *)
Lemma uart_send_fits_witness :
  exists s1,
    unsent s1 = [65; 92; 92] /\
    uart_send 2 [65; 92; 0; 7] [] boot = Ret (s1, []).
Proof.
  destruct (uart_send_fits 0 [65; 92] [7] [] boot wf_boot)
    as (s1 & E & U & S).
  - vm_compute. intuition discriminate.
  - discriminate.
  - vm_compute. discriminate.
  - exists s1. split; [exact U|].
    change ([65; 92] ++ [0; 7]) with [65; 92; 0; 7] in S. rewrite S.
    assert (T : timer s1 = UART_TIMER_OFF).
    { assert (R : exists s', uart_write [65; 92; 0; 7] 2 boot = Ret (s', 2)
                             /\ timer s' = UART_TIMER_OFF)
        by (eexists; split; vm_compute; reflexivity).
      destruct R as (s' & R & T). change ([65; 92] ++ [0; 7]) with [65; 92; 0; 7] in E.
      change (len [65; 92]) with 2 in E. rewrite R in E.
      apply Ret_inj in E. injection E as <-. exact T. }
    unfold uart_wait. rewrite T. reflexivity.
Defined.

(** ** uart_init with a peer that takes its time *)

(** The probe of uart_init stops at the highest timer that is not
    running. *)
Lemma probe_timers_highest s i : forall n j,
  j - Z.of_nat n < i <= j ->
  Z.land (TIMER_CR s i) TIMER_ENABLE = 0 ->
  (forall k, i < k <= j -> Z.land (TIMER_CR s k) TIMER_ENABLE <> 0) ->
  probe_timers n j s = i.
Proof.
  induction n as [|n IH]; intros j Hj Hfree Hbusy; [lia|].
  cbn [probe_timers].
  destruct (Z.eq_dec i j) as [->|Hne].
  - rewrite Hfree. reflexivity.
  - destruct (Z.eqb_spec (Z.land (TIMER_CR s j) TIMER_ENABLE) 0) as [E|_].
    + exfalso. apply (Hbusy j); [lia|exact E].
    + cbn [negb]. apply IH; [lia|exact Hfree|].
      intros k Hk. apply Hbusy. lia.
Qed.

(** The loop of uart_init when the peer answers 0xFF for some rounds and
    then a version. *)
Lemma uart_init_loop_retries i msg a b v t sl env : forall rounds s,
  wf s -> water_high s = 0 -> water_low s = 0 ->
  timer s <> UART_TIMER_OFF -> 3 + len (unsent s) <= OUT_CAP ->
  rounds = [] \/ Z.of_nat (length rounds) <= inittimeout s ->
  v <> 0 -> v <> 255 ->
  exists s',
    uart_init_loop (S (length rounds)) i msg
      (not_ready rounds ++ mkSlice [a; b; v] t :: sl :: env) s
    = Ret (s', true, env) /\
    timer s' = timer s /\
    inittimeout s' = inittimeout s - Z.of_nat (length rounds) /\
    card_spi s' = card_spi s /\ irq_table s' = irq_table s.
Proof.
  induction rounds as [|[[[a0 b0] t0] sl0] rounds IH];
    intros s W H L T Hf Hk V0 V255; pose proof W as (Hi & Hl & Hn & Hh & Hs);
    pose proof (len_unsent s Hl Hh Hs) as Lu.
  - cbn [not_ready app length uart_init_loop].
    destruct (uart_firmware_ver_round msg a b v t (sl :: env) s W H L)
      as (s1 & E & _ & Eu & _ & _ & Q1 & F1); [lia|].
    rewrite E. cbn [bind]. unfold config_frame in F1.
    destruct F1 as (T1 & I1 & R1 & C1).
    unfold uart_wait.
    destruct (Z.eqb_spec (timer s1) UART_TIMER_OFF) as [X|_]; [congruence|].
    unfold pass.
    destruct (run_irqs_sends (irqs sl) s1 Q1) as (s2 & E2 & _).
    rewrite E2. cbn [bind].
    destruct (run_irqs_config _ _ _ E2) as (T2 & I2 & R2 & C2).
    destruct (Z.eqb_spec v 0); [contradiction|].
    destruct (Z.eqb_spec v 255); [contradiction|]. cbn [negb andb].
    eexists. split; [reflexivity|]. st.
    split; [congruence|]. split; [rewrite I2, I1; lia|].
    split; congruence.
  - cbn [not_ready app length uart_init_loop].
    destruct (uart_firmware_ver_round msg a0 b0 255 t0
                (sl0 :: not_ready rounds ++ mkSlice [a; b; v] t :: sl :: env)
                s W H L)
      as (s1 & E & _ & Eu & _ & _ & Q1 & F1); [lia|].
    rewrite E. cbn [bind]. unfold config_frame in F1.
    destruct F1 as (T1 & I1 & R1 & C1).
    unfold uart_wait.
    destruct (Z.eqb_spec (timer s1) UART_TIMER_OFF) as [X|_]; [congruence|].
    unfold pass.
    destruct (run_irqs_sends (irqs sl0) s1 Q1)
      as (s2 & E2 & Q2 & _ & U2 & _).
    rewrite E2. cbn [bind].
    destruct (run_irqs_config _ _ _ E2) as (T2 & I2 & R2 & C2).
    change (255 =? 0) with false. change (255 =? 255) with true.
    cbn [negb andb orb]. st.
    destruct Hk as [Hk|Hk]; [discriminate|]. cbn [length] in Hk.
    destruct (Z.eqb_spec (inittimeout s2) 0) as [X|_]; [lia|].
    pose proof Q2 as (W2 & H2 & L2 & _).
    destruct (IH (set_inittimeout (inittimeout s2 - 1) (set_rtc (now sl0) s2)))
      as (s' & E' & T' & I' & C' & R').
    + exact W2.
    + exact H2.
    + exact L2.
    + st. congruence.
    + change (unsent (set_inittimeout _ (set_rtc _ s2))) with (unsent s2).
      rewrite U2, Eu. unfold len in *. rewrite length_skipn. lia.
    + right. st. lia.
    + exact V0.
    + exact V255.
    + exists s'. split; [exact E'|]. st.
      split; [congruence|]. split; [lia|]. split; congruence.
Qed.

(** uart_init on a closed driver with a free timer. *)
Lemma uart_init_spec (msg : nat) (i a b v t : Z) (sl : slice)
        (rounds : list (Z * Z * Z * slice)) (env : list slice) (s : state) :
  timer s = UART_TIMER_OFF ->
  wf s -> water_high s = 0 -> water_low s = 0 ->
  3 + len (unsent s) <= OUT_CAP ->
  0 <= i <= 3 -> Z.land (TIMER_CR s i) TIMER_ENABLE = 0 ->
  (forall k, i < k <= 3 -> Z.land (TIMER_CR s k) TIMER_ENABLE <> 0) ->
  rounds = [] \/ Z.of_nat (length rounds) <= inittimeout s ->
  v <> 0 -> v <> 255 ->
  exists s',
    uart_init (S (length rounds)) msg
      (not_ready rounds ++ mkSlice [a; b; v] t :: sl :: env) s
    = Ret (s', true, env) /\
    timer s' = i /\ card_spi s' = true /\
    inittimeout s' = inittimeout s - Z.of_nat (length rounds).
Proof.
  intros T W H L Hf Hi Hfree Hbusy Hk V0 V255.
  unfold uart_init. rewrite T, Z.eqb_refl. cbn [negb]. cbv zeta.
  unfold config_cardSPI, init_cardSPI, irqEnable, irqSet. st.
  rewrite (probe_timers_highest _ i 4 3); [|lia|exact Hfree|exact Hbusy].
  destruct (Z.leb_spec 0 i); [|lia]. st.
  destruct (Z.eqb_spec i UART_TIMER_OFF) as [X|Hoff];
    [unfold UART_TIMER_OFF in X; lia|].
  cbn [negb]. unfold uart_set_spi_rate. st.
  destruct (Z.eqb_spec i UART_TIMER_OFF) as [X|_]; [contradiction|].
  match goal with
  | |- exists s', uart_init_loop _ _ _ _ ?s0 = _ /\ _ =>
      destruct (uart_init_loop_retries i msg a b v t sl env rounds s0)
        as (s' & E & T' & I' & C' & _)
  end.
  - exact W.
  - exact H.
  - exact L.
  - st. exact Hoff.
  - exact Hf.
  - exact Hk.
  - exact V0.
  - exact V255.
  - exists s'. split; [exact E|]. st.
    split; [exact T'|]. split; [exact C'|exact I'].
Qed.

(** X18.  uart_init with a peer that is slow to wake up.  On a closed
    driver with a free timer and the watermarks off, when the peer answers
    0xFF to some version requests, no more of them than the retry budget,
    and then a version other than 0x00 and 0xFF, uart_init returns true.
    It has taken the highest timer that was not running, left the link
    configured, and used up one unit of the budget for each 0xFF: the
    budget is not refilled. *)
Theorem uart_init_retries (msg : nat) (i a b v t : Z) (sl : slice)
        (rounds : list (Z * Z * Z * slice)) (env : list slice) (s : state) :
  timer s = UART_TIMER_OFF ->
  wf s -> water_high s = 0 -> water_low s = 0 ->
  3 + len (unsent s) <= OUT_CAP ->
  0 <= i <= 3 -> Z.land (TIMER_CR s i) TIMER_ENABLE = 0 ->
  (forall k, i < k <= 3 -> Z.land (TIMER_CR s k) TIMER_ENABLE <> 0) ->
  Z.of_nat (length rounds) <= inittimeout s -> v <> 0 -> v <> 255 ->
  exists s',
    uart_init (S (length rounds)) msg
      (not_ready rounds ++ mkSlice [a; b; v] t :: sl :: env) s
    = Ret (s', true, env) /\
    timer s' = i /\ card_spi s' = true /\
    inittimeout s' = inittimeout s - Z.of_nat (length rounds).
Proof.
  intros T W H L Hf Hi Hfree Hbusy Hk.
  apply uart_init_spec; try assumption. right. exact Hk.
Qed.

(** From the initial state, with timer 3 running: the peer answers 0xFF
    twice, then version 17. *)
Lemma uart_init_retries_witness :
  exists s',
    uart_init 3 0%nat
      [mkSlice [0; 0; 255] 0; mkSlice [] 0;
       mkSlice [0; 0; 255] 0; mkSlice [] 0;
       mkSlice [0; 0; 17] 0; mkSlice [] 0]
      (set_TIMER_CR (upd (TIMER_CR boot) 3 TIMER_ENABLE) boot)
    = Ret (s', true, []) /\
    timer s' = 2 /\ card_spi s' = true /\ inittimeout s' = 8.
Proof.
  destruct (uart_init_retries 0%nat 2 0 0 17 0 (mkSlice [] 0)
              [(0, 0, 0, mkSlice [] 0); (0, 0, 0, mkSlice [] 0)] []
              (set_TIMER_CR (upd (TIMER_CR boot) 3 TIMER_ENABLE) boot))
    as (s' & E & T & C & I).
  - reflexivity.
  - exact wf_boot.
  - reflexivity.
  - reflexivity.
  - vm_compute. discriminate.
  - lia.
  - reflexivity.
  - intros k Hk. assert (k = 3) as -> by lia. vm_compute. discriminate.
  - vm_compute. discriminate.
  - discriminate.
  - discriminate.
  - exists s'. split; [exact E|]. split; [exact T|]. split; [exact C|exact I].
Defined.

(** ** uart_close *)

Lemma timer_enable_cleared (x : Z) :
  Z.land (Z.land x (Z.lnot TIMER_ENABLE)) TIMER_ENABLE = 0.
Proof.
  rewrite <- Z.land_assoc.
  change (Z.land (Z.lnot TIMER_ENABLE) TIMER_ENABLE) with 0.
  apply Z.land_0_r.
Qed.

(** Some timer at or above [j] is the highest one not running. *)
Lemma highest_free (f : Z -> Z) (j : Z) :
  0 <= j <= 3 -> Z.land (f j) TIMER_ENABLE = 0 ->
  exists i, j <= i <= 3 /\ Z.land (f i) TIMER_ENABLE = 0 /\
            (forall k, i < k <= 3 -> Z.land (f k) TIMER_ENABLE <> 0).
Proof.
  intros Hj Hfree.
  destruct (Z.eq_dec (Z.land (f 3) TIMER_ENABLE) 0) as [E3|E3].
  { exists 3. split; [lia|]. split; [exact E3|]. intros k Hk. lia. }
  destruct (Z.eq_dec (Z.land (f 2) TIMER_ENABLE) 0) as [E2|E2].
  { assert (j <> 3) by congruence.
    exists 2. split; [lia|]. split; [exact E2|]. intros k Hk.
    assert (k = 3) as -> by lia. exact E3. }
  destruct (Z.eq_dec (Z.land (f 1) TIMER_ENABLE) 0) as [E1|E1].
  { assert (j <> 3) by congruence. assert (j <> 2) by congruence.
    exists 1. split; [lia|]. split; [exact E1|]. intros k Hk.
    assert (k = 2 \/ k = 3) as [-> | ->] by lia; assumption. }
  assert (j <> 3) by congruence. assert (j <> 2) by congruence.
  assert (j <> 1) by congruence. assert (j = 0) as -> by lia.
  exists 0. split; [lia|]. split; [exact Hfree|]. intros k Hk.
  assert (k = 1 \/ k = 2 \/ k = 3) as [-> | [-> | ->]] by lia; assumption.
Qed.

(** X19.  uart_close undoes what uart_init did, also after a uart_init
    that failed: the driver is closed, its timer is stopped, the link is
    disabled, and the bytes waiting in the two buffers are not discarded.
    A uart_init that follows is not refused.  With the watermarks off,
    room for the version frame in the queue and a peer that answers a
    version in the third of the three exchanges of the first wait, the
    driver opens again, on the timer just released or on a higher one that
    has become free in the meantime. *)
Theorem uart_close_reopens (msg : nat) (a b v t : Z) (sl : slice)
        (env : list slice) (s : state) :
  0 <= timer s <= 3 ->
  wf s -> water_high s = 0 -> water_low s = 0 ->
  3 + len (unsent s) <= OUT_CAP -> v <> 0 -> v <> 255 ->
  timer (uart_close s) = UART_TIMER_OFF /\
  card_spi (uart_close s) = false /\
  Z.land (TIMER_CR (uart_close s) (timer s)) TIMER_ENABLE = 0 /\
  unsent (uart_close s) = unsent s /\ inbound (uart_close s) = inbound s /\
  exists s',
    uart_init 1 msg (mkSlice [a; b; v] t :: sl :: env) (uart_close s)
    = Ret (s', true, env) /\
    timer s <= timer s' <= 3 /\ card_spi s' = true.
Proof.
  intros Ht W H L Hf V0 V255.
  assert (Hoff : (timer s =? UART_TIMER_OFF) = false)
    by (apply Z.eqb_neq; unfold UART_TIMER_OFF; lia).
  assert (Ec : uart_close s
               = set_card_spi false
                   (set_irq_table
                      (Z.land (Z.land (irq_table s)
                                 (Z.lnot (BIT (timer s + 3))))
                              (Z.lnot IRQ_CARD_LINE))
                   (set_REG_IE
                      (Z.land (Z.land (REG_IE s)
                                 (Z.lnot (BIT (timer s + 3))))
                              (Z.lnot IRQ_CARD_LINE))
                   (set_timer UART_TIMER_OFF
                   (set_TIMER_CR
                      (upd (TIMER_CR s) (timer s)
                         (Z.land (TIMER_CR s (timer s))
                                 (Z.lnot TIMER_ENABLE))) s))))).
  { unfold uart_close. rewrite Hoff. cbn [negb].
    unfold disable_cardSPI, irqClear, irqDisable. st. reflexivity. }
  rewrite Ec. st.
  assert (Hfree : Z.land (upd (TIMER_CR s) (timer s)
                            (Z.land (TIMER_CR s (timer s))
                                    (Z.lnot TIMER_ENABLE)) (timer s))
                         TIMER_ENABLE = 0).
  { unfold upd. rewrite Z.eqb_refl. apply timer_enable_cleared. }
  split; [reflexivity|]. split; [reflexivity|]. split; [exact Hfree|].
  split; [reflexivity|]. split; [reflexivity|].
  destruct (highest_free _ (timer s) Ht Hfree) as (i & Hi & Fi & Bi).
  match goal with
  | |- exists s', uart_init _ _ _ ?s0 = _ /\ _ =>
      destruct (uart_init_spec msg i a b v t sl [] env s0)
        as (s' & E & T' & C' & _)
  end.
  - reflexivity.
  - exact W.
  - exact H.
  - exact L.
  - exact Hf.
  - lia.
  - exact Fi.
  - exact Bi.
  - left. reflexivity.
  - exact V0.
  - exact V255.
  - exists s'. split; [exact E|]. split; [lia|exact C'].
Qed.

(** Every timer is running and timer 3 is the driver's: after uart_close,
    uart_init takes timer 3 again. *)
Lemma uart_close_reopens_witness :
  timer (uart_close (set_timer 3 timers_taken)) = UART_TIMER_OFF /\
  exists s',
    uart_init 1 0%nat [mkSlice [0; 0; 17] 0; mkSlice [] 0]
      (uart_close (set_timer 3 timers_taken))
    = Ret (s', true, []) /\
    3 <= timer s' <= 3.
Proof.
  destruct (uart_close_reopens 0%nat 0 0 17 0 (mkSlice [] 0) []
              (set_timer 3 timers_taken))
    as (T & _ & _ & _ & _ & s' & E & T' & _).
  - vm_compute. split; discriminate.
  - unfold wf. vm_compute. intuition congruence.
  - reflexivity.
  - reflexivity.
  - vm_compute. discriminate.
  - discriminate.
  - discriminate.
  - split; [exact T|]. exists s'. split; [exact E|exact T'].
Defined.

(** ** Critical sections and uart_requeue *)

Lemma land_lor_same (x m : Z) : Z.land (Z.lor x m) m = m.
Proof.
  apply Z.bits_inj'. intros n _.
  rewrite Z.land_spec, Z.lor_spec.
  destruct (Z.testbit x n), (Z.testbit m n); reflexivity.
Qed.

(** X20.  The critical sections do not remember the interrupt mask they found.
    On a driver with a timer, uart_read ends with the timer interrupt and
    the card-line interrupt enabled, also when they were masked before
    the call - as the timer interrupt is after a failed uart_init. *)
Theorem uart_read_unmasks (size : Z) (s : state) :
  timer s <> UART_TIMER_OFF -> wf s -> 0 <= size ->
  exists s' n data,
    uart_read size s = Ret (s', n, data) /\
    Z.land (REG_IE s') (Z.lor (BIT (timer s + 3)) IRQ_CARD_LINE)
    = Z.lor (BIT (timer s + 3)) IRQ_CARD_LINE.
Proof.
  intros T W Hz.
  destruct (uart_read_Ret size s W Hz) as (b & n & E & _).
  eexists. exists n. eexists. split; [exact E|].
  rewrite unlock_eq, lock_eq. st.
  destruct (Z.eqb_spec (timer s) UART_TIMER_OFF); [contradiction|].
  apply land_lor_same.
Qed.

(** Timer 3 chosen, every interrupt masked. *)
Lemma uart_read_unmasks_witness :
  exists s' n data,
    uart_read 1 (set_timer 3 boot) = Ret (s', n, data) /\
    Z.land (REG_IE s') (Z.lor (BIT 6) IRQ_CARD_LINE)
    = Z.lor (BIT 6) IRQ_CARD_LINE.
Proof.
  destruct (uart_read_unmasks 1 (set_timer 3 boot))
    as (s' & n & data & E & M).
  - vm_compute. discriminate.
  - exact wf_boot.
  - lia.
  - exists s', n, data. split; [exact E|exact M].
Defined.

(** X21.  What uart_requeue does when it accepts.  The held bytes are moved up
    by [size] places, but nothing is written below them and the count of
    held bytes is not raised: uart_available is what it was, and the
    Inbound Buffer now starts with whatever its first [size] places held.
    The bytes of [src] go to the start of the [out] array instead, and it
    is the count of the Outbound Buffer that grows by [size]. *)
Theorem uart_requeue_accepted (src : list Z) (size : Z) (s : state) :
  wf s -> 0 <= size <= len src -> size <= OUT_CAP ->
  size + in_size s <= UART_IN_SIZE + UART_IN_EMERG ->
  exists s',
    uart_requeue src size s = Ret (s', true) /\
    uart_available s' = uart_available s /\
    inbound s'
    = firstn (Z.to_nat (in_size s))
             (firstn (Z.to_nat size) (in_buf s) ++ inbound s) /\
    firstn (Z.to_nat size) (out s') = firstn (Z.to_nat size) src /\
    out_size s' = out_size s + size /\ out_head s' = out_head s.
Proof.
  intros (Hi & Hl & Hn & Hh & Hs) Hz Hc Hf. unfold uart_requeue. cbv zeta.
  rewrite lock_eq. st.
  destruct (Z.leb_spec (size + in_size s) (UART_IN_SIZE + UART_IN_EMERG));
    [|lia].
  consts.
  rewrite memmove_Ret by lia. cbn [bind].
  rewrite memcpy_Ret by lia. cbn [bind]. rewrite unlock_eq. st.
  eexists. split; [reflexivity|]. unfold uart_available, inbound. st.
  split; [reflexivity|]. split; [|split; [|split; [|reflexivity]]].
  - change (Z.to_nat 0) with O. cbn [skipn].
    rewrite app_assoc.
    rewrite firstn_app_l; [reflexivity|].
    rewrite length_app, !length_firstn. unfold len in Hi. lia.
  - change (Z.to_nat 0) with O. cbn [firstn app].
    rewrite firstn_app_exact; [reflexivity|].
    rewrite length_firstn. unfold len in Hz. lia.
  - apply u16_small. lia.
Qed.

(** Two bytes requeued on three held bytes. *)
Lemma uart_requeue_accepted_witness :
  exists s',
    uart_requeue [8; 9] 2
      (set_in_size 3 (set_in_buf ([1; 2; 3] ++ repeat 0 261) boot))
    = Ret (s', true) /\
    uart_available s' = 3 /\ inbound s' = [1; 2; 1] /\
    firstn 2 (out s') = [8; 9] /\ out_size s' = 2.
Proof.
  destruct (uart_requeue_accepted [8; 9] 2
      (set_in_size 3 (set_in_buf ([1; 2; 3] ++ repeat 0 261) boot)))
    as (s' & E & A & I & O & Z & _).
  - unfold wf. vm_compute. intuition congruence.
  - vm_compute. split; discriminate.
  - vm_compute. discriminate.
  - vm_compute. discriminate.
  - exists s'. split; [exact E|]. split; [exact A|]. split; [exact I|].
    split; [exact O|exact Z].
Defined.

(** ** Frames without a destination *)

(** The tick inside the reply region of a frame without a destination. *)
Lemma do_spi_discard read s :
  len (out s) = OUT_CAP -> 0 <= out_head s <= out_size s ->
  out_size s <= OUT_CAP -> prio_size s < 65536 ->
  prio_dest s = None -> in_reply_region s ->
  exists s1,
    tick_frame s s1 /\ got_esc s1 = got_esc s /\
    wire s1 = wire (exchanged s) /\
    do_spi read s = Ret (set_prio_head (prio_head s + 1) s1).
Proof.
  intros Hl Hh Hs Hz Hd (R1 & R2). unfold do_spi.
  rewrite do_spi_exchange_Ret by assumption. st.
  pose proof (tick_frame_exchanged s) as F.
  pose proof (prio_head_exchanged s) as Ep.
  assert (Eg : got_esc (exchanged s) = got_esc s).
  { unfold exchanged, writeBlocking_cardSPI. rewrite timer_start_eq.
    destruct (out_head s <? out_size s); reflexivity. }
  set (s1 := exchanged s) in *.
  pose proof F as F'. unfold tick_frame in F'.
  destruct F' as (_ & _ & Ehp & _ & _ & _ & _ & _ & _ & Ed & Ez & _).
  rewrite Ep, Ez.
  destruct (Z.ltb_spec (prio_head s) (prio_size s)); [|lia].
  set (s2 := if negb (Z.land (prio_irq_bytes s1)
                        (shl1 (prio_size s - prio_head s - 2)) =? 0)
             then timer_stop s1 else s1).
  assert (X : tick_frame s s2 /\ got_esc s2 = got_esc s /\
              prio_head s2 = prio_head s /\ wire s2 = wire s1).
  { subst s2. destruct (negb _).
    - rewrite timer_stop_eq. unfold tick_frame in *. st. tauto.
    - tauto. }
  destruct X as (F2 & G2 & P2 & W2).
  pose proof F2 as F'. unfold tick_frame in F'.
  destruct F' as (_ & _ & _ & _ & _ & _ & _ & _ & _ & Ed2 & _).
  rewrite P2, Ed2, Hd.
  destruct (Z.ltb_spec (prio_head s) 2); [lia|].
  cbn [bind]. rewrite P2, u16_small by lia.
  exists s2. tauto.
Qed.

(** X22.  A priority frame without a destination swallows what is received
    while its bytes from the third on go out - for a watermark notice,
    the byte that arrives during its last byte.  Whatever its value, that
    byte reaches neither the Inbound Buffer nor the caller's memory, and
    the escape state does not see it. *)
Theorem reply_without_destination_is_dropped (read : Z) (s : state) :
  wf s -> prio_size s < 65536 -> prio_dest s = None -> in_reply_region s ->
  exists s',
    do_spi read s = Ret s' /\
    inbound s' = inbound s /\ uart_available s' = uart_available s /\
    heap s' = heap s /\ got_esc s' = got_esc s /\
    prio_head s' = prio_head s + 1 /\
    wire s' = wire s ++ [hd 0 (unsent s)].
Proof.
  intros (Hi & Hl & Hn & Hh & Hs) Hz Hd Hr.
  destruct (do_spi_discard read s Hl Hh Hs Hz Hd Hr)
    as (s1 & F & G & W & E).
  exists (set_prio_head (prio_head s + 1) s1). split; [exact E|].
  unfold tick_frame in F. destruct F as (Eb & En & Eh & _).
  unfold inbound, uart_available. st. rewrite Eb, En.
  split; [reflexivity|]. split; [reflexivity|]. split; [exact Eh|].
  split; [exact G|]. split; [reflexivity|].
  rewrite W, wire_exchanged, hd_unsent. reflexivity.
Qed.

(** The last byte of a high-water notice goes out while 'A' comes in. *)
Lemma reply_without_destination_is_dropped_witness :
  exists s',
    do_spi 65
      (set_prio_size 3 (set_prio_head 2
         (set_out_size 3 (set_out_head 2
            (set_out ([92; 119; 1] ++ repeat 0 257) boot)))))
    = Ret s' /\
    inbound s' = [] /\ wire s' = [1].
Proof.
  destruct (reply_without_destination_is_dropped 65
      (set_prio_size 3 (set_prio_head 2
         (set_out_size 3 (set_out_head 2
            (set_out ([92; 119; 1] ++ repeat 0 257) boot))))))
    as (s' & E & I & _ & _ & _ & _ & W).
  - unfold wf. vm_compute. intuition congruence.
  - reflexivity.
  - reflexivity.
  - unfold in_reply_region. vm_compute. split; [discriminate|reflexivity].
  - exists s'. split; [exact E|]. split; [exact I|exact W].
Defined.

(** ** uart_set_watermarks *)

Lemma uart_set_watermarks_marks high low s :
  0 <= low < high -> high <= 100 ->
  water_high (uart_set_watermarks high low s) = UART_IN_SIZE * high / 100 /\
  water_low (uart_set_watermarks high low s) = UART_IN_SIZE * low / 100 /\
  water_low (uart_set_watermarks high low s)
  < water_high (uart_set_watermarks high low s) <= UART_IN_SIZE.
Proof.
  intros H H100. unfold uart_set_watermarks. st. consts.
  rewrite !Z.quot_div_nonneg by lia.
  assert (A : 0 <= 256 * high / 100 <= 256)
    by (Z.to_euclidean_division_equations; lia).
  assert (B : 0 <= 256 * low / 100 < 256 * high / 100)
    by (Z.to_euclidean_division_equations; lia).
  rewrite !u16_small by lia. split; [reflexivity|].
  split; [reflexivity|lia].
Qed.

(** X23.  Marks set from percentages in order.  For 0 <= low < high <= 100 the
    low mark is strictly below the high mark, which is at most
    UART_IN_SIZE; and with such marks the two watermark tests of a tick
    never both fire: a tick queues no notice, or the high-water notice, or
    the low-water notice, in front of what was waiting. *)
Theorem uart_set_watermarks_one_notice (high low : Z) (s : state) :
  0 <= low < high -> high <= 100 -> wf s ->
  3 + out_size s - out_head s <= OUT_CAP ->
  water_low (uart_set_watermarks high low s)
  < water_high (uart_set_watermarks high low s) <= UART_IN_SIZE /\
  exists s1,
    do_spi_watermarks (uart_set_watermarks high low s) = Ret s1 /\
    (s1 = uart_set_watermarks high low s \/
     (unsent s1 = watermark_msg true ++ unsent s /\
      water_send s1 = true) \/
     (unsent s1 = watermark_msg false ++ unsent s /\
      water_send s1 = false)).
Proof.
  intros Hp H100 (Hi & Hl & Hn & Hh & Hs) Hf.
  destruct (uart_set_watermarks_marks high low s Hp H100) as (_ & _ & Hm).
  split; [exact Hm|].
  set (s' := uart_set_watermarks high low s) in *.
  assert (Eo : out s' = out s /\ out_size s' = out_size s /\
               out_head s' = out_head s /\ in_size s' = in_size s /\
               water_send s' = water_send s)
    by (subst s'; unfold uart_set_watermarks; st; repeat split).
  destruct Eo as (Eo & Ez & Eh & En & Ew).
  assert (Eu : unsent s' = unsent s) by reflexivity.
  assert (Hl' : len (out s') = OUT_CAP) by (rewrite Eo; exact Hl).
  assert (Hh' : 0 <= out_head s' <= out_size s') by (rewrite Eh, Ez; exact Hh).
  assert (Hs' : out_size s' <= OUT_CAP) by (rewrite Ez; exact Hs).
  assert (Hf' : 3 + out_size s' - out_head s' <= OUT_CAP)
    by (rewrite Eh, Ez; exact Hf).
  assert (U : forall h,
            unsent (enqueued
                      (watermark_msg h ++ unsent s'
                       ++ skipn (Z.to_nat (3 + (out_size s' - out_head s')))
                            (out s')) 3 None 0 s')
            = watermark_msg h ++ unsent s).
  { intros h. rewrite unsent_enqueued; try assumption;
      [reflexivity|reflexivity|consts; lia]. }
  assert (Dh : notice_high s' \/ ~ notice_high s').
  { unfold notice_high. destruct (water_send s');
      [right; intuition discriminate|].
    destruct (Z_lt_dec 0 (water_high s'));
      destruct (Z_le_dec (water_high s') (in_size s' + 1)); tauto. }
  destruct Dh as [Nh|Nh].
  - assert (Nl : ~ level_low s').
    { unfold level_low. unfold notice_high in Nh. lia. }
    rewrite do_spi_watermarks_high by assumption.
    eexists. split; [reflexivity|]. right. left.
    split; [|reflexivity].
    change (unsent (set_water_send true ?x)) with (unsent x). apply U.
  - assert (Dl : (level_low s' /\ water_send s' = true) \/
                 ~ (level_low s' /\ water_send s' = true)).
    { unfold level_low. destruct (water_send s');
        [|right; intuition discriminate].
      destruct (Z_lt_dec 0 (water_low s'));
        destruct (Z_le_dec (in_size s' + 1) (water_low s')); tauto. }
    destruct Dl as [(Ll & Ws)|Nl].
    + rewrite do_spi_watermarks_low by assumption.
      eexists. split; [reflexivity|]. right. right.
      split; [|reflexivity].
      change (unsent (set_water_send false ?x)) with (unsent x). apply U.
    + rewrite do_spi_watermarks_none by assumption.
      exists s'. split; [reflexivity|]. left. reflexivity.
Qed.

(** Marks at 80% and 20% with 203 bytes held: the next byte raises the
    high-water notice and nothing else. *)
Lemma uart_set_watermarks_one_notice_witness :
  water_low rising < water_high rising <= UART_IN_SIZE /\
  exists s1,
    do_spi_watermarks rising = Ret s1 /\
    unsent s1 = [92; 119; 1] /\ water_send s1 = true.
Proof.
  destruct (uart_set_watermarks_one_notice 80 20 (set_in_size 203 boot))
    as (M & s1 & E & D).
  - lia.
  - lia.
  - unfold wf. vm_compute. intuition congruence.
  - vm_compute. discriminate.
  - split; [exact M|].
    assert (R : exists s2, do_spi_watermarks rising = Ret s2 /\
                           unsent s2 = [92; 119; 1] /\ water_send s2 = true).
    { eexists. split; [vm_compute; reflexivity|]. split; reflexivity. }
    destruct R as (s2 & R & U & Ws).
    change (uart_set_watermarks 80 20 (set_in_size 203 boot)) with rising in E.
    rewrite R in E. apply Ret_inj in E. subst s2.
    exists s1. split; [exact R|]. split; [exact U|exact Ws].
Defined.
